(** * fwknopd: the SPA ingestion pipeline (server/incoming_spa.c) and the
      UDP receiver that feeds it (server/udp_server.c)

    A shallow embedding of [preprocess_spa_data], [process_spa_data],
    [incoming_spa] and of the datagram handling of [run_udp_server].

    - C strings are [string]s (the bytes before the terminating NUL), a
      nullable [char *] is an [option string], raw buffers are [list ascii].
    - [int]s are [Z].
    - libfko, the access-policy module, the firewall actuator, the command
      runner and the clock are not part of these two files: they are the
      fields of the record [Externs], over which every statement is
      universally quantified.
    - A run is a function from a [world] (replay cache and the trace of the
      calls made to collaborators) to a result and a new world; a run that
      passes NULL to a libc string function has no result. *)

From Stdlib Require Import ZArith Ascii String DecimalString Lia Bool List.
From stdpp Require Import base gmap list strings.

Local Open Scope Z_scope.

(** ** libc string functions, on NUL-free strings *)

Module Libc.

Definition NUL : ascii := Ascii.zero.

Definition code (c : ascii) : Z := Z.of_nat (nat_of_ascii c).

(** [tolower] in the C locale. *)
Definition tolower (c : ascii) : ascii :=
  if (65 <=? code c) && (code c <=? 90)
  then ascii_of_nat (nat_of_ascii c + 32) else c.

(** [isspace] in the C locale: space, \t, \n, \v, \f, \r. *)
Definition isspace (c : ascii) : bool :=
  (code c =? 32) || ((9 <=? code c) && (code c <=? 13)).

(** [strncasecmp(s1, s2, n)]: the difference of the first pair of
    characters that differ after case folding, among the first [n]; the end
    of a string counts as character 0. *)
Fixpoint strncasecmp (s1 s2 : string) (n : nat) : Z :=
  match n with
  | O => 0
  | S n' =>
      match s1, s2 with
      | EmptyString, EmptyString => 0
      | EmptyString, String c2 _ => - code (tolower c2)
      | String c1 _, EmptyString => code (tolower c1)
      | String c1 r1, String c2 r2 =>
          if Ascii.eqb (tolower c1) (tolower c2)
          then strncasecmp r1 r2 n'
          else code (tolower c1) - code (tolower c2)
      end
  end.

(** [strcmp]: only its sign is used. *)
Definition strcmp (s1 s2 : string) : Z :=
  match String.compare s1 s2 with Eq => 0 | Lt => -1 | Gt => 1 end.

(** [strchr(s, c)] as the offset of the first [c] in [s], if any. *)
Fixpoint strchr (s : string) (c : ascii) : option nat :=
  match s with
  | EmptyString => None
  | String a r => if Ascii.eqb a c then Some O else option_map S (strchr r c)
  end.

(** [strstr(h, n) != NULL]. *)
Definition strstr_found (h n : string) : bool :=
  match String.index 0 n h with Some _ => true | None => false end.

(** First [n] characters, and what follows them. *)
Fixpoint str_take (n : nat) (s : string) : string :=
  match n, s with
  | S n', String c r => String c (str_take n' r)
  | _, _ => EmptyString
  end.

Fixpoint str_drop (n : nat) (s : string) : string :=
  match n, s with
  | S n', String _ r => str_drop n' r
  | _, _ => s
  end.

(** [strlcpy(dst, src, siz)] into a buffer of at least [siz] bytes: the
    string left in [dst]. *)
Definition strlcpy (src : string) (siz : nat) : string :=
  str_take (siz - 1) src.

(** [strlcat(dst, src, siz)]: appends what fits in [siz] bytes, NUL
    included; a [dst] that already fills [siz] bytes is left alone. *)
Definition strlcat (dst src : string) (siz : nat) : string :=
  if (siz <=? String.length dst)%nat then dst
  else dst +:+ str_take (siz - String.length dst - 1) src.

(** [strndup(s, n)]. *)
Definition strndup (s : string) (n : nat) : string := str_take n s.

(** The C string held by a buffer: the bytes before the first NUL. *)
Fixpoint cstr (buf : list ascii) : string :=
  match buf with
  | [] => EmptyString
  | c :: r => if Ascii.eqb c NUL then EmptyString else String c (cstr r)
  end.

Fixpoint bytes_of (s : string) : list ascii :=
  match s with
  | EmptyString => []
  | String c r => c :: bytes_of r
  end.

(** Writing [src] over the start of [dst], the rest of [dst] kept. *)
Definition overwrite (dst src : list ascii) : list ascii :=
  src ++ drop (length src) dst.

(** [strlcpy] seen on the destination buffer: the copied characters, a NUL,
    and whatever the buffer held after them. *)
Definition strlcpy_buf (dst : list ascii) (src : string) (siz : nat)
  : list ascii :=
  match siz with
  | O => dst
  | S _ => overwrite dst (bytes_of (strlcpy src siz) ++ [NUL])
  end.

(** [WIFEXITED] and [WEXITSTATUS] of <sys/wait.h>. *)
Definition WIFEXITED (st : Z) : bool := Z.land st 127 =? 0.
Definition WEXITSTATUS (st : Z) : Z := Z.land (Z.shiftr st 8) 255.

End Libc.
Export Libc.

Example strncasecmp_root : strncasecmp "Rooter" "root" 4 = 0.
Proof. reflexivity. Qed.

Example strlcat_fits : strlcat "sudo" " -u bob" 8 = "sudo -u".
Proof. reflexivity. Qed.

Example strlcpy_buf_keeps_tail :
  strlcpy_buf (bytes_of "AAAA") "B" 4 = bytes_of "B" ++ [NUL] ++ bytes_of "AA".
Proof. reflexivity. Qed.

(** ** Data model *)

(** Return codes: libfko's [FKO_*] and the server's [SPA_MSG_*] share the
    [int] that carries them, and both kinds of success are 0. *)
Inductive status :=
| SUCCESS
| FKO_ERROR_MEMORY_ALLOCATION
| FKO_ERROR_ZERO_OUT_DATA
| FKO_ERROR (code : Z)
| SPA_MSG_BAD_DATA
| SPA_MSG_NOT_SPA_DATA
| SPA_MSG_FKO_CTX_ERROR
| SPA_MSG_DIGEST_ERROR
| SPA_MSG_REPLAY
| SPA_MSG_COMMAND_ERROR
| SPA_MSG_ERROR
| EXTCMD_STATUS (rv : Z).

Definition FKO_SUCCESS := SUCCESS.
Definition SPA_MSG_SUCCESS := SUCCESS.
Definition FWKNOPD_SUCCESS := SUCCESS.

Definition is_success (s : status) : bool :=
  match s with SUCCESS => true | _ => false end.

(** [#define KEEP_SEARCHING 1] and [#define STOP_SEARCHING 0]. *)
Inductive verdict := KEEP_SEARCHING | STOP_SEARCHING.

(** The configuration keys read by the two files. *)
Inductive conf_key :=
| CONF_ENABLE_SPA_OVER_HTTP
| CONF_DISABLE_SDP_MODE
| CONF_ENABLE_DIGEST_PERSISTENCE
| CONF_ENABLE_SPA_PACKET_AGING
| CONF_MAX_SPA_PACKET_AGE
| CONF_ALLOW_LEGACY_ACCESS_REQUESTS
| CONF_ENABLE_FIREWD_FORWARDING
| CONF_ENABLE_FIREWD_LOCAL_NAT
| CONF_ENABLE_IPT_FORWARDING
| CONF_ENABLE_IPT_LOCAL_NAT
| CONF_SUDO_EXE.

(** The firewall backend chosen at build time ([#if FIREWALL_FIREWALLD],
    [#elif FIREWALL_IPTABLES], [#else]). *)
Inductive fw_backend := FIREWALL_FIREWALLD | FIREWALL_IPTABLES | FIREWALL_NONE.

(** The message types of fko.h that [incoming_spa.c] names; every other
    value of the enumeration (the plain access requests among them) is an
    [FKO_OTHER_MSG]. *)
Inductive fko_message_type :=
| FKO_COMMAND_MSG
| FKO_NAT_ACCESS_MSG
| FKO_CLIENT_TIMEOUT_NAT_ACCESS_MSG
| FKO_LOCAL_NAT_ACCESS_MSG
| FKO_CLIENT_TIMEOUT_LOCAL_NAT_ACCESS_MSG
| FKO_SERVICE_ACCESS_MSG
| FKO_CLIENT_TIMEOUT_SERVICE_ACCESS_MSG
| FKO_OTHER_MSG (n : Z).

(** What [fko_encryption_type] can answer. *)
Inductive fko_encryption :=
| FKO_ENCRYPTION_RIJNDAEL
| FKO_ENCRYPTION_GPG
| FKO_ENCRYPTION_OTHER (n : Z).

Inductive log_level := LOG_DEBUG | LOG_INFO | LOG_WARNING | LOG_ERR.

Global Instance status_eq_dec : EqDecision status.
Proof. solve_decision. Defined.
Global Instance verdict_eq_dec : EqDecision verdict.
Proof. solve_decision. Defined.
Global Instance fko_message_type_eq_dec : EqDecision fko_message_type.
Proof. solve_decision. Defined.
Global Instance fko_encryption_eq_dec : EqDecision fko_encryption.
Proof. solve_decision. Defined.

(** [spa_pkt_info_t]: the packet slot shared by receiver and pipeline.
    [packet_data] is the whole buffer of [MAX_SPA_PACKET_LEN+1] bytes. *)
Record spa_pkt_info := mk_spa_pkt {
  packet_data : list ascii;
  packet_data_len : Z;
  packet_proto : Z;
  packet_src_ip : Z;
  packet_dst_ip : Z;
  packet_src_port : Z;
  packet_dst_port : Z;
  sdp_id : Z;
  sdp_id_str : string
}.

Definition set_packet_data v (p : spa_pkt_info) : spa_pkt_info :=
  mk_spa_pkt v (packet_data_len p) (packet_proto p) (packet_src_ip p)
    (packet_dst_ip p) (packet_src_port p) (packet_dst_port p) (sdp_id p)
    (sdp_id_str p).
Definition set_packet_data_len v (p : spa_pkt_info) : spa_pkt_info :=
  mk_spa_pkt (packet_data p) v (packet_proto p) (packet_src_ip p)
    (packet_dst_ip p) (packet_src_port p) (packet_dst_port p) (sdp_id p)
    (sdp_id_str p).
Definition set_sdp_id v (p : spa_pkt_info) : spa_pkt_info :=
  mk_spa_pkt (packet_data p) (packet_data_len p) (packet_proto p)
    (packet_src_ip p) (packet_dst_ip p) (packet_src_port p)
    (packet_dst_port p) v (sdp_id_str p).
Definition set_sdp_id_str v (p : spa_pkt_info) : spa_pkt_info :=
  mk_spa_pkt (packet_data p) (packet_data_len p) (packet_proto p)
    (packet_src_ip p) (packet_dst_ip p) (packet_src_port p)
    (packet_dst_port p) (sdp_id p) v.

(** [acc_stanza_t], the fields the pipeline reads or writes.  Address, port
    and service lists are only interpreted by the access module. *)
Record acc_stanza := mk_acc {
  source_list : list Z;
  destination_list : option (list Z);
  open_ports : list string;
  restrict_ports : list string;
  service_list : list Z;
  use_rijndael : bool;
  key : option string;
  key_len : Z;
  encryption_mode : Z;
  hmac_key : option string;
  hmac_key_len : Z;
  hmac_type : Z;
  use_gpg : bool;
  gpg_exe : option string;
  gpg_home_dir : option string;
  gpg_decrypt_id : option string;
  gpg_decrypt_pw : option string;
  gpg_allow_no_pw : bool;
  gpg_require_sig : bool;
  gpg_ignore_sig_error : Z;
  gpg_remote_id : option string;
  gpg_remote_id_list : list string;
  gpg_remote_fpr : option string;
  gpg_remote_fpr_list : list string;
  require_username : option string;
  require_source_address : bool;
  enable_cmd_exec : bool;
  enable_cmd_sudo_exec : bool;
  cmd_sudo_exec_user : option string;
  cmd_sudo_exec_group : option string;
  cmd_exec_user : option string;
  cmd_exec_group : option string;
  cmd_exec_uid : Z;
  cmd_exec_gid : Z;
  cmd_cycle_open : option string;
  fw_access_timeout : Z;
  access_expire_time : Z;
  expired : bool
}.

Definition set_expired (v : bool) (a : acc_stanza) : acc_stanza :=
  mk_acc (source_list a) (destination_list a) (open_ports a)
    (restrict_ports a) (service_list a) (use_rijndael a) (key a) (key_len a)
    (encryption_mode a) (hmac_key a) (hmac_key_len a) (hmac_type a)
    (use_gpg a) (gpg_exe a) (gpg_home_dir a) (gpg_decrypt_id a)
    (gpg_decrypt_pw a) (gpg_allow_no_pw a) (gpg_require_sig a)
    (gpg_ignore_sig_error a) (gpg_remote_id a) (gpg_remote_id_list a)
    (gpg_remote_fpr a) (gpg_remote_fpr_list a) (require_username a)
    (require_source_address a) (enable_cmd_exec a) (enable_cmd_sudo_exec a)
    (cmd_sudo_exec_user a) (cmd_sudo_exec_group a) (cmd_exec_user a)
    (cmd_exec_group a) (cmd_exec_uid a) (cmd_exec_gid a)
    (cmd_cycle_open a) (fw_access_timeout a) (access_expire_time a) v.

(** [spa_data_t]: what the pipeline has learnt about the current packet.
    [spa_sdp_id] and [spa_fw_access_timeout] are its [sdp_id] and
    [fw_access_timeout], renamed apart from the fields of the packet slot
    and of the stanza. *)
Record spa_data := mk_spadat {
  spa_sdp_id : Z;
  username : string;
  timestamp : Z;
  version : string;
  message_type : fko_message_type;
  spa_message : string;
  spa_message_src_ip : string;
  pkt_source_ip : string;
  pkt_destination_ip : string;
  spa_message_remain : string;
  nat_access : option string;
  server_auth : option string;
  client_timeout : Z;
  spa_fw_access_timeout : Z;
  use_src_ip : string;
  service_data_list : option (list Z)
}.

Definition set_spa_sdp_id v (s : spa_data) : spa_data :=
  mk_spadat v (username s) (timestamp s) (version s) (message_type s)
    (spa_message s) (spa_message_src_ip s) (pkt_source_ip s)
    (pkt_destination_ip s) (spa_message_remain s) (nat_access s)
    (server_auth s) (client_timeout s) (spa_fw_access_timeout s)
    (use_src_ip s) (service_data_list s).
Definition set_username v (s : spa_data) : spa_data :=
  mk_spadat (spa_sdp_id s) v (timestamp s) (version s) (message_type s)
    (spa_message s) (spa_message_src_ip s) (pkt_source_ip s)
    (pkt_destination_ip s) (spa_message_remain s) (nat_access s)
    (server_auth s) (client_timeout s) (spa_fw_access_timeout s)
    (use_src_ip s) (service_data_list s).
Definition set_timestamp v (s : spa_data) : spa_data :=
  mk_spadat (spa_sdp_id s) (username s) v (version s) (message_type s)
    (spa_message s) (spa_message_src_ip s) (pkt_source_ip s)
    (pkt_destination_ip s) (spa_message_remain s) (nat_access s)
    (server_auth s) (client_timeout s) (spa_fw_access_timeout s)
    (use_src_ip s) (service_data_list s).
Definition set_version v (s : spa_data) : spa_data :=
  mk_spadat (spa_sdp_id s) (username s) (timestamp s) v (message_type s)
    (spa_message s) (spa_message_src_ip s) (pkt_source_ip s)
    (pkt_destination_ip s) (spa_message_remain s) (nat_access s)
    (server_auth s) (client_timeout s) (spa_fw_access_timeout s)
    (use_src_ip s) (service_data_list s).
Definition set_message_type v (s : spa_data) : spa_data :=
  mk_spadat (spa_sdp_id s) (username s) (timestamp s) (version s) v
    (spa_message s) (spa_message_src_ip s) (pkt_source_ip s)
    (pkt_destination_ip s) (spa_message_remain s) (nat_access s)
    (server_auth s) (client_timeout s) (spa_fw_access_timeout s)
    (use_src_ip s) (service_data_list s).
Definition set_spa_message v (s : spa_data) : spa_data :=
  mk_spadat (spa_sdp_id s) (username s) (timestamp s) (version s)
    (message_type s) v (spa_message_src_ip s) (pkt_source_ip s)
    (pkt_destination_ip s) (spa_message_remain s) (nat_access s)
    (server_auth s) (client_timeout s) (spa_fw_access_timeout s)
    (use_src_ip s) (service_data_list s).
Definition set_spa_message_src_ip v (s : spa_data) : spa_data :=
  mk_spadat (spa_sdp_id s) (username s) (timestamp s) (version s)
    (message_type s) (spa_message s) v (pkt_source_ip s)
    (pkt_destination_ip s) (spa_message_remain s) (nat_access s)
    (server_auth s) (client_timeout s) (spa_fw_access_timeout s)
    (use_src_ip s) (service_data_list s).
Definition set_pkt_source_ip v (s : spa_data) : spa_data :=
  mk_spadat (spa_sdp_id s) (username s) (timestamp s) (version s)
    (message_type s) (spa_message s) (spa_message_src_ip s) v
    (pkt_destination_ip s) (spa_message_remain s) (nat_access s)
    (server_auth s) (client_timeout s) (spa_fw_access_timeout s)
    (use_src_ip s) (service_data_list s).
Definition set_pkt_destination_ip v (s : spa_data) : spa_data :=
  mk_spadat (spa_sdp_id s) (username s) (timestamp s) (version s)
    (message_type s) (spa_message s) (spa_message_src_ip s)
    (pkt_source_ip s) v (spa_message_remain s) (nat_access s)
    (server_auth s) (client_timeout s) (spa_fw_access_timeout s)
    (use_src_ip s) (service_data_list s).
Definition set_spa_message_remain v (s : spa_data) : spa_data :=
  mk_spadat (spa_sdp_id s) (username s) (timestamp s) (version s)
    (message_type s) (spa_message s) (spa_message_src_ip s)
    (pkt_source_ip s) (pkt_destination_ip s) v (nat_access s)
    (server_auth s) (client_timeout s) (spa_fw_access_timeout s)
    (use_src_ip s) (service_data_list s).
Definition set_nat_access v (s : spa_data) : spa_data :=
  mk_spadat (spa_sdp_id s) (username s) (timestamp s) (version s)
    (message_type s) (spa_message s) (spa_message_src_ip s)
    (pkt_source_ip s) (pkt_destination_ip s) (spa_message_remain s) v
    (server_auth s) (client_timeout s) (spa_fw_access_timeout s)
    (use_src_ip s) (service_data_list s).
Definition set_server_auth v (s : spa_data) : spa_data :=
  mk_spadat (spa_sdp_id s) (username s) (timestamp s) (version s)
    (message_type s) (spa_message s) (spa_message_src_ip s)
    (pkt_source_ip s) (pkt_destination_ip s) (spa_message_remain s)
    (nat_access s) v (client_timeout s) (spa_fw_access_timeout s)
    (use_src_ip s) (service_data_list s).
Definition set_client_timeout v (s : spa_data) : spa_data :=
  mk_spadat (spa_sdp_id s) (username s) (timestamp s) (version s)
    (message_type s) (spa_message s) (spa_message_src_ip s)
    (pkt_source_ip s) (pkt_destination_ip s) (spa_message_remain s)
    (nat_access s) (server_auth s) v (spa_fw_access_timeout s)
    (use_src_ip s) (service_data_list s).
Definition set_spa_fw_access_timeout v (s : spa_data) : spa_data :=
  mk_spadat (spa_sdp_id s) (username s) (timestamp s) (version s)
    (message_type s) (spa_message s) (spa_message_src_ip s)
    (pkt_source_ip s) (pkt_destination_ip s) (spa_message_remain s)
    (nat_access s) (server_auth s) (client_timeout s) v (use_src_ip s)
    (service_data_list s).
Definition set_use_src_ip v (s : spa_data) : spa_data :=
  mk_spadat (spa_sdp_id s) (username s) (timestamp s) (version s)
    (message_type s) (spa_message s) (spa_message_src_ip s)
    (pkt_source_ip s) (pkt_destination_ip s) (spa_message_remain s)
    (nat_access s) (server_auth s) (client_timeout s)
    (spa_fw_access_timeout s) v (service_data_list s).
Definition set_service_data_list v (s : spa_data) : spa_data :=
  mk_spadat (spa_sdp_id s) (username s) (timestamp s) (version s)
    (message_type s) (spa_message s) (spa_message_src_ip s)
    (pkt_source_ip s) (pkt_destination_ip s) (spa_message_remain s)
    (nat_access s) (server_auth s) (client_timeout s)
    (spa_fw_access_timeout s) (use_src_ip s) v.

(** [fko_srv_options_t], the part the two files use. *)
Record fko_srv_options := mk_opts {
  config : conf_key -> string;
  test : bool;
  foreground : Z;
  verbose : Z;
  acc_stanzas : list acc_stanza;
  acc_stanza_hash_tbl : gmap string acc_stanza;
  spa_pkt : spa_pkt_info;
  packet_ctr : Z
}.

Definition set_spa_pkt v (o : fko_srv_options) : fko_srv_options :=
  mk_opts (config o) (test o) (foreground o) (verbose o) (acc_stanzas o)
    (acc_stanza_hash_tbl o) v (packet_ctr o).
Definition set_acc_stanzas v (o : fko_srv_options) : fko_srv_options :=
  mk_opts (config o) (test o) (foreground o) (verbose o) v
    (acc_stanza_hash_tbl o) (spa_pkt o) (packet_ctr o).
Definition set_acc_stanza_hash_tbl v (o : fko_srv_options)
  : fko_srv_options :=
  mk_opts (config o) (test o) (foreground o) (verbose o) (acc_stanzas o) v
    (spa_pkt o) (packet_ctr o).
Definition set_packet_ctr v (o : fko_srv_options) : fko_srv_options :=
  mk_opts (config o) (test o) (foreground o) (verbose o) (acc_stanzas o)
    (acc_stanza_hash_tbl o) (spa_pkt o) v.

(** The calls that leave the pipeline, with what they are given and, where
    the pipeline looks at it, what they answer.  [fko_new_with_data] is
    called from three functions, and its record says from which.  A log
    record is identified by its level and format string. *)
Inductive call_site :=
| IN_get_raw_digest | IN_handle_rijndael_enc | IN_handle_gpg_enc.

Inductive event :=
| EvFkoNewWithData (site : call_site) (data : string)
    (dec_key : option string) (enc_mode : Z) (hmac : option string) (id : Z)
    (res : status)
| EvFkoDecryptSpaData (pw : option string) (res : status)
| EvFkoDestroy
| EvAddReplay (digest : string) (res : status)
| EvProcessSpaRequest (acc : acc_stanza) (spadat : spa_data)
| EvCmdCycleOpen (acc : acc_stanza) (spadat : spa_data) (stanza_num : Z)
| EvRunExtcmd (cmd : string) (timeout : Z)
| EvRunExtcmdAs (uid gid : Z) (cmd : string)
| EvHexDump (data : list ascii) (len : Z)
| EvLog (level : log_level) (fmt : string).

(** The world outside the packet: the replay cache and the calls made so
    far, newest first. *)
Record world := mk_world {
  replay_cache : gset string;
  events : list event
}.

(** The calls in the order they were made. *)
Definition trace (w : world) : list event := rev (events w).

(** ** Runs *)

Definition M (A : Type) : Type := world -> option A * world.

Definition ret {A} (a : A) : M A := fun w => (Some a, w).

Definition bind {A B} (m : M A) (k : A -> M B) : M B :=
  fun w => match m w with
           | (Some a, w') => k a w'
           | (None, w') => (None, w')
           end.

(** Undefined behaviour: the run stops here. *)
Definition undefined {A} : M A := fun w => (None, w).

Definition emit (e : event) : M unit :=
  fun w => (Some tt, mk_world (replay_cache w) (e :: events w)).

Definition log_msg (l : log_level) (fmt : string) : M unit :=
  emit (EvLog l fmt).

Notation "'let*' x ':=' m 'in' k" := (bind m (fun x => k))
  (at level 10, x pattern, m at level 100, k at level 200).
Notation "m '>>' k" := (bind m (fun _ => k))
  (at level 100, k at level 200, right associativity).

(** [opts->config[k]] starts with [yn], whatever the case:
    [strncasecmp(opts->config[k], yn, 1) == 0]. *)
Definition conf_is (opts : fko_srv_options) (k : conf_key) (yn : string)
  : bool :=
  strncasecmp (config opts k) yn 1 =? 0.

(** ** Collaborators

    Everything [incoming_spa.c] and [udp_server.c] call or include without
    defining: the constants of the headers, libfko over an opaque context
    type [ctx], the access-policy module, the service module, and the
    environment (clock, allocator, mutex, child processes). *)
Set Implicit Arguments.
Record Externs (ctx : Type) := mk_externs {
  (* constants of fko.h, fko_limits.h, fwknopd_common.h *)
  MIN_SPA_DATA_SIZE : Z;
  MAX_SPA_PACKET_LEN : Z;
  MIN_GNUPG_MSG_SIZE : Z;
  B64_RIJNDAEL_SALT : string;
  B64_RIJNDAEL_SALT_STR_LEN : nat;
  B64_GPG_PREFIX : string;
  B64_GPG_PREFIX_STR_LEN : nat;
  B64_SDP_ID_STR_LEN : nat;
  FKO_SDP_ID_SIZE : nat;
  MAX_SDP_ID_STR_LEN : nat;
  MAX_SPA_CMD_LEN : nat;
  MAX_DECRYPTED_SPA_LEN : nat;
  MIN_IPV4_STR_LEN : Z;
  MAX_IPV4_STR_LEN : Z;
  DEF_FW_ACCESS_TIMEOUT : Z;
  FKO_DEFAULT_ENC_MODE : Z;
  FKO_ENC_MODE_ASYMMETRIC : Z;
  FKO_DEFAULT_DIGEST : Z;
  RCHK_MAX_SPA_PACKET_AGE : Z;
  NO_TIMEOUT : Z;
  IPPROTO_UDP : Z;
  FIREWALL : fw_backend;
  (* libfko; a context pointer is an [option ctx], NULL being [None] *)
  fko_new_with_data :
    string -> option string -> Z -> Z -> option string -> Z -> Z -> Z ->
    status * option ctx;
  fko_decrypt_spa_data : option ctx -> option string -> Z -> status * option ctx;
  fko_destroy : option ctx -> status;
  fko_encryption_type : string -> fko_encryption;
  fko_set_raw_spa_digest_type : option ctx -> Z -> status * option ctx;
  fko_get_raw_spa_digest_type : option ctx -> status * Z;
  fko_set_raw_spa_digest : option ctx -> status * option ctx;
  fko_get_raw_spa_digest : option ctx -> status * string;
  fko_set_gpg_exe : option ctx -> string -> status * option ctx;
  fko_set_gpg_home_dir : option ctx -> string -> status * option ctx;
  fko_set_gpg_recipient : option ctx -> string -> option ctx;
  fko_set_gpg_signature_verify : option ctx -> Z -> option ctx;
  fko_set_gpg_ignore_verify_error : option ctx -> Z -> option ctx;
  fko_get_gpg_signature_id : option ctx -> status * string;
  fko_get_gpg_signature_fpr : option ctx -> status * string;
  fko_gpg_signature_fpr_match : option ctx -> string -> status * bool;
  fko_gpg_signature_id_match : option ctx -> string -> status * bool;
  IS_GPG_ERROR : status -> bool;
  dump_ctx_to_buffer : option ctx -> nat -> status * string;
  fko_get_disable_sdp_mode : option ctx -> status * Z;
  fko_get_sdp_id : option ctx -> status * Z;
  fko_get_username : option ctx -> status * string;
  fko_get_version : option ctx -> status * string;
  fko_get_timestamp : option ctx -> status * Z;
  fko_get_spa_message_type : option ctx -> status * fko_message_type;
  fko_get_spa_message : option ctx -> status * string;
  fko_get_spa_nat_access : option ctx -> status * option string;
  fko_get_spa_server_auth : option ctx -> status * option string;
  fko_get_spa_client_timeout : option ctx -> status * Z;
  fko_base64_decode : string -> Z * list ascii;
  (* server/utils.c *)
  is_base64 : list ascii -> Z -> bool;
  is_valid_ipv4_addr : string -> bool;
  strtol_wrapper : string -> Z -> Z -> Z * status;
  (* server/access.c, server/service.c *)
  compare_addr_list : list Z -> Z -> bool;
  acc_check_port_access : acc_stanza -> string -> bool;
  acc_check_service_access : acc_stanza -> string -> bool;
  get_service_data_list : string -> status * list Z;
  (* the host *)
  ntohl : Z -> Z;
  ntohs : Z -> Z;
  inet_ntop : Z -> string;
  host_uint32 : list ascii -> Z;
  time_now : Z;
  calloc_fails : bool;
  strdup_fails : bool;
  bfromcstr_fails : bool;
  pthread_mutex_lock_fails : bool;
  (* server/replay_cache.c: can the cache be read and written *)
  replay_cache_read_error : string -> bool;
  replay_cache_write_error : option string -> bool;
  (* server/cmd_cycle.c, server/extcmd.c *)
  cmd_cycle_open_result : acc_stanza -> spa_data -> Z -> bool * status;
  run_extcmd_result : string -> Z * Z;
  run_extcmd_as_result : Z -> Z -> string -> Z * Z
}.
Unset Implicit Arguments.

Section Pipeline.

Context {ctx : Type}.
Variable E : Externs ctx.

(** ** Helpers that live outside the two files *)

(** Modelled from the spec: [constant_runtime_cmp] of libfko, which
    [preprocess_spa_data] uses to ask whether the payload begins with a
    known prefix: 0 when the first [len] bytes agree. *)
Definition constant_runtime_cmp (a b : list ascii) (len : nat) : Z :=
  if decide (take len a = take len b) then 0 else -1.

(** Modelled from the spec: [is_replay] of the replay cache, the
    [contains(d)] of a persistent set of digests. *)
Definition is_replay (digest : string) : M status :=
  fun w =>
    if replay_cache_read_error E digest then (Some SPA_MSG_DIGEST_ERROR, w)
    else if decide (digest ∈ replay_cache w) then (Some SPA_MSG_REPLAY, w)
    else (Some SPA_MSG_SUCCESS, w).

(** Modelled from the spec: [add_replay] of the replay cache, the
    idempotent [insert(d)] of a persistent set of digests; it can fail
    (a [DigestError]), and does when it is handed no digest. *)
Definition add_replay (digest : option string) : M status :=
  fun w =>
    match digest with
    | Some d =>
        if replay_cache_write_error E digest
        then (Some SPA_MSG_DIGEST_ERROR,
              mk_world (replay_cache w)
                (EvAddReplay d SPA_MSG_DIGEST_ERROR :: events w))
        else (Some SPA_MSG_SUCCESS,
              mk_world ({[d]} ∪ replay_cache w)
                (EvAddReplay d SPA_MSG_SUCCESS :: events w))
    | None => (Some SPA_MSG_DIGEST_ERROR, w)
    end.

(** [snprintf(buf, size, "%"PRIu32, n)]. *)
Definition snprintf_u32 (size : nat) (n : Z) : string :=
  str_take (size - 1) (NilZero.string_of_uint (N.to_uint (Z.to_N n))).

(** ** [preprocess_spa_data] *)

(** The loop of the HTTP branch: walks at most [n] bytes of the buffer,
    cuts it at the first white space, maps '-' to '+' and '_' to '/', and
    answers the buffer and the final [i]. *)
Fixpoint http_unescape (buf : list ascii) (n : nat) : list ascii * Z :=
  match n, buf with
  | S n', c :: r =>
      if isspace c then (NUL :: r, 0)
      else
        let c' := if Ascii.eqb c "-" then "+"%char
                  else if Ascii.eqb c "_" then "/"%char else c in
        let '(r', i) := http_unescape r n' in
        (c' :: r', i + 1)
  | _, _ => (buf, 0)
  end.

Definition preprocess_spa_data (opts : fko_srv_options)
    (spa_pkt : spa_pkt_info) : status * spa_pkt_info :=
  let ndx := packet_data spa_pkt in
  let pkt_data_len := packet_data_len spa_pkt in
  let spa_pkt := set_packet_data_len 0 spa_pkt in
  if pkt_data_len <? MIN_SPA_DATA_SIZE E then (SPA_MSG_BAD_DATA, spa_pkt)
  else if pkt_data_len >? MAX_SPA_PACKET_LEN E then (SPA_MSG_BAD_DATA, spa_pkt)
  else if constant_runtime_cmp ndx (bytes_of (B64_RIJNDAEL_SALT E))
            (B64_RIJNDAEL_SALT_STR_LEN E) =? 0
  then (SPA_MSG_BAD_DATA, spa_pkt)
  else if (pkt_data_len >? MIN_GNUPG_MSG_SIZE E)
          && (constant_runtime_cmp ndx (bytes_of (B64_GPG_PREFIX E))
                (B64_GPG_PREFIX_STR_LEN E) =? 0)
  then (SPA_MSG_BAD_DATA, spa_pkt)
  else
    (* the HTTP branch answers either an early return or the new slot
       and length *)
    let http :=
      if conf_is opts CONF_ENABLE_SPA_OVER_HTTP "Y"
         && (strncasecmp (cstr ndx) "GET /" 5 =? 0)
         && strstr_found (cstr ndx) "User-Agent: Fwknop"
      then
        let buf := strlcpy_buf ndx (str_drop 5 (cstr ndx))
                     (Z.to_nat pkt_data_len) in
        let pkt_data_len := pkt_data_len - 5 in
        let '(buf, i) := http_unescape buf (Z.to_nat pkt_data_len) in
        let spa_pkt := set_packet_data buf spa_pkt in
        if i <? MIN_SPA_DATA_SIZE E then inl (SPA_MSG_BAD_DATA, spa_pkt)
        else inr (set_packet_data_len i spa_pkt, i)
      else inr (spa_pkt, pkt_data_len) in
    match http with
    | inl early => early
    | inr (spa_pkt, pkt_data_len) =>
        if negb (is_base64 E (packet_data spa_pkt) pkt_data_len)
        then (SPA_MSG_NOT_SPA_DATA, spa_pkt)
        else if conf_is opts CONF_DISABLE_SDP_MODE "N" then
          if calloc_fails E then (FKO_ERROR_MEMORY_ALLOCATION, spa_pkt)
          else
            let encoded_sdp_id :=
              strndup (cstr (packet_data spa_pkt)) (B64_SDP_ID_STR_LEN E) in
            let '(n, decoded) := fko_base64_decode E encoded_sdp_id in
            if 1 >? n then (SPA_MSG_NOT_SPA_DATA, spa_pkt)
            else
              let decoded_sdp_id :=
                overwrite (replicate (FKO_SDP_ID_SIZE E * 2) NUL) decoded in
              let id := host_uint32 E (take (FKO_SDP_ID_SIZE E) decoded_sdp_id) in
              if id =? 0 then (SPA_MSG_NOT_SPA_DATA, spa_pkt)
              else
                (FKO_SUCCESS,
                 set_sdp_id_str (snprintf_u32 (MAX_SDP_ID_STR_LEN E) id)
                   (set_sdp_id id spa_pkt))
        else (FKO_SUCCESS, spa_pkt)
    end.

(** ** Calls into libfko that the trace records *)

(** [fko_new_with_data(ctx, ...)]: [*ctx] is only assigned on success. *)
Definition call_fko_new_with_data (site : call_site) (old : option ctx)
    (data : string)
    (dec_key : option string) (dec_key_len enc_mode : Z)
    (hmac : option string) (hmac_len hmac_ty id : Z)
  : M (status * option ctx) :=
  let '(res, new) :=
    fko_new_with_data E data dec_key dec_key_len enc_mode hmac hmac_len
      hmac_ty id in
  emit (EvFkoNewWithData site data dec_key enc_mode hmac id res) >>
  ret (res, if is_success res then new else old).

Definition call_fko_decrypt_spa_data (c : option ctx) (pw : option string)
    (pw_len : Z) : M (status * option ctx) :=
  let r := fko_decrypt_spa_data E c pw pw_len in
  emit (EvFkoDecryptSpaData pw (fst r)) >> ret r.

Definition call_fko_destroy (c : option ctx) : M status :=
  emit EvFkoDestroy >> ret (fko_destroy E c).

(** ** [get_raw_digest]: for replay attack detection *)
(** Answers the return code and the new value of [*digest], which is only
    assigned at the end. *)
Definition get_raw_digest (digest : option string) (pkt_data : string)
  : M (status * option string) :=
  let* (res, c) :=
    call_fko_new_with_data IN_get_raw_digest None pkt_data None 0
      (FKO_DEFAULT_ENC_MODE E)
      None 0 0 0 in
  if negb (is_success res) then
    log_msg LOG_WARNING "Error initializing FKO context from SPA data: %s" >>
    call_fko_destroy c >> ret (SPA_MSG_FKO_CTX_ERROR, digest)
  else
  let '(res, c) := fko_set_raw_spa_digest_type E c (FKO_DEFAULT_DIGEST E) in
  if negb (is_success res) then
    log_msg LOG_WARNING "Error setting digest type for SPA data: %s" >>
    call_fko_destroy c >> ret (SPA_MSG_DIGEST_ERROR, digest)
  else
  let '(res, raw_digest_type) := fko_get_raw_spa_digest_type E c in
  if negb (is_success res) then
    log_msg LOG_WARNING "Error getting digest type for SPA data: %s" >>
    call_fko_destroy c >> ret (SPA_MSG_DIGEST_ERROR, digest)
  else
  if negb (raw_digest_type =? FKO_DEFAULT_DIGEST E) then
    log_msg LOG_WARNING "Error setting digest type for SPA data: %s" >>
    call_fko_destroy c >> ret (SPA_MSG_DIGEST_ERROR, digest)
  else
  let '(res, c) := fko_set_raw_spa_digest E c in
  if negb (is_success res) then
    log_msg LOG_WARNING "Error setting digest for SPA data: %s" >>
    call_fko_destroy c >> ret (SPA_MSG_DIGEST_ERROR, digest)
  else
  let '(res, tmp_digest) := fko_get_raw_spa_digest E c in
  if negb (is_success res) then
    log_msg LOG_WARNING "Error getting digest from SPA data: %s" >>
    call_fko_destroy c >> ret (SPA_MSG_DIGEST_ERROR, digest)
  else
  let digest := if strdup_fails E then None else Some tmp_digest in
  let res := if digest is None then SPA_MSG_ERROR else res in
  call_fko_destroy c >> ret (res, digest).

(** ** [get_spa_data_fields]: each getter in turn, stopping at the first
    that fails *)
Definition get_spa_data_fields (c : option ctx) (spdat : spa_data)
  : status * spa_data :=
  let '(res, _) := fko_get_disable_sdp_mode E c in
  if negb (is_success res) then (res, spdat) else
  let '(res, v) := fko_get_sdp_id E c in
  if negb (is_success res) then (res, spdat) else
  let spdat := set_spa_sdp_id v spdat in
  let '(res, v) := fko_get_username E c in
  if negb (is_success res) then (res, spdat) else
  let spdat := set_username v spdat in
  let '(res, v) := fko_get_version E c in
  if negb (is_success res) then (res, spdat) else
  let spdat := set_version v spdat in
  let '(res, v) := fko_get_timestamp E c in
  if negb (is_success res) then (res, spdat) else
  let spdat := set_timestamp v spdat in
  let '(res, v) := fko_get_spa_message_type E c in
  if negb (is_success res) then (res, spdat) else
  let spdat := set_message_type v spdat in
  let '(res, v) := fko_get_spa_message E c in
  if negb (is_success res) then (res, spdat) else
  let spdat := set_spa_message v spdat in
  let '(res, v) := fko_get_spa_nat_access E c in
  if negb (is_success res) then (res, spdat) else
  let spdat := set_nat_access v spdat in
  let '(res, v) := fko_get_spa_server_auth E c in
  if negb (is_success res) then (res, spdat) else
  let spdat := set_server_auth v spdat in
  let '(res, v) := fko_get_spa_client_timeout E c in
  if negb (is_success res) then (res, spdat) else
  (* written through an [(int * )] cast into the unsigned field *)
  (res, set_client_timeout (v mod 2 ^ 32) spdat).

(** A [long] stored in an [int]. *)
Definition int_of_long (z : Z) : Z := (z + 2 ^ 31) mod 2 ^ 32 - 2 ^ 31.

Definition check_pkt_age (opts : fko_srv_options) (spadat : spa_data)
    (stanza_num conf_pkt_age : Z) : M bool :=
  if conf_is opts CONF_ENABLE_SPA_PACKET_AGING "Y" then
    let now_ts := time_now E in
    let ts_diff := int_of_long (Z.abs (now_ts - timestamp spadat)) in
    if ts_diff >? conf_pkt_age then
      log_msg LOG_WARNING
        "[%s] (stanza #%d) SPA data time difference is too great (%i seconds)." >>
      ret false
    else ret true
  else ret true.

Definition check_stanza_expiration (acc : acc_stanza) (spadat : spa_data)
    (stanza_num : Z) : M (bool * acc_stanza) :=
  if access_expire_time acc >? 0 then
    if expired acc then ret (false, acc)
    else if time_now E >? access_expire_time acc then
      log_msg LOG_INFO "[%s] (stanza #%d) Access stanza has expired" >>
      ret (false, set_expired true acc)
    else ret (true, acc)
  else ret (true, acc).

(** ** [src_check]: some stanza lists the source address of the packet *)
Definition src_check (opts : fko_srv_options) (spa_pkt : spa_pkt_info)
    (spadat : spa_data) : M bool :=
  if existsb
       (fun acc => compare_addr_list E (source_list acc)
                     (ntohl E (packet_src_ip spa_pkt)))
       (acc_stanzas opts)
  then ret true
  else
    log_msg LOG_WARNING "No access data found for source IP: %s" >>
    ret false.

(** ** [sdp_id_check]: look for the SDP Client ID in the hash table *)
Definition sdp_id_check (opts : fko_srv_options) (spa_pkt : spa_pkt_info)
    (acc : option acc_stanza) : M (bool * option acc_stanza) :=
  if sdp_id spa_pkt =? 0 then
    log_msg LOG_WARNING
      "No access data found for SDP Client ID: %PRIu32...obviously" >>
    ret (false, acc)
  else if bfromcstr_fails E then
    log_msg LOG_ERR "Failed to convert sdp_id_str to bstring. Value: %s" >>
    ret (false, acc)
  else if pthread_mutex_lock_fails E then
    log_msg LOG_ERR "Mutex lock error." >> ret (false, acc)
  else
    let acc := acc_stanza_hash_tbl opts !! sdp_id_str spa_pkt in
    if acc is Some _ then ret (true, acc)
    else
      log_msg LOG_WARNING "No access data found for SDP Client ID: %PRIu32" >>
      ret (false, acc).

Definition replay_check (opts : fko_srv_options) (spa_pkt : spa_pkt_info)
    (raw_digest : option string) : M (bool * option string) :=
  if conf_is opts CONF_ENABLE_DIGEST_PERSISTENCE "Y" then
    let* (res, raw_digest) :=
      get_raw_digest raw_digest (cstr (packet_data spa_pkt)) in
    if negb (is_success res) then ret (false, raw_digest)
    else
      match raw_digest with
      | None => ret (false, raw_digest)
      | Some d =>
          let* rp := is_replay d in
          if negb (is_success rp) then ret (false, raw_digest)
          else ret (true, raw_digest)
      end
  else ret (true, raw_digest).

Definition precheck_pkt (opts : fko_srv_options) (spa_pkt : spa_pkt_info)
    (spadat : spa_data) : M (bool * spa_pkt_info) :=
  let packet_data_len0 := packet_data_len spa_pkt in
  let '(res, spa_pkt) := preprocess_spa_data opts spa_pkt in
  if negb (is_success res) then
    log_msg LOG_DEBUG
      "[%s] preprocess_spa_data() returned error %i: '%s' for incoming packet." >>
    ret (false, spa_pkt)
  else
    (if (foreground opts =? 1) && (verbose opts >? 2)
     then emit (EvHexDump (packet_data spa_pkt) packet_data_len0)
     else ret tt) >>
    ret (true, spa_pkt).

Definition src_dst_check (acc : acc_stanza) (spa_pkt : spa_pkt_info)
    (spadat : spa_data) (stanza_num : Z) : M bool :=
  if negb (compare_addr_list E (source_list acc)
             (ntohl E (packet_src_ip spa_pkt)))
     || match destination_list acc with
        | Some dl =>
            negb (compare_addr_list E dl (ntohl E (packet_dst_ip spa_pkt)))
        | None => false
        end
  then
    log_msg LOG_DEBUG
      "(stanza #%d) SPA packet (%s -> %s) filtered by SOURCE and/or DESTINATION criteria" >>
    ret false
  else ret true.

(** ** [process_cmd_msg]: process command messages

    Answers the return value and the new [*res]. *)
Definition process_cmd_msg (opts : fko_srv_options) (acc : acc_stanza)
    (spadat : spa_data) (stanza_num : Z) (res : status) : M (bool * status) :=
  let siz := MAX_SPA_CMD_LEN E in
  if negb (enable_cmd_exec acc) then
    log_msg LOG_WARNING
      "[%s] (stanza #%d) SPA Command messages are not allowed in the current configuration." >>
    ret (false, res)
  else if test opts then
    log_msg LOG_WARNING
      "[%s] (stanza #%d) --test mode enabled, skipping command execution." >>
    ret (false, res)
  else
    log_msg LOG_INFO
      "[%s] (stanza #%d) Processing SPA Command message: command='%s'." >>
    let* cmd_buf :=
      if enable_cmd_sudo_exec acc then
        let cmd_buf := strlcpy (config opts CONF_SUDO_EXE) siz in
        let cmd_buf :=
          match cmd_sudo_exec_user acc with
          | Some user =>
              if negb (strncasecmp user "root" 4 =? 0)
              then strlcat (strlcat cmd_buf " -u " siz) user siz
              else cmd_buf
          | None => cmd_buf
          end in
        let* cmd_buf :=
          match cmd_exec_group acc with
          | Some _ =>
              (* the guard is on [cmd_exec_group], the string compared and
                 appended is [cmd_sudo_exec_group] *)
              match cmd_sudo_exec_group acc with
              | Some group =>
                  if negb (strncasecmp group "root" 4 =? 0)
                  then ret (strlcat (strlcat cmd_buf " -g " siz) group siz)
                  else ret cmd_buf
              | None => undefined
              end
          | None => ret cmd_buf
          end in
        ret (strlcat (strlcat cmd_buf " " siz) (spa_message_remain spadat) siz)
      else ret (strlcpy (spa_message_remain spadat) siz) in
    let* (rv, pid_status) :=
      match cmd_exec_user acc with
      | Some user =>
          if negb (strncasecmp user "root" 4 =? 0) then
            log_msg LOG_INFO
              "[%s] (stanza #%d) Running command '%s' setuid/setgid user/group to %s/%s (UID=%i,GID=%i)" >>
            emit (EvRunExtcmdAs (cmd_exec_uid acc) (cmd_exec_gid acc) cmd_buf) >>
            ret (run_extcmd_as_result E (cmd_exec_uid acc) (cmd_exec_gid acc)
                   cmd_buf)
          else
            log_msg LOG_INFO "[%s] (stanza #%d) Running command '%s'" >>
            emit (EvRunExtcmd cmd_buf 5) >>
            ret (run_extcmd_result E cmd_buf)
      | None =>
          log_msg LOG_INFO "[%s] (stanza #%d) Running command '%s'" >>
          emit (EvRunExtcmd cmd_buf 5) >>
          ret (run_extcmd_result E cmd_buf)
      end in
    let res := EXTCMD_STATUS rv in
    log_msg LOG_INFO
      "[%s] (stanza #%d) CMD_EXEC: command returned %i, pid_status: %d" >>
    let res :=
      if WIFEXITED pid_status then
        if negb (WEXITSTATUS pid_status =? 0) then SPA_MSG_COMMAND_ERROR
        else res
      else SPA_MSG_COMMAND_ERROR in
    ret (true, res).

Definition check_mode_ctx (spadat : spa_data) (c : option ctx)
    (attempted_decrypt : bool) (enc_type : fko_encryption) (stanza_num : Z)
    (res : status) : M bool :=
  if negb attempted_decrypt then
    log_msg LOG_ERR
      "[%s] (stanza #%d) No stanza encryption mode match for encryption type: %i." >>
    ret false
  else if negb (is_success res) then
    log_msg LOG_WARNING "[%s] (stanza #%d) Error creating fko context: %s" >>
    (if IS_GPG_ERROR E res
     then log_msg LOG_WARNING "[%s] (stanza #%d) - GPG ERROR: %s"
     else ret tt) >>
    ret false
  else ret true.

(** ** [handle_rijndael_enc]

    Answers the new [*ctx], [*attempted_decrypt], [*cmd_exec_success] and
    [*res]. *)
Definition handle_rijndael_enc (acc : acc_stanza) (spa_pkt : spa_pkt_info)
    (spadat : spa_data) (c : option ctx)
    (attempted_decrypt cmd_exec_success : bool) (enc_type : fko_encryption)
    (stanza_num : Z) (res : status)
  : M (option ctx * bool * bool * status) :=
  if bool_decide (enc_type = FKO_ENCRYPTION_RIJNDAEL) || enable_cmd_exec acc
  then
    let* (res, c) :=
      call_fko_new_with_data IN_handle_rijndael_enc c
        (cstr (packet_data spa_pkt)) (key acc) (key_len acc) (encryption_mode acc) (hmac_key acc)
        (hmac_key_len acc) (hmac_type acc) (sdp_id spa_pkt) in
    let attempted_decrypt := true in
    let cmd_exec_success :=
      if is_success res then true else cmd_exec_success in
    ret (c, attempted_decrypt, cmd_exec_success, res)
  else ret (c, attempted_decrypt, cmd_exec_success, res).

(** ** [handle_gpg_enc]

    Answers the return value and the new [*ctx], [*attempted_decrypt] and
    [*res]. *)
Definition handle_gpg_enc (acc : acc_stanza) (spa_pkt : spa_pkt_info)
    (spadat : spa_data) (c : option ctx) (attempted_decrypt : bool)
    (cmd_exec_success : bool) (enc_type : fko_encryption) (stanza_num : Z)
    (res : status) : M (bool * option ctx * bool * status) :=
  if use_gpg acc && bool_decide (enc_type = FKO_ENCRYPTION_GPG)
     && negb cmd_exec_success
  then
    if (if gpg_decrypt_pw acc is Some _ then true else false)
       || gpg_allow_no_pw acc
    then
      let* (res, c) :=
        call_fko_new_with_data IN_handle_gpg_enc c
          (cstr (packet_data spa_pkt)) None 0 (FKO_ENC_MODE_ASYMMETRIC E) (hmac_key acc) (hmac_key_len acc)
          (hmac_type acc) (sdp_id spa_pkt) in
      if negb (is_success res) then
        log_msg LOG_WARNING
          "[%s] (stanza #%d) Error creating fko context (before decryption): %s" >>
        ret (false, c, attempted_decrypt, res)
      else
      (* set whatever GPG parameters we have *)
      let '(res, c, ok) :=
        match gpg_exe acc with
        | Some exe =>
            let '(res, c) := fko_set_gpg_exe E c exe in
            (res, c, is_success res)
        | None => (res, c, true)
        end in
      if negb ok then
        log_msg LOG_WARNING "[%s] (stanza #%d) Error setting GPG path %s: %s" >>
        ret (false, c, attempted_decrypt, res)
      else
      let '(res, c, ok) :=
        match gpg_home_dir acc with
        | Some dir =>
            let '(res, c) := fko_set_gpg_home_dir E c dir in
            (res, c, is_success res)
        | None => (res, c, true)
        end in
      if negb ok then
        log_msg LOG_WARNING
          "[%s] (stanza #%d) Error setting GPG keyring path to %s: %s" >>
        ret (false, c, attempted_decrypt, res)
      else
      let c :=
        match gpg_decrypt_id acc with
        | Some id => fko_set_gpg_recipient E c id
        | None => c
        end in
      let c :=
        if gpg_require_sig acc then
          fko_set_gpg_ignore_verify_error E
            (fko_set_gpg_signature_verify E c 1) (gpg_ignore_sig_error acc)
        else
          fko_set_gpg_ignore_verify_error E
            (fko_set_gpg_signature_verify E c 0) 1 in
      (* now decrypt the data *)
      let* (res, c) := call_fko_decrypt_spa_data c (gpg_decrypt_pw acc) 0 in
      ret (true, c, true, res)
    else ret (true, c, attempted_decrypt, res)
  else ret (true, c, attempted_decrypt, res).

(** ** [handle_gpg_sigs] *)

(** One of its two [for] loops over an allow-list: [None] when a comparison
    fails, else whether the loop ended on a match; with the last [*res]. *)
Fixpoint gpg_match_loop (cmp : string -> status * bool) (l : list string)
    (res : status) : status * option bool :=
  match l with
  | [] => (res, Some false)
  | str :: rest =>
      let '(res, is_gpg_match) := cmp str in
      if negb (is_success res) then (res, None)
      else if is_gpg_match then (res, Some true)
      else gpg_match_loop cmp rest res
  end.

Definition handle_gpg_sigs (acc : acc_stanza) (spadat : spa_data)
    (c : option ctx) (enc_type : fko_encryption) (stanza_num : Z)
    (res : status) : M (bool * status) :=
  if bool_decide (enc_type = FKO_ENCRYPTION_GPG) && gpg_require_sig acc then
    let '(res, gpg_id) := fko_get_gpg_signature_id E c in
    if negb (is_success res) then
      log_msg LOG_WARNING
        "[%s] (stanza #%d) Error pulling the GPG signature ID from the context: %s" >>
      ret (false, res)
    else
    let '(res, gpg_fpr) := fko_get_gpg_signature_fpr E c in
    if negb (is_success res) then
      log_msg LOG_WARNING
        "[%s] (stanza #%d) Error pulling the GPG fingerprint from the context: %s" >>
      ret (false, res)
    else
    log_msg LOG_INFO
      "[%s] (stanza #%d) Incoming SPA data signed by '%s' (fingerprint '%s')." >>
    (* prefer GnuPG fingerprint match if so configured *)
    let fpr :=
      match gpg_remote_fpr acc with
      | Some _ =>
          gpg_match_loop (fko_gpg_signature_fpr_match E c)
            (gpg_remote_fpr_list acc) res
      | None => (res, Some true)
      end in
    match fpr with
    | (res, None) =>
        log_msg LOG_WARNING
          "[%s] (stanza #%d) Error in GPG signature comparision: %s" >>
        ret (false, res)
    | (res, Some false) =>
        log_msg LOG_WARNING
          "[%s] (stanza #%d) Incoming SPA packet signed by: %s, but that fingerprint is not in the GPG_FINGERPRINT_ID list." >>
        ret (false, res)
    | (res, Some true) =>
        let id :=
          match gpg_remote_id acc with
          | Some _ =>
              gpg_match_loop (fko_gpg_signature_id_match E c)
                (gpg_remote_id_list acc) res
          | None => (res, Some true)
          end in
        match id with
        | (res, None) =>
            log_msg LOG_WARNING
              "[%s] (stanza #%d) Error in GPG signature comparision: %s" >>
            ret (false, res)
        | (res, Some false) =>
            log_msg LOG_WARNING
              "[%s] (stanza #%d) Incoming SPA packet signed by ID: %s, but that ID is not in the GPG_REMOTE_ID list." >>
            ret (false, res)
        | (res, Some true) => ret (true, res)
        end
    end
  else ret (true, res).

Definition check_src_access (acc : acc_stanza) (spadat : spa_data)
    (stanza_num : Z) : M (bool * spa_data) :=
  if strcmp (spa_message_src_ip spadat) "0.0.0.0" =? 0 then
    if require_source_address acc then
      log_msg LOG_WARNING
        "[%s] (stanza #%d) Got 0.0.0.0 when valid source IP was required." >>
      ret (false, spadat)
    else ret (true, set_use_src_ip (pkt_source_ip spadat) spadat)
  else ret (true, set_use_src_ip (spa_message_src_ip spadat) spadat).

Definition check_username (acc : acc_stanza) (spadat : spa_data)
    (stanza_num : Z) : M bool :=
  match require_username acc with
  | Some required =>
      if negb (strcmp (username spadat) required =? 0) then
        log_msg LOG_WARNING
          "[%s] (stanza #%d) Username in SPA data (%s) does not match required username: %s" >>
        ret false
      else ret true
  | None => ret true
  end.

Definition check_nat_access_types (opts : fko_srv_options)
    (acc : acc_stanza) (spadat : spa_data) (stanza_num : Z) : M bool :=
  let mt := message_type spadat in
  let '(unsupported, not_enabled) :=
    if bool_decide (mt = FKO_NAT_ACCESS_MSG)
       || bool_decide (mt = FKO_CLIENT_TIMEOUT_NAT_ACCESS_MSG)
    then
      match FIREWALL E with
      | FIREWALL_FIREWALLD =>
          (false, negb (conf_is opts CONF_ENABLE_FIREWD_FORWARDING "Y"))
      | FIREWALL_IPTABLES =>
          (false, negb (conf_is opts CONF_ENABLE_IPT_FORWARDING "Y"))
      | FIREWALL_NONE => (true, false)
      end
    else if bool_decide (mt = FKO_LOCAL_NAT_ACCESS_MSG)
            || bool_decide (mt = FKO_CLIENT_TIMEOUT_LOCAL_NAT_ACCESS_MSG)
    then
      match FIREWALL E with
      | FIREWALL_FIREWALLD =>
          (false, negb (conf_is opts CONF_ENABLE_FIREWD_LOCAL_NAT "Y"))
      | FIREWALL_IPTABLES =>
          (false, negb (conf_is opts CONF_ENABLE_IPT_LOCAL_NAT "Y"))
      | FIREWALL_NONE => (true, false)
      end
    else (false, false) in
  if not_enabled then
    log_msg LOG_WARNING
      "(stanza #%d) SPA packet from %s requested NAT access, but is not enabled" >>
    ret false
  else if unsupported then
    log_msg LOG_WARNING
      "(stanza #%d) SPA packet from %s requested unsupported NAT access" >>
    ret false
  else ret true.

(** ** [add_replay_cache]

    Answers the return value and the new [*added_replay_digest] and
    [*res]. *)
Definition add_replay_cache (opts : fko_srv_options) (acc : acc_stanza)
    (spadat : spa_data) (raw_digest : option string)
    (added_replay_digest : bool) (stanza_num : Z) (res : status)
  : M (bool * bool * status) :=
  if negb (test opts) && negb added_replay_digest
     && conf_is opts CONF_ENABLE_DIGEST_PERSISTENCE "Y"
  then
    let* res := add_replay raw_digest in
    if negb (is_success res) then
      log_msg LOG_WARNING
        "[%s] (stanza #%d) Could not add digest to replay cache" >>
      ret (false, added_replay_digest, res)
    else ret (true, true, res)
  else ret (true, added_replay_digest, res).

Definition set_timeout (acc : acc_stanza) (spadat : spa_data) : spa_data :=
  if client_timeout spadat >? 0 then
    set_spa_fw_access_timeout (client_timeout spadat) spadat
  else if fw_access_timeout acc >? 0 then
    set_spa_fw_access_timeout (fw_access_timeout acc) spadat
  else set_spa_fw_access_timeout (DEF_FW_ACCESS_TIMEOUT E) spadat.

Definition check_service_access (acc : acc_stanza) (spadat : spa_data)
  : M bool :=
  if negb (acc_check_service_access E acc (spa_message_remain spadat)) then
    log_msg LOG_WARNING "[%s] One or more requested services was denied." >>
    ret false
  else ret true.

Definition gather_service_information (opts : fko_srv_options)
    (spadat : spa_data) : M (bool * spa_data) :=
  let '(rv, service_data_list) :=
    get_service_data_list E (spa_message_remain spadat) in
  if negb (is_success rv) then
    log_msg LOG_ERR "Failed to gather necessary data for requested services." >>
    ret (false, spadat)
  else ret (true, set_service_data_list (Some service_data_list) spadat).

Definition check_port_proto (acc : acc_stanza) (spadat : spa_data)
    (stanza_num : Z) : M bool :=
  if negb (acc_check_port_access E acc (spa_message_remain spadat)) then
    log_msg LOG_WARNING
      "[%s] (stanza #%d) One or more requested protocol/ports was denied per access.conf." >>
    ret false
  else ret true.

(** ** [process_spa_data]: handle grant request

    The function is cut in three where the source has its two long
    comments: the part up to the replay cache (defined last, under the
    name of the function), the checks on the decrypted message
    ([process_spa_data_validate]) and the dispatch
    ([process_spa_data_dispatch]).  Each answers the verdict with the new
    [*ctx], [*acc] and [*spadat]. *)

Definition psd_result : Type := verdict * option ctx * acc_stanza * spa_data.

Definition call_cmd_cycle_open (opts : fko_srv_options) (acc : acc_stanza)
    (spadat : spa_data) (stanza_num : Z) : M (bool * status) :=
  emit (EvCmdCycleOpen acc spadat stanza_num) >>
  ret (cmd_cycle_open_result E acc spadat stanza_num).

Definition process_spa_request (opts : fko_srv_options) (acc : acc_stanza)
    (spadat : spa_data) : M unit :=
  emit (EvProcessSpaRequest acc spadat).

(** From "Command messages." to the end of the function. *)
Definition process_spa_data_dispatch (opts : fko_srv_options)
    (c : option ctx) (acc : acc_stanza) (spadat : spa_data)
    (stanza_num : Z) (msg_type : fko_message_type) (res : status)
  : M psd_result :=
  if cmd_cycle_open acc is Some _ then
    let* (ok, res) := call_cmd_cycle_open opts acc spadat stanza_num in
    if ok then ret (STOP_SEARCHING, c, acc, spadat)
    else ret (KEEP_SEARCHING, c, acc, spadat)
  else if bool_decide (message_type spadat = FKO_COMMAND_MSG) then
    let* (ok, res) := process_cmd_msg opts acc spadat stanza_num res in
    if ok then ret (STOP_SEARCHING, c, acc, spadat)
    else ret (KEEP_SEARCHING, c, acc, spadat)
  else
    (* some kind of access message *)
    let* (early, spadat) :=
      if bool_decide (msg_type = FKO_SERVICE_ACCESS_MSG)
         || bool_decide (msg_type = FKO_CLIENT_TIMEOUT_SERVICE_ACCESS_MSG)
      then
        log_msg LOG_DEBUG
          "[%s] --SPA message is a service access request, checking if SDP ID has necessary permissions" >>
        let* ok := check_service_access acc spadat in
        if negb ok then ret (Some STOP_SEARCHING, spadat)
        else
          let* (ok, spadat) := gather_service_information opts spadat in
          if negb ok then ret (Some STOP_SEARCHING, spadat)
          else ret (None, spadat)
      else
        let* ok := check_port_proto acc spadat stanza_num in
        if negb ok then ret (Some KEEP_SEARCHING, spadat)
        else ret (None, spadat) in
    match early with
    | Some v => ret (v, c, acc, spadat)
    | None =>
        if test opts then
          log_msg LOG_WARNING
            "[%s] (stanza #%d) --test mode enabled, skipping firewall manipulation." >>
          ret (KEEP_SEARCHING, c, acc, spadat)
        else if cmd_cycle_open acc is Some _ then
          let* (ok, res) := call_cmd_cycle_open opts acc spadat stanza_num in
          if ok then ret (STOP_SEARCHING, c, acc, spadat)
          else ret (KEEP_SEARCHING, c, acc, spadat)
        else
          process_spa_request opts acc spadat >>
          ret (STOP_SEARCHING, c, acc, spadat)
    end.

(** From "At this point the SPA data is authenticated" to the NAT check. *)
Definition process_spa_data_validate (opts : fko_srv_options)
    (c : option ctx) (acc : acc_stanza) (spa_pkt : spa_pkt_info)
    (spadat : spa_data) (stanza_num : Z) (enc_type : fko_encryption)
    (conf_pkt_age : Z) (res : status) : M psd_result :=
  log_msg LOG_DEBUG "[%s] (stanza #%d) SPA Decode (res=%i):" >>
  let '(res, dump_buf) := dump_ctx_to_buffer E c 4096 in
  (if is_success res then log_msg LOG_DEBUG "%s"
   else log_msg LOG_WARNING "Unable to dump FKO context: %s") >>
  (* first, check if the SPA message type is currently permitted *)
  let '(res, msg_type) := fko_get_spa_message_type E c in
  if negb (is_success res) then ret (STOP_SEARCHING, c, acc, spadat) else
  if negb (bool_decide (msg_type = FKO_SERVICE_ACCESS_MSG))
     && negb (bool_decide (msg_type = FKO_CLIENT_TIMEOUT_SERVICE_ACCESS_MSG))
     && negb (bool_decide (msg_type = FKO_COMMAND_MSG))
     && conf_is opts CONF_ALLOW_LEGACY_ACCESS_REQUESTS "N"
  then
    log_msg LOG_ERR
      "[%s] SPA packet made legacy access request, server configured to deny." >>
    ret (STOP_SEARCHING, c, acc, spadat)
  else
  let* (ok, res) := handle_gpg_sigs acc spadat c enc_type stanza_num res in
  if negb ok then ret (KEEP_SEARCHING, c, acc, spadat) else
  (* populate our spa data struct for future reference *)
  let '(res, spadat) := get_spa_data_fields c spadat in
  if negb (is_success res) then
    log_msg LOG_ERR
      "[%s] (stanza #%d) Unexpected error pulling SPA data from the context: %s" >>
    ret (KEEP_SEARCHING, c, acc, spadat)
  else
  let spadat := set_timeout acc spadat in
  let* ok := check_pkt_age opts spadat stanza_num conf_pkt_age in
  if negb ok then ret (KEEP_SEARCHING, c, acc, spadat) else
  match strchr (spa_message spadat) "," with
  | None =>
      log_msg LOG_WARNING
        "[%s] (stanza #%d) Error parsing SPA message string: %s" >>
      ret (KEEP_SEARCHING, c, acc, spadat)
  | Some spa_ip_demark =>
      if (Z.of_nat spa_ip_demark <? MIN_IPV4_STR_LEN E - 1)
         || (Z.of_nat spa_ip_demark >? MAX_IPV4_STR_LEN E)
      then
        log_msg LOG_WARNING
          "[%s] (stanza #%d) Invalid source IP in SPA message, ignoring SPA packet" >>
        ret (STOP_SEARCHING, c, acc, spadat)
      else
      let spadat :=
        set_spa_message_src_ip
          (strlcpy (spa_message spadat) (spa_ip_demark + 1)) spadat in
      if negb (is_valid_ipv4_addr E (spa_message_src_ip spadat)) then
        log_msg LOG_WARNING
          "[%s] (stanza #%d) Invalid source IP in SPA message, ignoring SPA packet" >>
        ret (STOP_SEARCHING, c, acc, spadat)
      else
      let spadat :=
        set_spa_message_remain
          (strlcpy (str_drop (spa_ip_demark + 1) (spa_message spadat))
             (MAX_DECRYPTED_SPA_LEN E)) spadat in
      let* (ok, spadat) := check_src_access acc spadat stanza_num in
      if negb ok then ret (KEEP_SEARCHING, c, acc, spadat) else
      let* ok :=
        if conf_is opts CONF_DISABLE_SDP_MODE "Y"
        then check_username acc spadat stanza_num else ret true in
      if negb ok then ret (KEEP_SEARCHING, c, acc, spadat) else
      let* ok := check_nat_access_types opts acc spadat stanza_num in
      if negb ok then ret (KEEP_SEARCHING, c, acc, spadat) else
      process_spa_data_dispatch opts c acc spadat stanza_num msg_type res
  end.

Definition process_spa_data (opts : fko_srv_options) (c : option ctx)
    (acc : acc_stanza) (spa_pkt : spa_pkt_info) (spadat : spa_data)
    (stanza_num : Z) (raw_digest : option string) (conf_pkt_age : Z)
  : M psd_result :=
  let res := FKO_SUCCESS in
  let added_replay_digest := false in
  let cmd_exec_success := false in
  let attempted_decrypt := false in
  let* ok := src_dst_check acc spa_pkt spadat stanza_num in
  if negb ok then ret (KEEP_SEARCHING, c, acc, spadat) else
  log_msg LOG_INFO
    "(stanza #%d) SPA Packet from IP: %s received with access source match" >>
  log_msg LOG_DEBUG "SPA Packet: '%s'" >>
  (* make sure this access stanza has not expired *)
  let* (ok, acc) := check_stanza_expiration acc spadat stanza_num in
  if negb ok then ret (KEEP_SEARCHING, c, acc, spadat) else
  let enc_type := fko_encryption_type E (cstr (packet_data spa_pkt)) in
  let* (c, attempted_decrypt, cmd_exec_success, res) :=
    if use_rijndael acc then
      handle_rijndael_enc acc spa_pkt spadat c attempted_decrypt
        cmd_exec_success enc_type stanza_num res
    else ret (c, attempted_decrypt, cmd_exec_success, res) in
  let* (ok, c, attempted_decrypt, res) :=
    handle_gpg_enc acc spa_pkt spadat c attempted_decrypt cmd_exec_success
      enc_type stanza_num res in
  if negb ok then ret (KEEP_SEARCHING, c, acc, spadat) else
  let* ok :=
    check_mode_ctx spadat c attempted_decrypt enc_type stanza_num res in
  if negb ok then ret (KEEP_SEARCHING, c, acc, spadat) else
  (* add this SPA packet into the replay detection cache *)
  let* (ok, added_replay_digest, res) :=
    add_replay_cache opts acc spadat raw_digest added_replay_digest
      stanza_num res in
  if negb ok then ret (KEEP_SEARCHING, c, acc, spadat) else
  process_spa_data_validate opts c acc spa_pkt spadat stanza_num enc_type
    conf_pkt_age res.

(** ** [incoming_spa]: process the SPA packet data *)

(** What both the loop and the [cleanup] label do with a context. *)
Definition destroy_ctx (c : option ctx) : M (option ctx) :=
  if c is Some _ then
    let* st := call_fko_destroy c in
    (if bool_decide (st = FKO_ERROR_ZERO_OUT_DATA)
     then log_msg LOG_WARNING
            "[%s] (stanza #%d) fko_destroy() could not zero out sensitive data buffer."
     else ret tt) >>
    ret None
  else ret c.

(** The [while(acc)] loop over the stanza list, from [acc] on: answers the
    context, the stanzas as the loop leaves them, [spadat] and
    [stanza_num]. *)
Fixpoint stanza_loop (opts : fko_srv_options) (c : option ctx)
    (accs : list acc_stanza) (spa_pkt : spa_pkt_info) (spadat : spa_data)
    (stanza_num : Z) (raw_digest : option string) (conf_pkt_age : Z)
  : M (option ctx * list acc_stanza * spa_data * Z) :=
  match accs with
  | [] => ret (c, [], spadat, stanza_num)
  | acc :: rest =>
      let stanza_num := stanza_num + 1 in
      let* (v, c, acc, spadat) :=
        process_spa_data opts c acc spa_pkt spadat stanza_num raw_digest
          conf_pkt_age in
      match v with
      | KEEP_SEARCHING =>
          let* c := destroy_ctx c in
          let* (c, rest, spadat, stanza_num) :=
            stanza_loop opts c rest spa_pkt spadat stanza_num raw_digest
              conf_pkt_age in
          ret (c, acc :: rest, spadat, stanza_num)
      | STOP_SEARCHING => ret (c, acc :: rest, spadat, stanza_num)
      end
  end.

(** [incoming_spa] up to the [cleanup] label: the context and options it
    arrives there with.  [spadat] is a local that starts out
    uninitialised. *)
Definition incoming_spa_body (opts : fko_srv_options) (spadat : spa_data)
  : M (option ctx * fko_srv_options) :=
  let c : option ctx := None in
  let raw_digest : option string := None in
  let stanza_num := 0 in
  let conf_pkt_age := 0 in
  let acc : option acc_stanza := None in
  log_msg LOG_DEBUG "incoming_spa() : just arrived, stay tuned" >>
  let spadat := set_service_data_list None spadat in
  let spadat :=
    set_pkt_source_ip (inet_ntop E (packet_src_ip (spa_pkt opts))) spadat in
  let spadat :=
    set_pkt_destination_ip (inet_ntop E (packet_dst_ip (spa_pkt opts)))
      spadat in
  let* (ok, pkt) := precheck_pkt opts (spa_pkt opts) spadat in
  let opts := set_spa_pkt pkt opts in
  if negb ok then ret (c, opts) else
  let* (ok, raw_digest) := replay_check opts pkt raw_digest in
  if negb ok then ret (c, opts) else
  let* (ok, acc) :=
    if conf_is opts CONF_DISABLE_SDP_MODE "Y" then
      let* ok := src_check opts pkt spadat in ret (ok, acc)
    else sdp_id_check opts pkt acc in
  if negb ok then ret (c, opts) else
  let '(conf_pkt_age, is_err) :=
    if conf_is opts CONF_ENABLE_SPA_PACKET_AGING "Y" then
      strtol_wrapper E (config opts CONF_MAX_SPA_PACKET_AGE) 0
        (RCHK_MAX_SPA_PACKET_AGE E)
    else (conf_pkt_age, FKO_SUCCESS) in
  if negb (is_success is_err) then
    log_msg LOG_ERR "[*] [%s] invalid MAX_SPA_PACKET_AGE" >> ret (c, opts)
  else
  if conf_is opts CONF_DISABLE_SDP_MODE "Y" then
    (* loop through all access stanzas looking for a match *)
    let* (c, accs, spadat, stanza_num) :=
      stanza_loop opts c (acc_stanzas opts) pkt spadat stanza_num raw_digest
        conf_pkt_age in
    ret (c, set_acc_stanzas accs opts)
  else
    match acc with
    | Some a =>
        let* (v, c, a, spadat) :=
          process_spa_data opts c a pkt spadat stanza_num raw_digest
            conf_pkt_age in
        (* [a] is the entry of the hash table itself *)
        ret (c, set_acc_stanza_hash_tbl
                  (<[sdp_id_str pkt := a]> (acc_stanza_hash_tbl opts)) opts)
    | None => undefined
    end.

Definition incoming_spa (opts : fko_srv_options) (spadat : spa_data)
  : M fko_srv_options :=
  let* (c, opts) := incoming_spa_body opts spadat in
  (* cleanup: *)
  let* c := destroy_ctx c in
  ret opts.

(** ** [run_udp_server]: one datagram *)

(** [recvfrom(s_sock, buf, len, ...)]: an error, or the datagram cut to [len]
    bytes and written over the start of [buf]. *)
Definition recvfrom (buf : list ascii) (len : Z) (dgram : option (list ascii))
  : Z * list ascii :=
  match dgram with
  | None => (-1, buf)
  | Some d =>
      let got := take (Z.to_nat len) d in
      (Z.of_nat (length got), overwrite buf got)
  end.

(** The socket addresses [caddr] and [saddr]. *)
Record sockaddr_in := mk_sockaddr { sin_addr : Z; sin_port : Z }.

(** "Copy the packet for SPA processing": [opts] as [incoming_spa] is
    handed it. *)
Definition copy_packet (opts : fko_srv_options) (dgram_msg : list ascii)
    (pkt_len : Z) (caddr saddr : sockaddr_in) : fko_srv_options :=
  set_spa_pkt
    (mk_spa_pkt
       (strlcpy_buf (packet_data (spa_pkt opts)) (cstr dgram_msg)
          (Z.to_nat (pkt_len + 1)))
       pkt_len (IPPROTO_UDP E) (sin_addr caddr) (sin_addr saddr)
       (ntohs E (sin_port caddr)) (ntohs E (sin_port saddr)) 0
       (sdp_id_str (spa_pkt opts)))
    opts.

(** From [recvfrom] to the call of [incoming_spa]: the options the call is
    made with, if it is made.  [dgram_msg] is all zeroes whenever the loop
    gets here. *)
Definition udp_handoff (opts : fko_srv_options) (dgram : option (list ascii))
    (caddr saddr : sockaddr_in) : option fko_srv_options :=
  let dgram_msg := replicate (Z.to_nat (MAX_SPA_PACKET_LEN E + 1)) NUL in
  let '(pkt_len, dgram_msg) :=
    recvfrom dgram_msg (MAX_SPA_PACKET_LEN E) dgram in
  if (pkt_len >? 0) && (pkt_len <=? MAX_SPA_PACKET_LEN E) then
    let dgram_msg := <[Z.to_nat pkt_len := NUL]> dgram_msg in
    Some (copy_packet opts dgram_msg pkt_len caddr saddr)
  else None.

(** The body of the receive loop once [select] has reported a datagram. *)
Definition run_udp_server_datagram (opts : fko_srv_options)
    (spadat : spa_data) (dgram : option (list ascii))
    (caddr saddr : sockaddr_in) : M fko_srv_options :=
  let* opts :=
    match udp_handoff opts dgram caddr saddr with
    | Some opts' =>
        (if negb (verbose opts =? 0)
         then log_msg LOG_INFO
                "udp_server: Got UDP datagram (%d bytes) from: %s"
         else ret tt) >>
        incoming_spa opts' spadat
    | None => ret opts
    end in
  let opts := set_packet_ctr (packet_ctr opts + 1) opts in
  (if (foreground opts =? 1) && (verbose opts >? 2)
   then log_msg LOG_DEBUG "run_udp_server() processed: %d packets"
   else ret tt) >>
  ret opts.

End Pipeline.

(** ** A concrete set of collaborators

    The constants are those of fwknop's headers.  libfko is replaced by a
    toy: a context is the payload it would decrypt to, decryption succeeds
    exactly with the key "abcdef", and the digest of a packet is the packet
    itself.  Address lists are lists of addresses and an ACL is the list of
    what it allows. *)
Module Demo.

Record payload := mk_payload {
  p_message_type : fko_message_type;
  p_spa_message : string;
  p_client_timeout : Z;
  p_data : string
}.

Definition b64_char (c : ascii) : bool :=
  let n := code c in
  ((48 <=? n) && (n <=? 57)) || ((65 <=? n) && (n <=? 90))
  || ((97 <=? n) && (n <=? 122))
  || (n =? 43) || (n =? 47) || (n =? 61) || (n =? 45) || (n =? 95).

Definition get {A} (c : option payload) (f : payload -> A) (d : A)
  : status * A :=
  match c with
  | Some p => (SUCCESS, f p)
  | None => (FKO_ERROR 1, d)
  end.

Definition externs (p : payload) (id : Z) : Externs payload := {|
  MIN_SPA_DATA_SIZE := 140;
  MAX_SPA_PACKET_LEN := 1500;
  MIN_GNUPG_MSG_SIZE := 400;
  B64_RIJNDAEL_SALT := "U2FsdGVkX1";
  B64_RIJNDAEL_SALT_STR_LEN := 10;
  B64_GPG_PREFIX := "hQ";
  B64_GPG_PREFIX_STR_LEN := 2;
  B64_SDP_ID_STR_LEN := 6;
  FKO_SDP_ID_SIZE := 4;
  MAX_SDP_ID_STR_LEN := 11;
  MAX_SPA_CMD_LEN := 1400;
  MAX_DECRYPTED_SPA_LEN := 1500;
  MIN_IPV4_STR_LEN := 7;
  MAX_IPV4_STR_LEN := 16;
  DEF_FW_ACCESS_TIMEOUT := 30;
  FKO_DEFAULT_ENC_MODE := 2;
  FKO_ENC_MODE_ASYMMETRIC := 7;
  FKO_DEFAULT_DIGEST := 3;
  RCHK_MAX_SPA_PACKET_AGE := 100000;
  NO_TIMEOUT := 0;
  IPPROTO_UDP := 17;
  FIREWALL := FIREWALL_IPTABLES;
  fko_new_with_data := fun data dec_key _ _ _ _ _ _ =>
    match dec_key with
    | None => (SUCCESS, Some (mk_payload (p_message_type p) (p_spa_message p)
                                (p_client_timeout p) data))
    | Some k =>
        if String.eqb k "abcdef"
        then (SUCCESS, Some (mk_payload (p_message_type p) (p_spa_message p)
                               (p_client_timeout p) data))
        else (FKO_ERROR 10, None)
    end;
  fko_decrypt_spa_data := fun c _ _ => (FKO_ERROR 11, c);
  fko_destroy := fun _ => SUCCESS;
  fko_encryption_type := fun _ => FKO_ENCRYPTION_RIJNDAEL;
  fko_set_raw_spa_digest_type := fun c _ => (SUCCESS, c);
  fko_get_raw_spa_digest_type := fun _ => (SUCCESS, 3);
  fko_set_raw_spa_digest := fun c => (SUCCESS, c);
  fko_get_raw_spa_digest := fun c => get c p_data "";
  fko_set_gpg_exe := fun c _ => (SUCCESS, c);
  fko_set_gpg_home_dir := fun c _ => (SUCCESS, c);
  fko_set_gpg_recipient := fun c _ => c;
  fko_set_gpg_signature_verify := fun c _ => c;
  fko_set_gpg_ignore_verify_error := fun c _ => c;
  fko_get_gpg_signature_id := fun _ => (FKO_ERROR 12, "");
  fko_get_gpg_signature_fpr := fun _ => (FKO_ERROR 12, "");
  fko_gpg_signature_fpr_match := fun _ _ => (FKO_ERROR 12, false);
  fko_gpg_signature_id_match := fun _ _ => (FKO_ERROR 12, false);
  IS_GPG_ERROR := fun _ => false;
  dump_ctx_to_buffer := fun _ _ => (SUCCESS, "");
  fko_get_disable_sdp_mode := fun c => get c (fun _ => 1) 0;
  fko_get_sdp_id := fun c => get c (fun _ => 0) 0;
  fko_get_username := fun c => get c (fun _ => "alice") "";
  fko_get_version := fun c => get c (fun _ => "2.6.0") "";
  fko_get_timestamp := fun c => get c (fun _ => 1000) 0;
  fko_get_spa_message_type := fun c =>
    get c p_message_type (FKO_OTHER_MSG 0);
  fko_get_spa_message := fun c => get c p_spa_message "";
  fko_get_spa_nat_access := fun c => get c (fun _ => None) None;
  fko_get_spa_server_auth := fun c => get c (fun _ => None) None;
  fko_get_spa_client_timeout := fun c => get c p_client_timeout 0;
  fko_base64_decode := fun _ => if id =? 0 then (-1, []) else (4, []);
  is_base64 := fun buf len => forallb b64_char (take (Z.to_nat len) buf);
  is_valid_ipv4_addr := fun s => String.eqb s "1.2.3.4" || String.eqb s "0.0.0.0";
  strtol_wrapper := fun _ lo _ => (lo, SUCCESS);
  compare_addr_list := fun l ip => existsb (Z.eqb ip) l;
  acc_check_port_access := fun acc msg => existsb (String.eqb msg) (open_ports acc);
  acc_check_service_access := fun acc msg =>
    negb (match service_list acc with [] => true | _ => false end);
  get_service_data_list := fun _ => (SUCCESS, []);
  ntohl := fun z => z;
  ntohs := fun z => z;
  inet_ntop := fun _ => "1.2.3.4";
  host_uint32 := fun _ => id;
  time_now := 1000;
  calloc_fails := false;
  strdup_fails := false;
  bfromcstr_fails := false;
  pthread_mutex_lock_fails := false;
  replay_cache_read_error := fun _ => false;
  replay_cache_write_error := fun _ => false;
  cmd_cycle_open_result := fun _ _ _ => (true, SUCCESS);
  run_extcmd_result := fun _ => (0, 0);
  run_extcmd_as_result := fun _ _ _ => (0, 0)
|}.

(** Scenario 1 of the specification: one stanza keyed "abcdef" for source
    1.2.3.4 that opens tcp/22. *)
Definition stanza : acc_stanza := {|
  source_list := [16909060];
  destination_list := None;
  open_ports := ["tcp/22"];
  restrict_ports := [];
  service_list := [];
  use_rijndael := true;
  key := Some "abcdef";
  key_len := 6;
  encryption_mode := 2;
  hmac_key := None;
  hmac_key_len := 0;
  hmac_type := 0;
  use_gpg := false;
  gpg_exe := None;
  gpg_home_dir := None;
  gpg_decrypt_id := None;
  gpg_decrypt_pw := None;
  gpg_allow_no_pw := false;
  gpg_require_sig := false;
  gpg_ignore_sig_error := 0;
  gpg_remote_id := None;
  gpg_remote_id_list := [];
  gpg_remote_fpr := None;
  gpg_remote_fpr_list := [];
  require_username := None;
  require_source_address := false;
  enable_cmd_exec := false;
  enable_cmd_sudo_exec := false;
  cmd_sudo_exec_user := None;
  cmd_sudo_exec_group := None;
  cmd_exec_user := None;
  cmd_exec_group := None;
  cmd_exec_uid := 0;
  cmd_exec_gid := 0;
  cmd_cycle_open := None;
  fw_access_timeout := 0;
  access_expire_time := 0;
  expired := false
|}.

(** The same stanza with another key. *)
Definition wrong_key_stanza : acc_stanza :=
  mk_acc (source_list stanza) (destination_list stanza) (open_ports stanza)
    (restrict_ports stanza) (service_list stanza) (use_rijndael stanza)
    (Some "wrong") 5 (encryption_mode stanza) (hmac_key stanza)
    (hmac_key_len stanza) (hmac_type stanza) (use_gpg stanza)
    (gpg_exe stanza) (gpg_home_dir stanza) (gpg_decrypt_id stanza)
    (gpg_decrypt_pw stanza) (gpg_allow_no_pw stanza)
    (gpg_require_sig stanza) (gpg_ignore_sig_error stanza)
    (gpg_remote_id stanza) (gpg_remote_id_list stanza)
    (gpg_remote_fpr stanza) (gpg_remote_fpr_list stanza)
    (require_username stanza) (require_source_address stanza)
    (enable_cmd_exec stanza) (enable_cmd_sudo_exec stanza)
    (cmd_sudo_exec_user stanza) (cmd_sudo_exec_group stanza)
    (cmd_exec_user stanza) (cmd_exec_group stanza) (cmd_exec_uid stanza)
    (cmd_exec_gid stanza) (cmd_cycle_open stanza) (fw_access_timeout stanza)
    (access_expire_time stanza) (expired stanza).

(** A stanza that runs commands through sudo as user root and group
    wheel. *)
Definition sudo_stanza : acc_stanza :=
  mk_acc (source_list stanza) (destination_list stanza) (open_ports stanza)
    (restrict_ports stanza) (service_list stanza) (use_rijndael stanza)
    (key stanza) (key_len stanza) (encryption_mode stanza) (hmac_key stanza)
    (hmac_key_len stanza) (hmac_type stanza) (use_gpg stanza)
    (gpg_exe stanza) (gpg_home_dir stanza) (gpg_decrypt_id stanza)
    (gpg_decrypt_pw stanza) (gpg_allow_no_pw stanza)
    (gpg_require_sig stanza) (gpg_ignore_sig_error stanza)
    (gpg_remote_id stanza) (gpg_remote_id_list stanza)
    (gpg_remote_fpr stanza) (gpg_remote_fpr_list stanza)
    (require_username stanza) (require_source_address stanza)
    true true (Some "root") (Some "wheel") None None 0 0
    (cmd_cycle_open stanza)
    (fw_access_timeout stanza) (access_expire_time stanza) (expired stanza).

Definition conf (http sdp_off persist legacy : string) (k : conf_key)
  : string :=
  match k with
  | CONF_ENABLE_SPA_OVER_HTTP => http
  | CONF_DISABLE_SDP_MODE => sdp_off
  | CONF_ENABLE_DIGEST_PERSISTENCE => persist
  | CONF_ALLOW_LEGACY_ACCESS_REQUESTS => legacy
  | CONF_ENABLE_SPA_PACKET_AGING => "N"
  | CONF_MAX_SPA_PACKET_AGE => "120"
  | CONF_SUDO_EXE => "/usr/bin/sudo"
  | _ => "N"
  end.

(** A string of [n] copies of [c]. *)
Fixpoint fill (n : nat) (c : ascii) : string :=
  match n with O => EmptyString | S n' => String c (fill n' c) end.

(** An empty packet buffer, and the slot holding a packet. *)
Definition empty_buffer : list ascii := replicate 1501 NUL.

Definition slot (data : string) : spa_pkt_info :=
  mk_spa_pkt (strlcpy_buf empty_buffer data 1501)
    (Z.of_nat (String.length data)) 17 16909060 167772161 40000 62201 0 "".

(** 160 base64 characters. *)
Definition packet : string := fill 160 "Q".

Definition options (cfg : conf_key -> string) (tst : bool)
    (accs : list acc_stanza) (tbl : gmap string acc_stanza)
    (data : string) : fko_srv_options :=
  mk_opts cfg tst 0 0 accs tbl (slot data) 0.

(** What the uninitialised local [spadat] of [incoming_spa] may hold. *)
Definition junk : spa_data :=
  mk_spadat 0 "" 0 "" (FKO_OTHER_MSG 0) "" "" "" "" "" None None 0 0 "" None.

(** The payload of scenario 1: an access request with client timeout 30. *)
Definition access_request : payload :=
  mk_payload (FKO_OTHER_MSG 3) "1.2.3.4,tcp/22" 30 "".

(** *** The scenarios that the statements below are run on *)

(** libfko as the scenarios see it: the packet decrypts to an access
    request, and carries the identity [id]. *)
Definition scenario_externs (id : Z) : Externs payload :=
  externs access_request id.

(** Classic mode with digest persistence, one stanza. *)
Definition classic_opts (tst : bool) : fko_srv_options :=
  options (conf "N" "Y" "Y" "Y") tst [stanza] ∅ packet.

(** Identity mode, with a policy for identity 5 only. *)
Definition identity_opts : fko_srv_options :=
  options (conf "N" "N" "Y" "Y") false []
    (<["5" := stanza]> ∅) packet.

(** A server that denies legacy requests. *)
Definition strict_opts : fko_srv_options :=
  options (conf "N" "Y" "Y" "N") false [stanza] ∅ packet.

(** A validated request for port tcp/23, which the stanza does not open. *)
Definition telnet_request : spa_data :=
  set_spa_message_remain "tcp/23" junk.

(** A command message, and a request for the port the stanza opens. *)
Definition command_request : spa_data :=
  set_spa_message_remain "id" (set_message_type FKO_COMMAND_MSG junk).

Definition ssh_request : spa_data :=
  set_spa_message_remain "tcp/22" junk.

(** A server that runs commands through sudo, for the stanza that asks
    for group wheel. *)
Definition sudo_opts : fko_srv_options :=
  options (conf "N" "Y" "Y" "Y") false [sudo_stanza] ∅
    packet.

(** A request over HTTP for a packet of 140 characters. *)
Definition http_request : string :=
  "GET /" +:+ fill 140 "Q" +:+
  " HTTP/1.1 User-Agent: Fwknop/2.6.10".

Definition http_opts : fko_srv_options :=
  options (conf "Y" "Y" "Y" "Y") false [stanza] ∅
    http_request.

(** A server whose slot is still empty, and the two ends of the socket. *)
Definition idle_opts : fko_srv_options :=
  options (conf "N" "Y" "Y" "Y") false [stanza] ∅ "".

Definition client : sockaddr_in := mk_sockaddr 16909060 40000.
Definition server : sockaddr_in := mk_sockaddr 0 62201.

(** The server after the datagram "AAAA", and what it hands over when the
    three bytes 'B', NUL, 'C' come next. *)
Definition after_first_datagram : option fko_srv_options :=
  (run_udp_server_datagram (scenario_externs 0) idle_opts junk
     (Some (bytes_of "AAAA")) client server (mk_world ∅ [])).1.

Definition second_handoff : option fko_srv_options :=
  match after_first_datagram with
  | Some opts1 =>
      udp_handoff (scenario_externs 0) opts1
        (Some ["B"%char; NUL; "C"%char]) client server
  | None => None
  end.






End Demo.

(** ** Reasoning about runs *)

(** [wp m Q w]: the run of [m] from [w] ends in a result and a world that
    satisfy [Q]. *)
Definition wp {A} (m : M A) (Q : option A -> world -> Prop) (w : world)
  : Prop :=
  Q (m w).1 (m w).2.

(** [w] after the calls [evs], the newest first. *)
Definition after (evs : list event) (w : world) : world :=
  mk_world (replay_cache w) (evs ++ events w).

(** [adds P w w']: from [w] to [w'] the replay cache has only grown and
    the calls made all satisfy [P]. *)
Definition adds (P : event -> Prop) (w w' : world) : Prop :=
  exists evs, events w' = evs ++ events w /\
              replay_cache w ⊆ replay_cache w' /\ Forall P evs.

(** [emits P m]: whatever the world, [m] only makes calls that satisfy
    [P], and never shrinks the replay cache. *)
Definition emits {A} (P : event -> Prop) (m : M A) : Prop :=
  forall w, wp m (fun _ => adds P w) w.

Definition is_log (e : event) : Prop :=
  match e with EvLog _ _ => True | _ => False end.

Section Theory.

Lemma wp_run {A} (m : M A) Q w : wp m Q w -> Q (m w).1 (m w).2.
Proof. exact (fun H => H). Qed.

Lemma wp_ret {A} (a : A) (Q : option A -> world -> Prop) w :
  Q (Some a) w -> wp (ret a) Q w.
Proof. exact (fun H => H). Qed.

Lemma wp_undefined {A} (Q : option A -> world -> Prop) w :
  Q None w -> wp undefined Q w.
Proof. exact (fun H => H). Qed.

Lemma wp_emit e (Q : option unit -> world -> Prop) w :
  Q (Some tt) (after [e] w) -> wp (emit e) Q w.
Proof. exact (fun H => H). Qed.

Lemma wp_bind {A B} (m : M A) (k : A -> M B) Q w :
  wp m (fun r w' => match r with
                    | Some a => wp (k a) Q w'
                    | None => Q None w'
                    end) w ->
  wp (bind m k) Q w.
Proof.
  unfold wp, bind. destruct (m w) as [[a|] w']; simpl; auto.
Qed.

Lemma wp_mono {A} (m : M A) (Q Q' : option A -> world -> Prop) w :
  wp m Q w -> (forall r w', Q r w' -> Q' r w') -> wp m Q' w.
Proof. unfold wp. auto. Qed.

Lemma wp_emits {A} P (m : M A) (Q : option A -> world -> Prop) w :
  emits P m ->
  (forall r cache evs,
      replay_cache w ⊆ cache -> Forall P evs ->
      Q r (mk_world cache (evs ++ events w))) ->
  wp m Q w.
Proof.
  intros Hm HQ. eapply wp_mono; [apply Hm|].
  intros r [cache' evs'] (evs & Hev & Hc & HP). simpl in *. subst evs'.
  auto.
Qed.

Lemma adds_refl P w : adds P w w.
Proof. exists []. split; [reflexivity|]. split; [reflexivity|constructor]. Qed.

Lemma adds_trans P w1 w2 w3 : adds P w1 w2 -> adds P w2 w3 -> adds P w1 w3.
Proof.
  intros (e1 & H1 & C1 & F1) (e2 & H2 & C2 & F2).
  exists (e2 ++ e1). rewrite H2, H1, app_assoc.
  split; [reflexivity|]. split; [set_solver|]. apply Forall_app; auto.
Qed.

Lemma adds_after (P : event -> Prop) w w' e :
  P e -> adds P w w' -> adds P w (after [e] w').
Proof.
  intros He (evs & H1 & C1 & F1). exists (e :: evs). simpl. rewrite H1.
  split; [reflexivity|]. split; [assumption|]. now constructor.
Qed.

Lemma adds_app (P : event -> Prop) w w' cache evs :
  replay_cache w' ⊆ cache -> Forall P evs -> adds P w w' ->
  adds P w (mk_world cache (evs ++ events w')).
Proof.
  intros Hc He (evs' & H1 & C1 & F1). exists (evs ++ evs'). simpl.
  rewrite H1, app_assoc. split; [reflexivity|]. split; [set_solver|].
  apply Forall_app; auto.
Qed.

Lemma adds_weaken (P P' : event -> Prop) w w' :
  (forall e, P e -> P' e) -> adds P w w' -> adds P' w w'.
Proof.
  intros HP (evs & ? & ? & ?). exists evs.
  split; [assumption|]. split; [assumption|]. eapply Forall_impl; eauto.
Qed.

(** A call in tail position whose frame is known. *)
Lemma wp_tail_or {A} P (R : option A -> Prop) (m : M A) w0 w :
  (forall w, wp m (fun r w' => R r \/ adds P w w') w) ->
  adds P w0 w -> wp m (fun r w' => R r \/ adds P w0 w') w.
Proof.
  intros Hm Hw. eapply wp_mono; [apply Hm|].
  intros r w' [H|H]; [now left|right]. eapply adds_trans; eauto.
Qed.

Lemma wp_tail {A} P (m : M A) w0 w :
  emits P m -> adds P w0 w -> wp m (fun _ => adds P w0) w.
Proof.
  intros Hm Hw. eapply wp_mono; [apply Hm|].
  intros r w'. simpl. now apply adds_trans.
Qed.

Lemma emits_ret {A} P (a : A) : emits P (ret a).
Proof. intros w. apply wp_ret, adds_refl. Qed.

Lemma emits_undefined {A} P : emits P (@undefined A).
Proof. intros w. apply wp_undefined, adds_refl. Qed.

Lemma emits_emit (P : event -> Prop) e : P e -> emits P (emit e).
Proof. intros He w. apply wp_emit, adds_after; [assumption|apply adds_refl]. Qed.

Lemma emits_bind {A B} P (m : M A) (k : A -> M B) :
  emits P m -> (forall a, emits P (k a)) -> emits P (bind m k).
Proof.
  intros Hm Hk w. apply wp_bind. eapply wp_mono; [apply Hm|].
  intros [a|] w' Hw'; [|assumption].
  now apply (wp_tail P).
Qed.

Lemma emits_weaken {A} (P P' : event -> Prop) (m : M A) :
  emits P m -> (forall e, P e -> P' e) -> emits P' m.
Proof.
  intros Hm HP w. eapply wp_mono; [apply Hm|].
  intros r w'. now apply adds_weaken.
Qed.

End Theory.

Section ReplayCache.

Context {ctx : Type}.
Variable E : Externs ctx.

Lemma emits_is_replay P d : emits P (is_replay E d).
Proof.
  intros w. unfold wp, is_replay.
  destruct (replay_cache_read_error E d); [apply adds_refl|].
  destruct (decide (d ∈ replay_cache w)); apply adds_refl.
Qed.

Lemma emits_add_replay (P : event -> Prop) d :
  (forall s res, d = Some s -> P (EvAddReplay s res)) ->
  emits P (add_replay E d).
Proof.
  intros HP w. unfold wp, add_replay. destruct d as [s|]; [|apply adds_refl].
  destruct (replay_cache_write_error E (Some s)); simpl.
  - exists [EvAddReplay s SPA_MSG_DIGEST_ERROR].
    split; [reflexivity|]. split; [reflexivity|]. constructor; eauto.
  - exists [EvAddReplay s SPA_MSG_SUCCESS].
    split; [reflexivity|]. split; [simpl; set_solver|]. constructor; eauto.
Qed.

Lemma wp_add_replay (Q : option status -> world -> Prop) d w :
  match d with
  | Some s =>
      (replay_cache_write_error E d = true ->
       Q (Some SPA_MSG_DIGEST_ERROR)
         (after [EvAddReplay s SPA_MSG_DIGEST_ERROR] w)) /\
      (replay_cache_write_error E d = false ->
       Q (Some SPA_MSG_SUCCESS)
         (mk_world ({[s]} ∪ replay_cache w)
            ([EvAddReplay s SPA_MSG_SUCCESS] ++ events w)))
  | None => Q (Some SPA_MSG_DIGEST_ERROR) w
  end ->
  wp (add_replay E d) Q w.
Proof.
  unfold wp, add_replay. destruct d as [s|]; [|auto].
  intros [H1 H2]. destruct (replay_cache_write_error E (Some s)); auto.
Qed.

End ReplayCache.

(** Symbolic execution of a run, one construct at a time. *)
Ltac wp_scrutinee x :=
  lazymatch x with
  | match ?y with _ => _ end => wp_scrutinee y
  | _ => x
  end.

Ltac head_of t := lazymatch t with ?f _ => head_of f | _ => t end.

(** Case analysis on what a [match] looks at, unless it computes. *)
Ltac wp_case y :=
  let y' := eval cbn [negb andb orb is_success fst snd] in y in
  first
    [ constr_eq y y'; destruct y eqn:?; cbv beta iota zeta
    | change y with y'; cbv beta iota zeta ].

Ltac wp_step :=
  lazymatch goal with
  | |- wp (bind _ _) _ _ => apply wp_bind
  | |- wp (ret _) _ _ => apply wp_ret; cbv beta iota zeta
  | |- wp (emit _) _ _ => apply wp_emit; cbv beta iota zeta
  | |- wp (log_msg _ _) _ _ => apply wp_emit; cbv beta iota zeta
  | |- wp undefined _ _ => apply wp_undefined; cbv beta iota zeta
  | |- wp (match ?x with _ => _ end) _ _ =>
      let y := wp_scrutinee x in wp_case y
  | |- wp ?m _ _ =>
      let h := head_of m in
      lazymatch h with
      | @stanza_loop => fail
      | @add_replay => fail
      | @is_replay => fail
      | _ => unfold h at 1
      end
  end.

(** The same for [emits], which does not follow the path taken. *)
Ltac emits_step :=
  lazymatch goal with
  | |- emits _ (bind _ _) => apply emits_bind; [|intros ?]
  | |- emits _ (ret _) => apply emits_ret
  | |- emits _ undefined => apply emits_undefined
  | |- emits _ (emit _) =>
      apply emits_emit; simpl; first [exact I | reflexivity | idtac]
  | |- emits _ (log_msg _ _) =>
      apply emits_emit; simpl; first [exact I | reflexivity | idtac]
  | |- emits _ (is_replay _ _) => apply emits_is_replay
  | |- emits _ (add_replay _ _) =>
      apply emits_add_replay; intros; simpl;
      first [exact I | reflexivity | idtac]
  | |- emits _ (match ?x with _ => _ end) =>
      let y := wp_scrutinee x in destruct y eqn:?; cbv beta iota zeta
  | |- emits _ ?m =>
      let h := head_of m in
      lazymatch h with
      | @stanza_loop => fail
      | _ => unfold h at 1
      end
  end.

Ltac wp_auto := repeat wp_step.
Ltac emits_auto := repeat emits_step.

(** The end of a path when the goal is an [adds]: one obligation for each
    call made on the path. *)
Ltac adds_path :=
  repeat first
    [ apply adds_refl
    | apply adds_after; [simpl; first [exact I | reflexivity | idtac]|]
    | apply adds_app; [assumption|assumption|] ].

(** Let a helper run without following it: only what it [emits] is kept. *)
Ltac wp_skip P :=
  apply wp_bind; apply (wp_emits P);
  [ emits_auto | intros [?|] ? ? ? ?; cbv beta iota zeta ].

(** What a proof may choose not to follow: the conditional log records,
    the checks whose answer is a mere yes or no, and the decryption
    helpers. *)
Ltac skip_logs m :=
  lazymatch m with
  | (if _ then log_msg _ _ else log_msg _ _) => idtac
  | (if _ then log_msg _ _ else ret tt) => idtac
  | (if _ then emit _ else ret tt) => idtac
  end.

Ltac skip_checks m :=
  first
    [ skip_logs m
    | lazymatch m with
      | (if _ then ?a else ret true) =>
          let h := head_of a in
          lazymatch h with @check_username => idtac end
      | _ =>
          let h := head_of m in
          lazymatch h with
          | @handle_gpg_sigs => idtac
          | @check_pkt_age => idtac
          | @check_nat_access_types => idtac
          | @src_dst_check => idtac
          end
      end ].

Ltac skip_crypto m :=
  first
    [ skip_checks m
    | lazymatch m with
      | (if _ then ?a else ret _) =>
          let h := head_of a in
          lazymatch h with @handle_rijndael_enc => idtac end
      | _ =>
          let h := head_of m in
          lazymatch h with
          | @handle_gpg_enc => idtac
          | @check_mode_ctx => idtac
          | @check_stanza_expiration => idtac
          | @add_replay_cache => idtac
          end
      end ].

(** Symbolic execution that tries [tail] first, skips what [skp] accepts,
    and follows the rest. *)
Ltac wp_go_with skp P tail :=
  repeat first
    [ tail
    | lazymatch goal with |- wp (bind ?m _) _ _ => skp m end; wp_skip P
    | wp_step ].

Ltac wp_go P := wp_go_with skip_checks P fail.

(** The verdict is KEEP_SEARCHING, in a goal that says so or else. *)
Ltac keeps := left; do 3 eexists; reflexivity.

Section Validation.

Context {ctx : Type}.
Variable E : Externs ctx.

(** *** Timeouts *)

Definition timeout_rule (a : acc_stanza) (sp : spa_data) : Prop :=
  (client_timeout sp > 0 -> spa_fw_access_timeout sp = client_timeout sp) /\
  (client_timeout sp <= 0 -> fw_access_timeout a > 0 ->
   spa_fw_access_timeout sp = fw_access_timeout a) /\
  (client_timeout sp <= 0 -> fw_access_timeout a <= 0 ->
   spa_fw_access_timeout sp = DEF_FW_ACCESS_TIMEOUT E).

Definition timeout_ok (e : event) : Prop :=
  match e with
  | EvProcessSpaRequest a sp => timeout_rule a sp
  | _ => True
  end.

Lemma set_timeout_rule acc sp : timeout_rule acc (set_timeout E acc sp).
Proof.
  unfold timeout_rule, set_timeout.
  destruct (client_timeout sp >? 0) eqn:H1;
    [|destruct (fw_access_timeout acc >? 0) eqn:H2]; simpl; lia.
Qed.

Lemma dispatch_timeout opts c acc spadat n mt res :
  timeout_rule acc spadat ->
  emits timeout_ok (process_spa_data_dispatch E opts c acc spadat n mt res).
Proof.
  intros Hr w. unfold process_spa_data_dispatch.
  wp_auto; adds_path; exact Hr.
Qed.

Lemma validate_timeout opts c acc pkt spadat n enc age res :
  emits timeout_ok
    (process_spa_data_validate E opts c acc pkt spadat n enc age res).
Proof.
  intros w. unfold process_spa_data_validate.
  wp_go_with skip_checks timeout_ok
    ltac:(idtac; lazymatch goal with
          | |- wp (process_spa_data_dispatch _ _ _ _ _ _ _ _) _ _ =>
              apply wp_tail; [apply dispatch_timeout, set_timeout_rule|]
          end).
  all: adds_path.
Qed.

(** Whatever only concerns the calls to the firewall holds of the whole
    pipeline as soon as it holds of [process_spa_data_validate]. *)
Lemma emits_lift (P : event -> Prop) :
  (forall e, (if e is EvProcessSpaRequest _ _ then False else True) -> P e) ->
  (forall opts c acc pkt spadat n enc age res,
      emits P
        (process_spa_data_validate E opts c acc pkt spadat n enc age res)) ->
  forall opts spadat, emits P (incoming_spa E opts spadat).
Proof.
  intros HP Hv.
  assert (Hp : forall opts c acc pkt spadat n rd age,
             emits P (process_spa_data E opts c acc pkt spadat n rd age)).
  { intros. unfold process_spa_data.
    repeat first
      [ apply Hv
      | apply emits_add_replay; intros; apply HP; exact I
      | apply emits_emit; apply HP; exact I
      | emits_step ]. }
  assert (Hl : forall accs opts c pkt spadat n rd age,
             emits P (stanza_loop E opts c accs pkt spadat n rd age)).
  { induction accs as [|a accs IH]; intros; simpl.
    - apply emits_ret.
    - repeat first
        [ apply Hp | apply IH
        | apply emits_emit; apply HP; exact I
        | emits_step ]. }
  intros. unfold incoming_spa, incoming_spa_body.
  repeat first
    [ apply Hp | apply Hl | apply emits_is_replay
    | apply emits_emit; apply HP; exact I
    | emits_step ].
Qed.

(** [emits] read on a run that starts with no call made. *)
Lemma emits_trace {A} P (m : M A) cache :
  emits P m -> Forall P (trace (m (mk_world cache [])).2).
Proof.
  intros Hm. destruct (Hm (mk_world cache [])) as (evs & Hev & _ & HP).
  unfold trace. rewrite Hev. simpl. rewrite app_nil_r.
  now apply Forall_rev.
Qed.

(** C8. Every request handed to the firewall carries as
    [fw_access_timeout] the [client_timeout] of the payload when that is
    greater than 0, otherwise the [fw_access_timeout] of the stanza it is
    handed with when that is greater than 0, otherwise
    [DEF_FW_ACCESS_TIMEOUT]. *)
Theorem C8_effective_timeout opts spadat cache :
  Forall
    (fun e =>
       match e with
       | EvProcessSpaRequest acc sp =>
           (client_timeout sp > 0 ->
            spa_fw_access_timeout sp = client_timeout sp) /\
           (client_timeout sp <= 0 -> fw_access_timeout acc > 0 ->
            spa_fw_access_timeout sp = fw_access_timeout acc) /\
           (client_timeout sp <= 0 -> fw_access_timeout acc <= 0 ->
            spa_fw_access_timeout sp = DEF_FW_ACCESS_TIMEOUT E)
       | _ => True
       end)
    (trace (incoming_spa E opts spadat (mk_world cache [])).2).
Proof.
  apply (emits_trace timeout_ok), emits_lift.
  - intros [] H; simpl; auto; contradiction.
  - intros. apply validate_timeout.
Qed.

(** *** The scope policy *)

(** C5. In the last part of [process_spa_data], for a stanza without
    command cycle and a message that is not a command (an access message):
    when the type is one of the two service access types and the service
    ACL denies the request, the verdict is STOP_SEARCHING; when it is any
    other type and the port/protocol ACL denies the request, the verdict is
    KEEP_SEARCHING. *)
Theorem C5_scope_policy_verdicts opts c acc spadat n msg_type res w :
  cmd_cycle_open acc = None ->
  message_type spadat <> FKO_COMMAND_MSG ->
  let verdict :=
    (process_spa_data_dispatch E opts c acc spadat n msg_type res w).1 in
  let service :=
    msg_type = FKO_SERVICE_ACCESS_MSG \/
    msg_type = FKO_CLIENT_TIMEOUT_SERVICE_ACCESS_MSG in
  (service ->
   acc_check_service_access E acc (spa_message_remain spadat) = false ->
   verdict = Some (STOP_SEARCHING, c, acc, spadat)) /\
  (~ service ->
   acc_check_port_access E acc (spa_message_remain spadat) = false ->
   verdict = Some (KEEP_SEARCHING, c, acc, spadat)).
Proof.
  intros Hcycle Hcmd verdict service. subst verdict service.
  apply (wp_run _ (fun r _ =>
    ((msg_type = FKO_SERVICE_ACCESS_MSG \/
      msg_type = FKO_CLIENT_TIMEOUT_SERVICE_ACCESS_MSG) ->
     acc_check_service_access E acc (spa_message_remain spadat) = false ->
     r = Some (STOP_SEARCHING, c, acc, spadat)) /\
    (~ (msg_type = FKO_SERVICE_ACCESS_MSG \/
        msg_type = FKO_CLIENT_TIMEOUT_SERVICE_ACCESS_MSG) ->
     acc_check_port_access E acc (spa_message_remain spadat) = false ->
     r = Some (KEEP_SEARCHING, c, acc, spadat)))).
  unfold process_spa_data_dispatch. rewrite Hcycle.
  rewrite (bool_decide_eq_false_2 _ Hcmd). cbv beta iota zeta.
  wp_auto.
  all: split; intros Hs Hacl.
  all: try reflexivity.
  all: try (rewrite Hacl in *; simpl in *; discriminate).
  all: try (exfalso; apply Hs).
  all: try (destruct Hs as [Hs|Hs]; rewrite Hs in *; simpl in *; discriminate).
  all: repeat match goal with
       | H : _ || _ = true |- _ => apply orb_prop in H; destruct H as [H|H]
       | H : bool_decide _ = true |- _ => apply bool_decide_eq_true_1 in H
       end; auto.
Qed.

(** *** Test mode *)

Definition log_is (fmt : string) (e : event) : bool :=
  match e with EvLog _ f => String.eqb f fmt | _ => false end.

(** The two records of test mode. *)
Definition test_mode_record (e : event) : bool :=
  log_is "[%s] (stanza #%d) --test mode enabled, skipping command execution." e
  || log_is "[%s] (stanza #%d) --test mode enabled, skipping firewall manipulation." e.

Definition keeps_searching (r : option (@psd_result ctx)) : Prop :=
  exists c acc spadat, r = Some (KEEP_SEARCHING, c, acc, spadat).


Lemma adds_all P cache w : adds P (mk_world cache []) w -> Forall P (events w).
Proof.
  intros (evs & Hev & _ & HP). rewrite Hev. simpl. now rewrite app_nil_r.
Qed.

Lemma test_mode_dispatch opts c acc spadat n mt res w :
  test opts = true -> cmd_cycle_open acc = None ->
  wp (process_spa_data_dispatch E opts c acc spadat n mt res)
     (fun r w' =>
        keeps_searching r \/ adds (fun e => test_mode_record e = false) w w')
     w.
Proof.
  intros Htest Hcycle. unfold process_spa_data_dispatch.
  rewrite Hcycle. cbv beta iota zeta. unfold process_cmd_msg.
  rewrite Htest.
  wp_auto.
  all: first [keeps | right; adds_path].
Qed.

Lemma test_mode_validate opts c acc pkt spadat n enc age res w :
  test opts = true -> cmd_cycle_open acc = None ->
  wp (process_spa_data_validate E opts c acc pkt spadat n enc age res)
     (fun r w' =>
        keeps_searching r \/ adds (fun e => test_mode_record e = false) w w')
     w.
Proof.
  intros Htest Hcycle. unfold process_spa_data_validate.
  wp_go_with skip_checks (fun e => test_mode_record e = false)
    ltac:(idtac; lazymatch goal with
          | |- wp (process_spa_data_dispatch _ _ _ _ _ _ _ _) _ _ =>
              apply wp_tail_or;
              [intros; now apply test_mode_dispatch|]
          end).
  all: first [keeps | right; adds_path | adds_path].
Qed.

Lemma test_mode_process opts c acc pkt spadat n rd age w :
  test opts = true -> cmd_cycle_open acc = None ->
  wp (process_spa_data E opts c acc pkt spadat n rd age)
     (fun r w' =>
        keeps_searching r \/ adds (fun e => test_mode_record e = false) w w')
     w.
Proof.
  intros Htest Hcycle. unfold process_spa_data.
  wp_go_with skip_crypto (fun e => test_mode_record e = false)
    ltac:(idtac; lazymatch goal with
          | |- wp (process_spa_data_validate _ _ _ _ _ _ _ _ _ _) _ _ =>
              apply wp_tail_or;
              [intros; apply test_mode_validate; assumption|]
          end).
  all: first [keeps | right; adds_path | adds_path].
Qed.

Lemma Forall_Exists_absurd {A} (P : A -> bool) l :
  Forall (fun x => P x = false) l -> Exists (fun x => P x = true) l -> False.
Proof.
  induction 1 as [|x l Hx _ IH]; inversion 1; subst; [congruence|auto].
Qed.

(** C9. In test mode, for a stanza without command cycle: a command
    message gets KEEP_SEARCHING without any command being run; an access
    message that the ACL of the stanza allows gets KEEP_SEARCHING without
    the firewall being called; whenever [process_spa_data] reports test
    mode its verdict is KEEP_SEARCHING; and on that verdict the loop of
    classic mode goes on with the stanzas that remain. *)
Theorem C9_test_mode_keeps_searching
    opts c acc pkt spadat n msg_type res rd age w cache rest :
  test opts = true ->
  cmd_cycle_open acc = None ->
  let service :=
    msg_type = FKO_SERVICE_ACCESS_MSG \/
    msg_type = FKO_CLIENT_TIMEOUT_SERVICE_ACCESS_MSG in
  let remain := spa_message_remain spadat in
  let dispatch :=
    process_spa_data_dispatch E opts c acc spadat n msg_type res w in
  let attempt :=
    process_spa_data E opts c acc pkt spadat n rd age (mk_world cache []) in
  (message_type spadat = FKO_COMMAND_MSG ->
   dispatch.1 = Some (KEEP_SEARCHING, c, acc, spadat)) /\
  (message_type spadat <> FKO_COMMAND_MSG ->
   (service ->
    acc_check_service_access E acc remain = true /\
    is_success (get_service_data_list E remain).1 = true) ->
   (~ service -> acc_check_port_access E acc remain = true) ->
   keeps_searching dispatch.1) /\
  adds is_log w dispatch.2 /\
  (Exists (fun e => test_mode_record e = true) (events attempt.2) ->
   keeps_searching attempt.1) /\
  (forall c1 acc1 sp1 w1,
      process_spa_data E opts c acc pkt spadat (n + 1) rd age w =
        (Some (KEEP_SEARCHING, c1, acc1, sp1), w1) ->
      stanza_loop E opts c (acc :: rest) pkt spadat n rd age w =
        (let* c2 := destroy_ctx E c1 in
         let* (c3, rest', sp', n') :=
           stanza_loop E opts c2 rest pkt sp1 (n + 1) rd age in
         ret (c3, acc1 :: rest', sp', n')) w1).
Proof.
  intros Htest Hcycle service remain dispatch attempt.
  assert (Hd : wp (process_spa_data_dispatch E opts c acc spadat n msg_type res)
    (fun r w' =>
       (message_type spadat = FKO_COMMAND_MSG ->
        r = Some (KEEP_SEARCHING, c, acc, spadat)) /\
       (message_type spadat <> FKO_COMMAND_MSG ->
        (service ->
         acc_check_service_access E acc remain = true /\
         is_success (get_service_data_list E remain).1 = true) ->
        (~ service -> acc_check_port_access E acc remain = true) ->
        keeps_searching r) /\
       adds is_log w w') w).
  { subst service remain. unfold process_spa_data_dispatch.
    rewrite Hcycle. cbv beta iota zeta. unfold process_cmd_msg.
    rewrite Htest.
    wp_auto.
    all: split; [|split; [|adds_path]].
    all: try (intros Hm; first [reflexivity
               | rewrite Hm in *; simpl in *; discriminate ]).
    all: intros Hm Hsvc Hport.
    all: try (do 3 eexists; reflexivity).
    all: exfalso.
    all: repeat match goal with
         | H : bool_decide _ = true |- _ => apply bool_decide_eq_true_1 in H
         | H : bool_decide _ = false |- _ => apply bool_decide_eq_false_1 in H
         | H : _ || _ = true |- _ => apply orb_prop in H; destruct H
         | H : _ || _ = false |- _ => apply orb_false_elim in H; destruct H
         end.
    all: try congruence.
    all: try (assert (Hs : msg_type = FKO_SERVICE_ACCESS_MSG \/
                          msg_type = FKO_CLIENT_TIMEOUT_SERVICE_ACCESS_MSG)
                by tauto;
              destruct (Hsvc Hs) as [Ha Hg]; simpl in Hg;
              first [ rewrite Ha in *; simpl in *; discriminate
                    | rewrite Hg in *; simpl in *; discriminate ]).
    all: try (rewrite Hport in *; [simpl in *; discriminate|tauto]). }
  destruct Hd as (H1 & H2 & H3).
  split; [exact H1|]. split; [exact H2|]. split; [exact H3|]. split.
  - intros Hex.
    destruct (test_mode_process opts c acc pkt spadat n rd age
                (mk_world cache []) Htest Hcycle) as [Hk|Ha]; [exact Hk|].
    exfalso. apply adds_all in Ha.
    exact (Forall_Exists_absurd _ _ Ha Hex).
  - intros c1 acc1 sp1 w1 Hp. simpl. unfold bind at 1. now rewrite Hp.
Qed.

(** *** The message type policy *)

Lemma not_logged fmt l evs :
  Forall (fun e => log_is fmt e = false) evs -> ~ In (EvLog l fmt) evs.
Proof.
  intros HF Hin. rewrite Forall_forall in HF.
  assert (H := HF _ (proj2 (list_elem_of_In _ _) Hin)). simpl in H.
  now rewrite String.eqb_refl in H.
Qed.

(** C4. [process_spa_data_validate] is the part of [process_spa_data]
    that a stanza reaches once the payload has been decrypted (and its
    digest committed).  For a payload whose type is none of
    SERVICE_ACCESS, CLIENT_TIMEOUT_SERVICE_ACCESS and COMMAND: the
    rejection on type grounds, which is the record "SPA packet made legacy
    access request, server configured to deny.", happens if and only if
    ALLOW_LEGACY_ACCESS_REQUESTS is N, and then the verdict is
    STOP_SEARCHING. *)
Theorem C4_legacy_type_gate
    opts c acc pkt spadat n enc age res cache msg_type :
  fko_get_spa_message_type E c = (FKO_SUCCESS, msg_type) ->
  msg_type <> FKO_SERVICE_ACCESS_MSG ->
  msg_type <> FKO_CLIENT_TIMEOUT_SERVICE_ACCESS_MSG ->
  msg_type <> FKO_COMMAND_MSG ->
  let run :=
    process_spa_data_validate E opts c acc pkt spadat n enc age res
      (mk_world cache []) in
  let denied :=
    In (EvLog LOG_ERR
          "[%s] SPA packet made legacy access request, server configured to deny.")
       (events run.2) in
  let configured_N :=
    conf_is opts CONF_ALLOW_LEGACY_ACCESS_REQUESTS "N" = true in
  (denied <-> configured_N) /\
  (configured_N -> run.1 = Some (STOP_SEARCHING, c, acc, spadat)).
Proof.
  intros Hty H1 H2 H3 run denied configured_N.
  subst run denied configured_N.
  set (fmt := "[%s] SPA packet made legacy access request, server configured to deny.").
  apply (wp_run _ (fun r w' =>
    (In (EvLog LOG_ERR fmt) (events w') <->
     conf_is opts CONF_ALLOW_LEGACY_ACCESS_REQUESTS "N" = true) /\
    (conf_is opts CONF_ALLOW_LEGACY_ACCESS_REQUESTS "N" = true ->
     r = Some (STOP_SEARCHING, c, acc, spadat)))).
  unfold process_spa_data_validate. rewrite Hty.
  rewrite (bool_decide_eq_false_2 _ H1), (bool_decide_eq_false_2 _ H2),
    (bool_decide_eq_false_2 _ H3).
  cbv beta iota zeta.
  do 3 wp_step.
  all: do 3 wp_step.
  all: simpl negb; cbv beta iota zeta.
  all: destruct (conf_is opts CONF_ALLOW_LEGACY_ACCESS_REQUESTS "N") eqn:HN;
    simpl andb; cbv beta iota zeta.
  all: try (do 3 wp_step; split; [|reflexivity];
            split; [reflexivity|intros _; left; reflexivity]).
  all: apply (wp_emits (fun e => log_is fmt e = false)); [emits_auto|].
  all: intros r cache' evs' _ Hevs; split; [|discriminate].
  all: split; [|discriminate]; intros Hin; exfalso.
  all: simpl in Hin; apply in_app_or in Hin as [Hin|Hin];
    [ exact (not_logged _ _ _ Hevs Hin) | ].
  all: simpl in Hin; intuition discriminate.
Qed.

End Validation.

Section Decryption.
Context {ctx : Type}.
Variable E : Externs ctx.

Definition symmetric_attempt (e : event) : Prop :=
  match e with
  | EvFkoNewWithData IN_handle_rijndael_enc _ _ _ _ _ _ => True
  | _ => False
  end.

Definition gpg_attempt (e : event) : Prop :=
  match e with EvFkoDecryptSpaData _ _ => True | _ => False end.

(** What the part of [process_spa_data] after the replay cache may call. *)
Definition tail_event (e : event) : Prop :=
  match e with
  | EvLog _ _ | EvCmdCycleOpen _ _ _ | EvRunExtcmd _ _ | EvRunExtcmdAs _ _ _
  | EvProcessSpaRequest _ _ => True
  | _ => False
  end.

Lemma validate_tail opts c acc pkt spadat n enc age res :
  emits tail_event
    (process_spa_data_validate E opts c acc pkt spadat n enc age res).
Proof. unfold process_spa_data_validate. emits_auto. Qed.

Lemma Exists_after (P : event -> Prop) e w :
  Exists P (events w) -> Exists P (events (after [e] w)).
Proof. intros H. simpl. now apply Exists_cons_tl. Qed.

Lemma Exists_here (P : event -> Prop) e w :
  P e -> Exists P (events (after [e] w)).
Proof. intros H. simpl. now apply Exists_cons_hd. Qed.

Lemma Exists_world (P : event -> Prop) cache evs w :
  Exists P (events w) -> Exists P (events (mk_world cache (evs ++ events w))).
Proof. intros H. simpl. apply Exists_app. now right. Qed.

(** Some call already made satisfies [P]. *)
Ltac made :=
  repeat first
    [ apply Exists_here; simpl; exact I
    | apply Exists_after
    | apply Exists_world ].

Lemma adds_tail (P : event -> Prop) w w' cache evs :
  (forall e, tail_event e -> P e) ->
  replay_cache w' ⊆ cache -> Forall tail_event evs -> adds P w w' ->
  adds P w (mk_world cache (evs ++ events w')).
Proof.
  intros HP Hc He Hw. apply adds_app; [assumption| |assumption].
  eapply Forall_impl; eauto.
Qed.

Definition not_symmetric (e : event) : Prop :=
  match e with
  | EvFkoNewWithData IN_handle_rijndael_enc _ _ _ _ _ _ => False
  | _ => True
  end.

Definition decrypt_attempt (e : event) : Prop :=
  match e with
  | EvFkoNewWithData IN_handle_rijndael_enc _ _ _ _ _ _ => True
  | EvFkoDecryptSpaData _ _ => True
  | _ => False
  end.

Lemma adds_add_replay (P : event -> Prop) w w' s res :
  P (EvAddReplay s res) -> adds P w w' ->
  adds P w (mk_world ({[s]} ∪ replay_cache w')
              ([EvAddReplay s res] ++ events w')).
Proof.
  intros He Hw. apply adds_app; [set_solver|now constructor|assumption].
Qed.

Ltac adds_path_tail :=
  repeat first
    [ apply adds_refl
    | apply adds_after; [simpl; exact I|]
    | apply adds_app; [assumption|assumption|]
    | apply adds_add_replay; [simpl; exact I|]
    | apply adds_tail; [intros []; simpl; tauto|assumption|assumption|] ].

Lemma C3_run opts c acc pkt spadat n rd age cache :
  (src_dst_check E acc pkt spadat n (mk_world cache [])).1 = Some true ->
  (check_stanza_expiration E acc spadat n (mk_world cache [])).1 =
    Some (true, acc) ->
  let cond :=
    use_rijndael acc &&
    (bool_decide (fko_encryption_type E (cstr (packet_data pkt)) =
                  FKO_ENCRYPTION_RIJNDAEL)
     || enable_cmd_exec acc) in
  wp (process_spa_data E opts c acc pkt spadat n rd age)
    (fun r w' =>
       (cond = true -> Exists symmetric_attempt (events w')) /\
       (cond = false -> adds not_symmetric (mk_world cache []) w') /\
       (keeps_searching r \/ Exists decrypt_attempt (events w')))
    (mk_world cache []).
Proof.
  intros Hsrc Hexp cond. subst cond.
  set (w0 := mk_world cache []) in *.
  unfold process_spa_data.
  apply wp_bind. unfold src_dst_check at 1. unfold src_dst_check in Hsrc.
  wp_step; [exfalso; simpl in Hsrc; discriminate|].
  do 6 wp_step.
  unfold check_stanza_expiration at 1.
  unfold check_stanza_expiration in Hexp.
  wp_go_with skip_logs not_symmetric
    ltac:(idtac; first
      [ exfalso; simpl in Hexp; discriminate
      | lazymatch goal with
        | |- wp (process_spa_data_validate _ _ _ _ _ _ _ _ _ _) _ _ =>
            apply (wp_emits tail_event); [apply validate_tail|];
            intros ? ? ? ? ?
        | |- wp (add_replay _ ?d) _ _ =>
            apply wp_add_replay; destruct d; [split; intros ?|];
            cbv beta iota zeta
        end ]).
  all: split; [|split].
  all: try (intros Hc; first [ solve [made]
                             | exfalso; simpl in Hc; discriminate
                             | solve [adds_path_tail] ]).
  all: try first [ keeps | right; solve [made] ].
Qed.


(** C3. For a stanza that is tried against the packet (it matches the
    addresses of the packet and has not expired): [process_spa_data] calls
    [fko_new_with_data] from [handle_rijndael_enc] if and only if the
    stanza has use_rijndael set and the encryption type detected is
    RIJNDAEL or the stanza enables command exec; when it is called,
    [attempted_decrypt] becomes 1 and [cmd_exec_success] becomes 1 if the
    call succeeds; and if neither that call nor [fko_decrypt_spa_data] (the
    GPG path) is made, the verdict is KEEP_SEARCHING. *)
Theorem C3_decryption_paths opts c acc pkt spadat n rd age cache :
  (src_dst_check E acc pkt spadat n (mk_world cache [])).1 = Some true ->
  (check_stanza_expiration E acc spadat n (mk_world cache [])).1 =
    Some (true, acc) ->
  let enc_type := fko_encryption_type E (cstr (packet_data pkt)) in
  let attempt :=
    process_spa_data E opts c acc pkt spadat n rd age (mk_world cache []) in
  (Exists symmetric_attempt (events attempt.2) <->
   use_rijndael acc = true /\
   (enc_type = FKO_ENCRYPTION_RIJNDAEL \/ enable_cmd_exec acc = true)) /\
  (forall w attempted_decrypt cmd_exec_success res0,
      enc_type = FKO_ENCRYPTION_RIJNDAEL \/ enable_cmd_exec acc = true ->
      let res :=
        (fko_new_with_data E (cstr (packet_data pkt)) (key acc) (key_len acc)
           (encryption_mode acc) (hmac_key acc) (hmac_key_len acc)
           (hmac_type acc) (sdp_id pkt)).1 in
      exists c',
        (handle_rijndael_enc E acc pkt spadat c attempted_decrypt
           cmd_exec_success enc_type n res0 w).1 =
        Some (c', true, (if is_success res then true else cmd_exec_success),
              res)) /\
  (~ Exists symmetric_attempt (events attempt.2) ->
   ~ Exists gpg_attempt (events attempt.2) ->
   keeps_searching attempt.1).
Proof.
  intros Hsrc Hexp enc_type attempt.
  destruct (C3_run opts c acc pkt spadat n rd age cache Hsrc Hexp)
    as (Hyes & Hno & Hkeep).
  fold enc_type in Hyes, Hno. fold attempt in Hyes, Hno, Hkeep.
  assert (Hcond :
    use_rijndael acc &&
      (bool_decide (enc_type = FKO_ENCRYPTION_RIJNDAEL) || enable_cmd_exec acc)
      = true <->
    use_rijndael acc = true /\
    (enc_type = FKO_ENCRYPTION_RIJNDAEL \/ enable_cmd_exec acc = true)).
  { rewrite andb_true_iff, orb_true_iff, bool_decide_eq_true. tauto. }
  split; [|split].
  - rewrite <- Hcond. split; [|exact Hyes].
    intros Hex.
    destruct (use_rijndael acc &&
              (bool_decide (enc_type = FKO_ENCRYPTION_RIJNDAEL)
               || enable_cmd_exec acc)) eqn:Hc; [reflexivity|].
    exfalso. specialize (Hno eq_refl). apply adds_all in Hno.
    rewrite Forall_forall in Hno. rewrite Exists_exists in Hex.
    destruct Hex as (e & Hin & He). specialize (Hno e Hin).
    destruct e as [[] | | | | | | | | |]; simpl in *; contradiction.
  - intros w att ces res0 Henc res.
    assert (Hb : bool_decide (enc_type = FKO_ENCRYPTION_RIJNDAEL)
                 || enable_cmd_exec acc = true).
    { rewrite orb_true_iff, bool_decide_eq_true. exact Henc. }
    subst res. unfold handle_rijndael_enc. rewrite Hb.
    unfold call_fko_new_with_data, bind, emit, ret.
    destruct (fko_new_with_data _ _ _ _ _ _ _ _ _) as [s o]. simpl.
    eexists. reflexivity.
  - intros Hsym Hgpg. destruct Hkeep as [Hk|Hex]; [exact Hk|].
    exfalso. rewrite Exists_exists in Hex. destruct Hex as (e & Hin & He).
    destruct e as [[] | | | | | | | | |]; simpl in He; try contradiction.
    + apply Hsym. rewrite Exists_exists. eexists. split; [exact Hin|exact I].
    + apply Hgpg. rewrite Exists_exists. eexists. split; [exact Hin|exact I].
Qed.

End Decryption.

Section IdentityGate.
Context {ctx : Type}.
Variable E : Externs ctx.

(** *** The identity gate *)

(** What a packet that is dropped before any stanza is tried may cause:
    the context made to compute its digest, clean-up, and output. *)
Definition screening_event (e : event) : Prop :=
  match e with
  | EvFkoNewWithData IN_get_raw_digest _ None _ _ _ _ => True
  | EvFkoDestroy | EvHexDump _ _ | EvLog _ _ => True
  | _ => False
  end.

Lemma conf_is_set_spa_pkt p opts k yn :
  conf_is (set_spa_pkt p opts) k yn = conf_is opts k yn.
Proof. reflexivity. Qed.

Ltac skip_replay_check m :=
  let h := head_of m in
  lazymatch h with @replay_check => idtac end.

(** C2. In identity mode (DISABLE_SDP_MODE does not say Y), when the
    identity that preprocessing leaves in the packet slot is zero or is not
    a key of the policy hash table: [sdp_id_check] answers 0, and
    [incoming_spa] makes no call but the keyless [fko_new_with_data] of
    the digest computation, [fko_destroy] and output; in particular no
    stanza is tried and [fko_new_with_data] is never given a key. *)
Theorem C2_identity_gate opts spadat cache :
  conf_is opts CONF_DISABLE_SDP_MODE "Y" = false ->
  let pkt := (preprocess_spa_data E opts (spa_pkt opts)).2 in
  sdp_id pkt = 0 \/ acc_stanza_hash_tbl opts !! sdp_id_str pkt = None ->
  (forall acc w,
      exists acc', (sdp_id_check E opts pkt acc w).1 = Some (false, acc')) /\
  Forall screening_event
    (trace (incoming_spa E opts spadat (mk_world cache [])).2).
Proof.
  intros Hmode pkt Hid. split.
  - intros acc w. unfold sdp_id_check.
    destruct (sdp_id pkt =? 0) eqn:H0; [eexists; reflexivity|].
    destruct (bfromcstr_fails E); [eexists; reflexivity|].
    destruct (pthread_mutex_lock_fails E); [eexists; reflexivity|].
    destruct Hid as [Hid|Hid]; [apply Z.eqb_neq in H0; contradiction|].
    rewrite Hid. eexists; reflexivity.
  - unfold trace. apply Forall_rev.
    apply (adds_all _ cache).
    apply (wp_run (incoming_spa E opts spadat)
             (fun _ w' => adds screening_event (mk_world cache []) w')).
    subst pkt. unfold incoming_spa, incoming_spa_body.
    do 3 wp_step. unfold precheck_pkt at 1.
    wp_go_with skip_replay_check screening_event
      ltac:(idtac; lazymatch goal with
            | |- wp (if conf_is _ CONF_DISABLE_SDP_MODE _ then _ else _) _ _ =>
                rewrite conf_is_set_spa_pkt, Hmode; cbv beta iota zeta
            | |- wp (bind (if conf_is _ CONF_DISABLE_SDP_MODE _ then _ else _)
                       _) _ _ =>
                rewrite conf_is_set_spa_pkt, Hmode; cbv beta iota zeta
            | |- wp (bind (process_spa_data _ _ _ _ _ _ _ _ _) _) _ _ =>
                exfalso; simpl in Hid; destruct Hid as [Hid|Hid];
                [ match goal with
                  | H : (_ =? 0) = false |- _ =>
                      apply Z.eqb_neq in H; contradiction
                  end
                | match goal with
                  | H : _ !! _ = Some _ |- _ => simpl in H; congruence
                  end ]
            end).
    all: adds_path.
Qed.

End IdentityGate.

Section ReplayCommit.
Context {ctx : Type}.
Variable E : Externs ctx.

(** *** The replay cache and decryption *)
























(** *** The digest of a packet *)


























End ReplayCommit.

(** * The packet slot *)

Section PacketSlot.
Context {ctx : Type}.
Variable E : Externs ctx.

(** Where [preprocess_spa_data] leaves the length of the slot: at the 0 it
    is reset to, unless the HTTP branch has given it the length of the
    request it has cut out. *)
Lemma preprocess_spa_data_len opts pkt :
  let r := preprocess_spa_data E opts pkt in
  packet_data_len r.2 = 0 \/
  (conf_is opts CONF_ENABLE_SPA_OVER_HTTP "Y" = true /\
   MIN_SPA_DATA_SIZE E <= packet_data_len r.2).
Proof.
  unfold preprocess_spa_data.
  repeat match goal with
         | |- context [if ?c then _ else _] =>
             lazymatch c with
             | context [if _ then _ else _] => fail
             | _ => destruct c eqn:?
             end
         | |- context [let '(_, _) := ?p in _] => destruct p eqn:?
         end; simpl; auto.
  all: right; split; [|lia].
  all: repeat match goal with
             | H : _ && _ = true |- _ => apply andb_prop in H as [H _]
             end; assumption.
Qed.

(** C7 (as the code has it). When [preprocess_spa_data] takes the packet
    for an HTTP request (ENABLE_SPA_OVER_HTTP says Y, the data starts with
    "GET /" and holds "User-Agent: Fwknop") and answers FKO_SUCCESS, the
    length it leaves in the slot is not 0: it is the [i] at which the loop
    over the request stopped, which is at least MIN_SPA_DATA_SIZE. *)
Theorem C7_http_request_length opts pkt :
  conf_is opts CONF_ENABLE_SPA_OVER_HTTP "Y" = true ->
  strncasecmp (cstr (packet_data pkt)) "GET /" 5 = 0 ->
  strstr_found (cstr (packet_data pkt)) "User-Agent: Fwknop" = true ->
  is_success (preprocess_spa_data E opts pkt).1 = true ->
  let i :=
    (http_unescape
       (strlcpy_buf (packet_data pkt) (str_drop 5 (cstr (packet_data pkt)))
          (Z.to_nat (packet_data_len pkt)))
       (Z.to_nat (packet_data_len pkt - 5))).2 in
  packet_data_len (preprocess_spa_data E opts pkt).2 = i /\
  MIN_SPA_DATA_SIZE E <= i.
Proof.
  intros Hhttp Hget Hua. unfold preprocess_spa_data.
  rewrite Hhttp, Hget, Hua. cbn [andb Z.eqb].
  repeat match goal with
         | |- context [if ?c then _ else _] =>
             lazymatch c with
             | context [if _ then _ else _] => fail
             | _ => destruct c eqn:?
             end
         | |- context [let '(_, _) := ?p in _] => destruct p eqn:?
         end; cbn; intros Hs; try discriminate Hs.
  all: split; [reflexivity|lia].
Qed.

Lemma cstr_app_nul l r : cstr (l ++ NUL :: r) = cstr l.
Proof.
  induction l as [|c l IH]; [reflexivity|]. cbn [app cstr].
  destruct (Ascii.eqb c NUL); [reflexivity|]. now rewrite IH.
Qed.

Lemma cstr_length l : (String.length (cstr l) <= length l)%nat.
Proof.
  induction l as [|c l IH]; simpl; [lia|].
  destruct (Ascii.eqb c NUL); simpl; lia.
Qed.

Lemma str_take_all n s : (String.length s <= n)%nat -> str_take n s = s.
Proof.
  revert n. induction s as [|c s IH]; intros [|n] H; simpl in *;
    try reflexivity; try lia.
  rewrite IH; [reflexivity|lia].
Qed.

Lemma cstr_bytes_of_cstr l : cstr (bytes_of (cstr l)) = cstr l.
Proof.
  induction l as [|c l IH]; [reflexivity|]. cbn [cstr].
  destruct (Ascii.eqb c NUL) eqn:Hc; [reflexivity|].
  cbn [bytes_of cstr]. now rewrite Hc, IH.
Qed.

Lemma bytes_of_cstr l : Forall (fun c => c <> NUL) l -> bytes_of (cstr l) = l.
Proof.
  induction 1 as [|c l Hc _ IH]; [reflexivity|]. cbn [cstr].
  destruct (Ascii.eqb_spec c NUL) as [->|_]; [contradiction|].
  cbn [bytes_of]. now rewrite IH.
Qed.

Lemma length_bytes_of s : length (bytes_of s) = String.length s.
Proof. induction s as [|c s IH]; simpl; congruence. Qed.

(** The C string that [dgram_msg] holds once the datagram [got] has been
    written over its zeroes and terminated. *)
Lemma cstr_dgram_msg got n :
  (length got < n)%nat ->
  cstr (<[length got := NUL]> (overwrite (replicate n NUL) got)) = cstr got.
Proof.
  intros Hn. unfold overwrite. rewrite drop_replicate.
  destruct (n - length got)%nat as [|k] eqn:Hk; [lia|].
  cbn [replicate].
  replace (length got) with (length got + 0)%nat at 1 by lia.
  rewrite insert_app_r. cbn. apply cstr_app_nul.
Qed.

(** What [strlcpy] leaves in the slot. *)
Lemma strlcpy_buf_cstr dst got :
  strlcpy_buf dst (cstr got) (S (length got)) =
  bytes_of (cstr got) ++
  NUL :: drop (S (String.length (cstr got))) dst.
Proof.
  unfold strlcpy_buf, strlcpy, overwrite.
  replace (S (length got) - 1)%nat with (length got) by lia.
  rewrite (str_take_all _ _ (cstr_length got)).
  rewrite <- app_assoc. cbn [app]. do 2 f_equal.
  rewrite length_app, length_bytes_of. cbn. f_equal. lia.
Qed.

(** C10 (as the code has it). [incoming_spa] is called only for a datagram
    of which [recvfrom] has taken [pkt_len] bytes with
    0 < pkt_len <= MAX_SPA_PACKET_LEN, and it then finds in the slot:
    [packet_data_len] equal to [pkt_len]; [sdp_id] equal to 0, next to the
    [sdp_id_str] of the packet before; and in [packet_data] the bytes of
    the datagram that come before its first NUL, then a NUL, then what the
    slot held before.  The NUL is at [pkt_len] when the datagram holds no
    NUL byte. *)
Theorem C10_udp_handoff opts dgram caddr saddr opts' :
  udp_handoff E opts dgram caddr saddr = Some opts' ->
  exists d,
    dgram = Some d /\
    let got := take (Z.to_nat (MAX_SPA_PACKET_LEN E)) d in
    let pkt_len := Z.of_nat (length got) in
    0 < pkt_len <= MAX_SPA_PACKET_LEN E /\
    packet_data_len (spa_pkt opts') = pkt_len /\
    sdp_id (spa_pkt opts') = 0 /\
    sdp_id_str (spa_pkt opts') = sdp_id_str (spa_pkt opts) /\
    packet_data (spa_pkt opts') =
      bytes_of (cstr got) ++
      NUL :: drop (S (String.length (cstr got)))
               (packet_data (spa_pkt opts)) /\
    (Forall (fun c => c <> NUL) got ->
     packet_data (spa_pkt opts') !! Z.to_nat pkt_len = Some NUL).
Proof.
  unfold udp_handoff, recvfrom. destruct dgram as [d|].
  - set (got := take (Z.to_nat (MAX_SPA_PACKET_LEN E)) d).
    destruct ((Z.of_nat (length got) >? 0) &&
              (Z.of_nat (length got) <=? MAX_SPA_PACKET_LEN E)) eqn:Hlen;
      [|discriminate].
    apply andb_prop in Hlen as [H0 Hmax].
    apply Z.gtb_lt in H0. apply Z.leb_le in Hmax.
    intros [= <-]. exists d. split; [reflexivity|]. cbv zeta.
    fold got. unfold copy_packet.
    cbn [spa_pkt set_spa_pkt packet_data_len sdp_id sdp_id_str packet_data].
    assert (Hpd :
      strlcpy_buf (packet_data (spa_pkt opts))
        (cstr (<[Z.to_nat (Z.of_nat (length got)) := NUL]>
                 (overwrite
                    (replicate (Z.to_nat (MAX_SPA_PACKET_LEN E + 1)) NUL)
                    got)))
        (Z.to_nat (Z.of_nat (length got) + 1)) =
      bytes_of (cstr got) ++
      NUL :: drop (S (String.length (cstr got)))
               (packet_data (spa_pkt opts))).
    { rewrite Nat2Z.id. rewrite cstr_dgram_msg by lia.
      replace (Z.to_nat (Z.of_nat (length got) + 1)) with (S (length got))
        by lia.
      apply strlcpy_buf_cstr. }
    split; [lia|]. split; [reflexivity|]. split; [reflexivity|].
    split; [reflexivity|]. split; [exact Hpd|].
    intros Hnul. rewrite Hpd, (bytes_of_cstr _ Hnul), Nat2Z.id.
    rewrite lookup_app_r by lia. now rewrite Nat.sub_diag.
  - cbn. discriminate.
Qed.

End PacketSlot.

(** * The command of a command message *)

Section SudoCommand.
Context {ctx : Type}.
Variable E : Externs ctx.

Lemma length_append_string s1 s2 :
  String.length (s1 +:+ s2) = (String.length s1 + String.length s2)%nat.
Proof.
  induction s1 as [|c s1 IH]; [reflexivity|].
  change (S (String.length (s1 +:+ s2)) =
          S (String.length s1 + String.length s2)).
  now rewrite IH.
Qed.

Lemma append_assoc_string s1 s2 s3 :
  (s1 +:+ s2) +:+ s3 = s1 +:+ s2 +:+ s3.
Proof.
  induction s1 as [|c s1 IH]; [reflexivity|].
  change (String c ((s1 +:+ s2) +:+ s3) = String c (s1 +:+ s2 +:+ s3)).
  now rewrite IH.
Qed.

Lemma strlcpy_short s siz : (String.length s < siz)%nat -> strlcpy s siz = s.
Proof. intros H. unfold strlcpy. apply str_take_all. lia. Qed.

Lemma strlcat_short dst src siz :
  (String.length dst + String.length src < siz)%nat ->
  strlcat dst src siz = dst +:+ src.
Proof.
  intros H. unfold strlcat.
  destruct (Nat.leb_spec siz (String.length dst)) as [Hle|_]; [lia|].
  rewrite str_take_all; [reflexivity|lia].
Qed.

(** C6 (as the code has it). With enable_cmd_sudo_exec, a sudo exec group
    [group] and no cmd_exec_group, a sudo exec user that is unset or root,
    no cmd_exec_user, and a buffer that is long enough: the command that
    is run is the sudo executable, a space and the command of the message,
    whatever [group] is; " -g group" is not part of it. *)
Theorem C6_sudo_group_guard opts acc spadat n res cache group :
  enable_cmd_exec acc = true -> test opts = false ->
  enable_cmd_sudo_exec acc = true ->
  (forall user, cmd_sudo_exec_user acc = Some user ->
                strncasecmp user "root" 4 = 0) ->
  cmd_sudo_exec_group acc = Some group ->
  cmd_exec_group acc = None -> cmd_exec_user acc = None ->
  (String.length (config opts CONF_SUDO_EXE) + 1 +
   String.length (spa_message_remain spadat) < MAX_SPA_CMD_LEN E)%nat ->
  trace (process_cmd_msg E opts acc spadat n res (mk_world cache [])).2 =
    [ EvLog LOG_INFO
        "[%s] (stanza #%d) Processing SPA Command message: command='%s'.";
      EvLog LOG_INFO "[%s] (stanza #%d) Running command '%s'";
      EvRunExtcmd
        (config opts CONF_SUDO_EXE +:+ " " +:+ spa_message_remain spadat) 5;
      EvLog LOG_INFO
        "[%s] (stanza #%d) CMD_EXEC: command returned %i, pid_status: %d" ].
Proof.
  intros Hexec Htest Hsudo Huser Hgroup Hgrp Hcuser Hlen.
  unfold process_cmd_msg.
  rewrite Hexec, Htest, Hsudo, Hgrp, Hcuser. cbn [negb].
  destruct (cmd_sudo_exec_user acc) as [user|];
    [rewrite (Huser user eq_refl); cbn [Z.eqb negb]|].
  all: cbv beta iota zeta delta [bind ret log_msg emit trace].
  all: rewrite strlcpy_short by lia.
  all: rewrite (strlcat_short _ " ") by (cbn [String.length]; lia).
  all: rewrite strlcat_short
         by (rewrite length_append_string; cbn [String.length]; lia).
  all: destruct (run_extcmd_result E _) as [rv pid_status].
  all: cbn [snd events rev app]; now rewrite append_assoc_string.
Qed.

End SudoCommand.

(** * The statements, run on the scenarios *)


(** A packet that carries identity 77 is dropped at the lookup. *)
Lemma C2_identity_gate_witness :
  let E := Demo.scenario_externs 77 in
  let pkt :=
    (preprocess_spa_data E Demo.identity_opts
       (spa_pkt Demo.identity_opts)).2 in
  conf_is Demo.identity_opts CONF_DISABLE_SDP_MODE "Y" = false /\
  sdp_id pkt = 77 /\
  acc_stanza_hash_tbl Demo.identity_opts !! sdp_id_str pkt = None /\
  Forall screening_event
    (trace (incoming_spa E Demo.identity_opts Demo.junk (mk_world ∅ [])).2).
Proof.
  cbv zeta. split; [reflexivity|]. split; [reflexivity|].
  split; [vm_compute; reflexivity|].
  refine (proj2 (C2_identity_gate (Demo.scenario_externs 77) Demo.identity_opts
                   Demo.junk ∅ eq_refl _)).
  right. vm_compute. reflexivity.
Defined.

(** The stanza keyed for Rijndael is tried with its key. *)
Lemma C3_decryption_paths_witness :
  let E := Demo.scenario_externs 0 in
  let pkt := Demo.slot Demo.packet in
  let attempt :=
    process_spa_data E (Demo.classic_opts false) None Demo.stanza pkt
      Demo.junk 1 (Some Demo.packet) 0 (mk_world ∅ []) in
  (src_dst_check E Demo.stanza pkt Demo.junk 1 (mk_world ∅ [])).1 =
    Some true /\
  (check_stanza_expiration E Demo.stanza Demo.junk 1 (mk_world ∅ [])).1 =
    Some (true, Demo.stanza) /\
  Exists symmetric_attempt (events attempt.2).
Proof.
  cbv zeta. split; [reflexivity|]. split; [reflexivity|].
  refine (proj2 (proj1 (C3_decryption_paths (Demo.scenario_externs 0)
                          (Demo.classic_opts false) None Demo.stanza
                          (Demo.slot Demo.packet) Demo.junk 1
                          (Some Demo.packet) 0 ∅ eq_refl eq_refl)) _).
  split; [reflexivity|]. left. reflexivity.
Defined.

(** The access request of scenario 1 is of a legacy type: the strict
    Demo.server stops the search. *)
Lemma C4_legacy_type_gate_witness :
  let E := Demo.scenario_externs 0 in
  let c := Some Demo.access_request in
  fko_get_spa_message_type E c = (FKO_SUCCESS, FKO_OTHER_MSG 3) /\
  conf_is Demo.strict_opts CONF_ALLOW_LEGACY_ACCESS_REQUESTS "N" = true /\
  (process_spa_data_validate E Demo.strict_opts c Demo.stanza
     (Demo.slot Demo.packet) Demo.junk 1 FKO_ENCRYPTION_RIJNDAEL 0
     FKO_SUCCESS (mk_world ∅ [])).1 =
    Some (STOP_SEARCHING, c, Demo.stanza, Demo.junk).
Proof.
  cbv zeta. split; [reflexivity|]. split; [reflexivity|].
  refine (proj2 (C4_legacy_type_gate (Demo.scenario_externs 0) Demo.strict_opts
                   (Some Demo.access_request) Demo.stanza
                   (Demo.slot Demo.packet) Demo.junk 1
                   FKO_ENCRYPTION_RIJNDAEL 0 FKO_SUCCESS ∅ (FKO_OTHER_MSG 3)
                   eq_refl _ _ _) eq_refl); discriminate.
Defined.

(** The stanza lists no service, and opens tcp/22 only. *)
Lemma C5_scope_policy_verdicts_witness :
  let E := Demo.scenario_externs 0 in
  let c := Some Demo.access_request in
  let dispatch mt :=
    (process_spa_data_dispatch E (Demo.classic_opts false) c Demo.stanza
       Demo.telnet_request 1 mt FKO_SUCCESS (mk_world ∅ [])).1 in
  dispatch FKO_SERVICE_ACCESS_MSG =
    Some (STOP_SEARCHING, c, Demo.stanza, Demo.telnet_request) /\
  dispatch (FKO_OTHER_MSG 3) =
    Some (KEEP_SEARCHING, c, Demo.stanza, Demo.telnet_request).
Proof.
  cbv zeta. split.
  - refine (proj1 (C5_scope_policy_verdicts (Demo.scenario_externs 0)
                     (Demo.classic_opts false) (Some Demo.access_request)
                     Demo.stanza Demo.telnet_request 1 FKO_SERVICE_ACCESS_MSG
                     FKO_SUCCESS (mk_world ∅ []) eq_refl _) _ eq_refl).
    + discriminate.
    + left. reflexivity.
  - refine (proj2 (C5_scope_policy_verdicts (Demo.scenario_externs 0)
                     (Demo.classic_opts false) (Some Demo.access_request)
                     Demo.stanza Demo.telnet_request 1 (FKO_OTHER_MSG 3)
                     FKO_SUCCESS (mk_world ∅ []) eq_refl _) _ eq_refl).
    + discriminate.
    + intros [H|H]; discriminate H.
Defined.

(** In test mode neither is acted upon, and the search goes on. *)
Lemma C9_test_mode_keeps_searching_witness :
  let E := Demo.scenario_externs 0 in
  let c := Some Demo.access_request in
  let dispatch acc spadat mt :=
    (process_spa_data_dispatch E (Demo.classic_opts true) c acc spadat 1 mt
       FKO_SUCCESS (mk_world ∅ [])).1 in
  test (Demo.classic_opts true) = true /\
  dispatch Demo.sudo_stanza Demo.command_request FKO_COMMAND_MSG =
    Some (KEEP_SEARCHING, c, Demo.sudo_stanza, Demo.command_request) /\
  keeps_searching (dispatch Demo.stanza Demo.ssh_request (FKO_OTHER_MSG 3)).
Proof.
  cbv zeta. split; [reflexivity|]. split.
  - refine (proj1 (C9_test_mode_keeps_searching (Demo.scenario_externs 0)
                     (Demo.classic_opts true) (Some Demo.access_request)
                     Demo.sudo_stanza (Demo.slot Demo.packet)
                     Demo.command_request 1 FKO_COMMAND_MSG FKO_SUCCESS None 0
                     (mk_world ∅ []) ∅ [] eq_refl eq_refl) eq_refl).
  - refine (proj1 (proj2 (C9_test_mode_keeps_searching (Demo.scenario_externs 0)
                     (Demo.classic_opts true) (Some Demo.access_request)
                     Demo.stanza (Demo.slot Demo.packet)
                     Demo.ssh_request 1 (FKO_OTHER_MSG 3) FKO_SUCCESS None 0
                     (mk_world ∅ []) ∅ [] eq_refl eq_refl)) _ _ _).
    + discriminate.
    + intros [H|H]; discriminate H.
    + intros _. reflexivity.
Defined.

(** The command "id" is run as "/usr/bin/sudo id": group wheel is not
    asked for. *)
Lemma C6_sudo_group_guard_witness :
  cmd_sudo_exec_group Demo.sudo_stanza = Some "wheel" /\
  trace (process_cmd_msg (Demo.scenario_externs 0) Demo.sudo_opts
           Demo.sudo_stanza Demo.command_request 1 FKO_SUCCESS
           (mk_world ∅ [])).2 =
    [ EvLog LOG_INFO
        "[%s] (stanza #%d) Processing SPA Command message: command='%s'.";
      EvLog LOG_INFO "[%s] (stanza #%d) Running command '%s'";
      EvRunExtcmd "/usr/bin/sudo id" 5;
      EvLog LOG_INFO
        "[%s] (stanza #%d) CMD_EXEC: command returned %i, pid_status: %d" ].
Proof.
  split; [reflexivity|].
  refine (C6_sudo_group_guard (Demo.scenario_externs 0) Demo.sudo_opts
            Demo.sudo_stanza Demo.command_request 1 FKO_SUCCESS ∅ "wheel"
            eq_refl eq_refl eq_refl _ eq_refl eq_refl eq_refl _).
  - intros user Huser. injection Huser as <-. reflexivity.
  - vm_compute. lia.
Defined.

(** [preprocess_spa_data] accepts it and leaves 140 in the length of the
    slot. *)
Lemma C7_http_request_length_witness :
  let r := preprocess_spa_data (Demo.scenario_externs 0) Demo.http_opts
             (spa_pkt Demo.http_opts) in
  packet_data_len (spa_pkt Demo.http_opts) = 180 /\
  r.1 = FKO_SUCCESS /\
  packet_data_len r.2 = 140 /\
  cstr (packet_data r.2) = Demo.fill 140 "Q".
Proof.
  cbv zeta. split; [reflexivity|]. split; [reflexivity|].
  split; [|vm_compute; reflexivity].
  refine (eq_trans
            (proj1 (C7_http_request_length (Demo.scenario_externs 0)
                      Demo.http_opts (spa_pkt Demo.http_opts)
                      eq_refl eq_refl eq_refl eq_refl))
            _).
  vm_compute. reflexivity.
Defined.

(** The datagram "AAAA" is handed over with its NUL at 4. *)
Lemma C10_udp_handoff_witness :
  exists opts',
    udp_handoff (Demo.scenario_externs 0) Demo.idle_opts
      (Some (bytes_of "AAAA")) Demo.client Demo.server = Some opts' /\
    packet_data_len (spa_pkt opts') = 4 /\
    sdp_id (spa_pkt opts') = 0 /\
    packet_data (spa_pkt opts') !! 4%nat = Some NUL.
Proof.
  eexists. split; [reflexivity|].
  destruct (C10_udp_handoff (Demo.scenario_externs 0) Demo.idle_opts
              (Some (bytes_of "AAAA")) Demo.client Demo.server _ eq_refl)
    as (d & Hd & _ & Hlen & Hid & _ & _ & Hnul).
  injection Hd as <-. split; [exact Hlen|]. split; [exact Hid|].
  apply Hnul. vm_compute. repeat constructor; discriminate.
Defined.

(** C10, as stated, fails on the second datagram: [incoming_spa] is handed
    a slot whose [packet_data_len] is 3 and whose byte at 3 is the 'A' of
    the datagram before; the string in the slot is "B". *)
Lemma C10_stale_byte :
  exists opts2,
    Demo.second_handoff = Some opts2 /\
    packet_data_len (spa_pkt opts2) = 3 /\
    packet_data (spa_pkt opts2) !! 3%nat = Some "A"%char /\
    take 5 (packet_data (spa_pkt opts2)) =
      ["B"%char; NUL; "A"%char; "A"%char; NUL] /\
    cstr (packet_data (spa_pkt opts2)) = "B".
Proof.
  eexists. split; [vm_compute; reflexivity|].
  vm_compute. repeat split; reflexivity.
Qed.

(** * What a helper answers, along with what it calls *)

(** [hoare P m R]: whatever the world, [m] only makes calls that satisfy
    [P], never shrinks the replay cache, and what it answers satisfies
    [R]. *)
Definition hoare {A} (P : event -> Prop) (m : M A) (R : A -> Prop) : Prop :=
  forall w, wp m (fun r w' => adds P w w' /\ forall a, r = Some a -> R a) w.

Section Hoare.

Lemma hoare_ret {A} P (a : A) (R : A -> Prop) : R a -> hoare P (ret a) R.
Proof.
  intros Ha w. apply wp_ret. split; [apply adds_refl|].
  intros a' [= <-]. exact Ha.
Qed.

Lemma hoare_undefined {A} P (R : A -> Prop) : hoare P undefined R.
Proof.
  intros w. apply wp_undefined. split; [apply adds_refl|]. discriminate.
Qed.

Lemma hoare_emit (P : event -> Prop) e (R : unit -> Prop) :
  P e -> R tt -> hoare P (emit e) R.
Proof.
  intros He Ht w. apply wp_emit. split.
  - apply adds_after; [exact He|apply adds_refl].
  - intros [] _. exact Ht.
Qed.

Lemma hoare_bind {A B} P (m : M A) (k : A -> M B) (R1 : A -> Prop)
    (R : B -> Prop) :
  hoare P m R1 -> (forall a, R1 a -> hoare P (k a) R) ->
  hoare P (bind m k) R.
Proof.
  intros Hm Hk w. apply wp_bind. eapply wp_mono; [apply Hm|].
  intros [a|] w' [Hw' Ha].
  - eapply wp_mono; [apply (Hk a (Ha a eq_refl))|].
    intros r w'' [Hw'' Hr]. split; [|exact Hr].
    eapply adds_trans; eauto.
  - split; [exact Hw'|]. discriminate.
Qed.

Lemma hoare_emits {A} P (m : M A) : emits P m -> hoare P m (fun _ => True).
Proof.
  intros Hm w. eapply wp_mono; [apply Hm|].
  intros r w' Hw'. split; [exact Hw'|]. trivial.
Qed.

Lemma emits_hoare {A} P (m : M A) R : hoare P m R -> emits P m.
Proof.
  intros Hm w. eapply wp_mono; [apply Hm|]. intros r w' [Hw' _]. exact Hw'.
Qed.

Lemma hoare_weaken {A} (P P' : event -> Prop) (m : M A) (R R' : A -> Prop) :
  hoare P m R -> (forall e, P e -> P' e) -> (forall a, R a -> R' a) ->
  hoare P' m R'.
Proof.
  intros Hm HP HR w. eapply wp_mono; [apply Hm|].
  intros r w' [Hw' Hr]. split; [eapply adds_weaken; eauto|].
  intros a Ha. auto.
Qed.

(** A helper that only writes to the log. *)
Lemma hoare_logs {A} (P : event -> Prop) (m : M A) (R : A -> Prop) :
  (forall e, is_log e -> P e) -> hoare is_log m R -> hoare P m R.
Proof. intros HP Hm. eapply hoare_weaken; eauto. Qed.

Lemma hoare_run {A} P (m : M A) R cache :
  hoare P m R ->
  Forall P (trace (m (mk_world cache [])).2) /\
  forall a, (m (mk_world cache [])).1 = Some a -> R a.
Proof.
  intros Hm. destruct (Hm (mk_world cache [])) as [(evs & Hev & _ & HP) Hr].
  split; [|exact Hr]. unfold trace. rewrite Hev. simpl. rewrite app_nil_r.
  now apply Forall_rev.
Qed.

End Hoare.

(** One step of a proof of [hoare]: [specs] proves what is known of the
    helper at the head of a [bind]; a helper it knows nothing of is only
    asked what it calls. *)
Ltac hoare_step specs :=
  lazymatch goal with
  | |- hoare _ (bind _ _) _ =>
      first
        [ eapply hoare_bind; [solve [specs]|intros ? ?]
        | eapply hoare_bind;
          [apply hoare_emits; emits_auto|intros ? _] ]
  | |- hoare _ (ret _) _ => apply hoare_ret
  | |- hoare _ undefined _ => apply hoare_undefined
  | |- hoare _ (emit _) _ => apply hoare_emit
  | |- hoare _ (log_msg _ _) _ => apply hoare_emit
  | |- hoare _ (match ?x with _ => _ end) _ =>
      let y := wp_scrutinee x in destruct y eqn:?; cbv beta iota zeta
  | |- hoare _ ?m _ =>
      let h := head_of m in
      lazymatch h with
      | @stanza_loop => fail
      | _ => unfold h at 1
      end
  end.

Ltac hoare_auto specs := repeat hoare_step specs.
(** * The calls of a run, in their order *)

(** [traced m R]: whatever the world, the run of [m] adds calls [evs] to it
    (the newest first), never shrinks the replay cache, and what it answers
    and [evs] satisfy [R]. *)
Definition traced {A} (m : M A) (R : option A -> list event -> Prop) : Prop :=
  forall w, exists evs,
    events (m w).2 = evs ++ events w /\
    replay_cache w ⊆ replay_cache (m w).2 /\ R (m w).1 evs.

(** [each_after P evs]: every call of [evs] (the newest first) satisfies
    [P], given the calls made before it. *)
Fixpoint each_after (P : list event -> event -> Prop) (evs : list event)
  : Prop :=
  match evs with
  | [] => True
  | e :: rest => P rest e /\ each_after P rest
  end.

Section Traced.

Lemma traced_ret {A} (a : A) (R : option A -> list event -> Prop) :
  R (Some a) [] -> traced (ret a) R.
Proof. intros H w. exists []. simpl. auto. Qed.

Lemma traced_undefined {A} (R : option A -> list event -> Prop) :
  R None [] -> traced undefined R.
Proof. intros H w. exists []. simpl. auto. Qed.

Lemma traced_emit e (R : option unit -> list event -> Prop) :
  R (Some tt) [e] -> traced (emit e) R.
Proof. intros H w. exists [e]. simpl. auto. Qed.

Lemma traced_bind {A B} (m : M A) (k : A -> M B)
    (R1 : option A -> list event -> Prop)
    (R : option B -> list event -> Prop) :
  traced m R1 ->
  (forall a evs1,
      R1 (Some a) evs1 -> traced (k a) (fun r evs2 => R r (evs2 ++ evs1))) ->
  (forall evs1, R1 None evs1 -> R None evs1) ->
  traced (bind m k) R.
Proof.
  intros Hm Hk Hnone w. destruct (Hm w) as (evs1 & He1 & Hc1 & H1).
  unfold bind. destruct (m w) as [[a|] w1]; simpl in *.
  - destruct (Hk a evs1 H1 w1) as (evs2 & He2 & Hc2 & H2).
    exists (evs2 ++ evs1). rewrite He2, He1, app_assoc.
    split; [reflexivity|]. split; [set_solver|exact H2].
  - exists evs1. auto.
Qed.

Lemma traced_weaken {A} (m : M A) (R R' : option A -> list event -> Prop) :
  traced m R -> (forall r evs, R r evs -> R' r evs) -> traced m R'.
Proof.
  intros Hm HR w. destruct (Hm w) as (evs & He & Hc & H).
  exists evs. auto.
Qed.

Lemma traced_hoare {A} P (m : M A) (R : A -> Prop) :
  hoare P m R ->
  traced m (fun r evs => Forall P evs /\ forall a, r = Some a -> R a).
Proof.
  intros Hm w. destruct (Hm w) as ((evs & He & Hc & HP) & Hr).
  exists evs. auto.
Qed.

(** The steps of a run, one call at a time. *)
Lemma traced_assoc {A B C} (m : M A) (f : A -> M B) (k : B -> M C) R :
  traced (bind m (fun a => bind (f a) k)) R -> traced (bind (bind m f) k) R.
Proof.
  intros H w. destruct (H w) as (evs & He & Hc & Hr). exists evs.
  unfold bind in *. destruct (m w) as [[a|] w1]; simpl in *; auto.
Qed.

Lemma traced_ret_bind {A B} (a : A) (k : A -> M B) R :
  traced (k a) R -> traced (bind (ret a) k) R.
Proof. exact (fun H => H). Qed.

Lemma traced_undefined_bind {A B} (k : A -> M B)
    (R : option B -> list event -> Prop) :
  R None [] -> traced (bind undefined k) R.
Proof. intros H w. exists []. simpl. auto. Qed.

Lemma traced_emit_bind {B} e (k : unit -> M B)
    (R : option B -> list event -> Prop) :
  traced (k tt) (fun r evs => R r (evs ++ [e])) -> traced (bind (emit e) k) R.
Proof.
  intros H w. destruct (H (after [e] w)) as (evs & He & Hc & Hr).
  exists (evs ++ [e]). unfold bind, emit, after in *. simpl in *.
  split; [|auto]. rewrite He, <- app_assoc. reflexivity.
Qed.

Lemma traced_both {A} P (m : M A) (R : option A -> list event -> Prop)
    (R' : A -> Prop) :
  traced m R -> hoare P m R' ->
  traced m (fun r evs => R r evs /\ forall a, r = Some a -> R' a).
Proof.
  intros Hm Hh w. destruct (Hm w) as (evs & He & Hc & H).
  destruct (Hh w) as [_ Hr]. exists evs. auto.
Qed.

Lemma traced_emits {A} P (m : M A) :
  emits P m -> traced m (fun _ evs => Forall P evs).
Proof.
  intros Hm w. destruct (Hm w) as (evs & He & Hc & HP). exists evs. auto.
Qed.

(** The calls of a run from a world without calls, in the order they are
    made. *)
Lemma traced_run {A} (m : M A) R cache :
  traced m R ->
  exists evs, trace (m (mk_world cache [])).2 = rev evs /\
              R (m (mk_world cache [])).1 evs.
Proof.
  intros Hm. destruct (Hm (mk_world cache [])) as (evs & He & _ & H).
  exists evs. unfold trace. rewrite He. simpl. rewrite app_nil_r. auto.
Qed.

Lemma traced_events {A} (m : M A) R cache :
  traced m R ->
  R (m (mk_world cache [])).1 (events (m (mk_world cache [])).2).
Proof.
  intros Hm. destruct (Hm (mk_world cache [])) as (evs & He & _ & H).
  rewrite He. simpl. now rewrite app_nil_r.
Qed.

Lemma each_after_app (P : list event -> event -> Prop) evs2 evs1 :
  (forall h h' e, P h e -> P (h ++ h') e) ->
  each_after P evs2 -> each_after P evs1 -> each_after P (evs2 ++ evs1).
Proof.
  intros Hmono H2 H1. induction evs2 as [|e evs2 IH]; simpl; [exact H1|].
  destruct H2 as [He H2]. split; [now apply Hmono|auto].
Qed.

Lemma each_after_Forall (P : list event -> event -> Prop) evs :
  Forall (fun e => forall h, P h e) evs -> each_after P evs.
Proof. induction 1; simpl; auto. Qed.

Lemma each_after_impl (P Q : list event -> event -> Prop) evs :
  (forall h e, P h e -> Q h e) -> each_after P evs -> each_after Q evs.
Proof.
  intros HPQ. induction evs as [|e evs IH]; simpl; [auto|].
  intros [He H]. auto.
Qed.

Lemma each_after_all (P : list event -> event -> Prop) evs :
  each_after P evs -> Forall (fun e => exists h, P h e) evs.
Proof.
  induction evs as [|e evs IH]; simpl; [constructor|].
  intros [He H]. constructor; eauto.
Qed.

(** On the calls in the order they are made. *)
Lemma each_after_split (P : list event -> event -> Prop) evs pre e post :
  each_after P evs -> rev evs = pre ++ e :: post -> P (rev pre) e.
Proof.
  intros H Ht.
  assert (Hev : evs = rev post ++ e :: rev pre).
  { rewrite <- (rev_involutive evs), Ht, rev_app_distr. simpl.
    now rewrite <- app_assoc. }
  subst evs. clear Ht. induction (rev post) as [|x l IH]; simpl in H.
  - apply H.
  - apply IH, H.
Qed.

End Traced.

Ltac traced_step P specs :=
  lazymatch goal with
  | |- traced (bind _ _) _ =>
      first [ eapply traced_bind; [solve [specs]|intros ? ? ?|intros ? ?]
            | eapply traced_bind;
              [apply (traced_emits P); emits_auto|intros ? ? ?|intros ? ?] ]
  | |- traced (ret _) _ => apply traced_ret
  | |- traced undefined _ => apply traced_undefined
  | |- traced (emit _) _ => apply traced_emit
  | |- traced (log_msg _ _) _ => apply traced_emit
  | |- traced (match ?x with _ => _ end) _ =>
      let y := wp_scrutinee x in destruct y eqn:?; cbv beta iota zeta
  | |- traced ?m _ =>
      let h := head_of m in
      lazymatch h with
      | @stanza_loop => fail
      | _ => unfold h at 1
      end
  end.

(** What the steps made so far have left in the context. *)
Ltac traced_facts :=
  cbv beta in *;
  repeat match goal with
         | H : ex _ |- _ => destruct H
         | H : _ /\ _ |- _ => destruct H
         end;
  try discriminate; subst.


(** The run followed call by call, with no helper left aside. *)
Ltac traced_exec_step :=
  lazymatch goal with
  | |- traced (bind (bind _ _) _) _ => apply traced_assoc
  | |- traced (bind (ret _) _) _ => apply traced_ret_bind; cbv beta iota zeta
  | |- traced (bind undefined _) _ => apply traced_undefined_bind
  | |- traced (bind (emit _) _) _ => apply traced_emit_bind
  | |- traced (bind (log_msg _ _) _) _ => apply traced_emit_bind
  | |- traced (bind (match ?x with _ => _ end) _) _ =>
      let y := wp_scrutinee x in destruct y eqn:?; cbv beta iota zeta
  | |- traced (bind ?m _) _ =>
      let h := head_of m in
      lazymatch h with
      | @stanza_loop => fail
      | @add_replay => fail
      | @is_replay => fail
      | _ => unfold h at 1
      end
  | |- traced (ret _) _ => apply traced_ret
  | |- traced undefined _ => apply traced_undefined
  | |- traced (emit _) _ => apply traced_emit
  | |- traced (log_msg _ _) _ => apply traced_emit
  | |- traced (match ?x with _ => _ end) _ =>
      let y := wp_scrutinee x in destruct y eqn:?; cbv beta iota zeta
  | |- traced ?m _ =>
      let h := head_of m in
      lazymatch h with
      | @stanza_loop => fail
      | @add_replay => fail
      | @is_replay => fail
      | _ => unfold h at 1
      end
  end.
(** * Commands *)

Section Commands.
Context {ctx : Type}.
Variable E : Externs ctx.

Lemma str_take_length n s : (String.length (str_take n s) <= n)%nat.
Proof.
  revert s. induction n as [|n IH]; intros [|c s]; simpl; try lia.
  specialize (IH s). lia.
Qed.

Lemma strlcpy_length s siz : (String.length (strlcpy s siz) <= siz - 1)%nat.
Proof. apply str_take_length. Qed.

(** [strlcat] keeps a string that fits in the buffer within the buffer. *)
Lemma strlcat_length dst src siz :
  (String.length dst <= siz - 1)%nat ->
  (String.length (strlcat dst src siz) <= siz - 1)%nat.
Proof.
  intros Hdst. unfold strlcat.
  destruct (Nat.leb_spec siz (String.length dst)) as [_|Hlt]; [exact Hdst|].
  rewrite length_append_string.
  pose proof (str_take_length (siz - String.length dst - 1) src). lia.
Qed.

Lemma append_nil_string s : s +:+ EmptyString = s.
Proof.
  induction s as [|c s IH]; [reflexivity|].
  change (String c (s +:+ EmptyString) = String c s). now rewrite IH.
Qed.

(** [strlcat] only appends. *)
Lemma strlcat_prefix dst src siz :
  exists rest, strlcat dst src siz = dst +:+ rest.
Proof.
  unfold strlcat. destruct (siz <=? String.length dst)%nat; [|eauto].
  exists EmptyString. now rewrite append_nil_string.
Qed.

(** The user that the stanza runs commands as, when it is not root. *)
Definition runs_as (acc : acc_stanza) : option (Z * Z) :=
  match cmd_exec_user acc with
  | Some user =>
      if negb (strncasecmp user "root" 4 =? 0)
      then Some (cmd_exec_uid acc, cmd_exec_gid acc) else None
  | None => None
  end.

(** The command line that [process_cmd_msg] builds for the message [sp]:
    it fits the buffer; without sudo it is the command of the message;
    with sudo it is a head that starts with the sudo executable of the
    configuration, to which [strlcat] has appended a space and the command
    of the message. *)
Definition built (opts : fko_srv_options) (acc : acc_stanza) (sp : spa_data)
    (cmd : string) : Prop :=
  let siz := MAX_SPA_CMD_LEN E in
  (String.length cmd <= siz - 1)%nat /\
  if enable_cmd_sudo_exec acc then
    exists head rest,
      head = strlcpy (config opts CONF_SUDO_EXE) siz +:+ rest /\
      cmd = strlcat (strlcat head " " siz) (spa_message_remain sp) siz
  else cmd = strlcpy (spa_message_remain sp) siz.

Definition command_ok (opts : fko_srv_options) (acc : acc_stanza)
    (sp : spa_data) (cmd : string) : Prop :=
  enable_cmd_exec acc = true /\ test opts = false /\ built opts acc sp cmd.

(** What [process_cmd_msg] may call for the stanza [acc] and the message
    [sp]. *)
Definition command_call (opts : fko_srv_options) (acc : acc_stanza)
    (sp : spa_data) (e : event) : Prop :=
  match e with
  | EvRunExtcmd cmd timeout =>
      timeout = 5 /\ runs_as acc = None /\ command_ok opts acc sp cmd
  | EvRunExtcmdAs uid gid cmd =>
      runs_as acc = Some (uid, gid) /\ command_ok opts acc sp cmd
  | EvLog _ _ => True
  | _ => False
  end.

Lemma process_cmd_msg_calls opts acc sp n res :
  hoare (command_call opts acc sp) (process_cmd_msg E opts acc sp n res)
    (fun r => r.1 = enable_cmd_exec acc && negb (test opts)).
Proof.
  unfold process_cmd_msg.
  destruct (enable_cmd_exec acc) eqn:Hexec; cbn [negb];
    [|hoare_auto fail; solve [exact I|reflexivity]].
  destruct (test opts) eqn:Htest;
    [hoare_auto fail; solve [exact I|reflexivity]|].
  set (siz := MAX_SPA_CMD_LEN E).
  set (sudo := fun cmd : string =>
                 (String.length cmd <= siz - 1)%nat /\
                 exists rest,
                   cmd = strlcpy (config opts CONF_SUDO_EXE) siz +:+ rest).
  assert (Hcat : forall cmd src, sudo cmd -> sudo (strlcat cmd src siz)).
  { intros cmd src [Hlen [rest ->]]. split; [now apply strlcat_length|].
    destruct (strlcat_prefix
                (strlcpy (config opts CONF_SUDO_EXE) siz +:+ rest) src siz)
      as [more ->].
    exists (rest +:+ more). apply append_assoc_string. }
  assert (Hexe : sudo (strlcpy (config opts CONF_SUDO_EXE) siz)).
  { split; [apply strlcpy_length|]. exists EmptyString.
    now rewrite append_nil_string. }
  destruct (enable_cmd_sudo_exec acc) eqn:Hsudo.
  - eapply hoare_bind with (R1 := fun _ => True);
      [hoare_auto fail; exact I|intros _ _].
    eapply hoare_bind
      with (R1 := fun cmd =>
                    (String.length cmd <= siz - 1)%nat /\
                    exists head rest,
                      head = strlcpy (config opts CONF_SUDO_EXE) siz +:+ rest /\
                      cmd = strlcat (strlcat head " " siz)
                              (spa_message_remain sp) siz).
    { cbv zeta. eapply hoare_bind with (R1 := sudo).
      - assert (Huser : sudo
                  match cmd_sudo_exec_user acc with
                  | Some user =>
                      if negb (strncasecmp user "root" 4 =? 0)
                      then strlcat
                             (strlcat (strlcpy (config opts CONF_SUDO_EXE) siz)
                                " -u " siz) user siz
                      else strlcpy (config opts CONF_SUDO_EXE) siz
                  | None => strlcpy (config opts CONF_SUDO_EXE) siz
                  end).
        { destruct (cmd_sudo_exec_user acc) as [user|]; [|exact Hexe].
          destruct (negb (strncasecmp user "root" 4 =? 0)); auto. }
        hoare_auto fail; auto.
      - intros cmd Hcmd. apply hoare_ret.
        split; [apply (Hcat _ _ (Hcat _ _ Hcmd))|].
        destruct Hcmd as [_ [rest ->]]. eauto. }
    intros cmd [Hlen Hpre].
    hoare_auto fail; try exact I; try reflexivity.
    all: unfold runs_as, command_ok, built; fold siz; rewrite Hsudo.
    all: repeat match goal with
                | H : cmd_exec_user _ = _ |- _ => rewrite H
                | H : negb _ = _ |- _ => rewrite H
                end; auto 10.
  - eapply hoare_bind with (R1 := fun _ => True);
      [hoare_auto fail; exact I|intros _ _].
    eapply hoare_bind
      with (R1 := fun cmd => cmd = strlcpy (spa_message_remain sp) siz);
      [apply hoare_ret; reflexivity|intros cmd ->].
    hoare_auto fail; try exact I; try reflexivity.
    all: unfold runs_as, command_ok, built; fold siz; rewrite Hsudo.
    all: repeat match goal with
                | H : cmd_exec_user _ = _ |- _ => rewrite H
                | H : negb _ = _ |- _ => rewrite H
                end.
    all: pose proof (strlcpy_length (spa_message_remain sp) siz); auto 10.
Qed.

End Commands.
(** * What has been checked when the firewall is asked to act *)

Section Granted.
Context {ctx : Type}.
Variable E : Externs ctx.

(** ** The checks, one by one *)

(** The packet is not older (or younger) than the configuration allows. *)
Definition fresh (opts : fko_srv_options) (age : Z) (sp : spa_data) : Prop :=
  conf_is opts CONF_ENABLE_SPA_PACKET_AGING "Y" = true ->
  int_of_long (Z.abs (time_now E - timestamp sp)) <= age.

Lemma check_pkt_age_spec opts sp n age :
  hoare is_log (check_pkt_age E opts sp n age)
    (fun ok => ok = true <-> fresh opts age sp).
Proof.
  unfold check_pkt_age, fresh. hoare_auto fail; try exact I.
  - split; [discriminate|]. intros H. specialize (H eq_refl). lia.
  - split; [|reflexivity]. intros _ _. lia.
  - split; [|reflexivity]. intros _. discriminate.
Qed.

(** The address that access is granted to: the one in the message, or the
    source of the packet when the message says 0.0.0.0. *)
Definition source_of (sp : spa_data) : string :=
  if strcmp (spa_message_src_ip sp) "0.0.0.0" =? 0
  then pkt_source_ip sp else spa_message_src_ip sp.

Definition source_allowed (acc : acc_stanza) (sp : spa_data) : Prop :=
  require_source_address acc = true ->
  (strcmp (spa_message_src_ip sp) "0.0.0.0" =? 0) = false.

Lemma check_src_access_spec acc sp n :
  hoare is_log (check_src_access acc sp n)
    (fun r =>
       (r.1 = true <-> source_allowed acc sp) /\
       r.2 = if r.1 then set_use_src_ip (source_of sp) sp else sp).
Proof.
  unfold check_src_access, source_allowed, source_of.
  hoare_auto fail; try exact I; simpl.
  - split; [|reflexivity]. split; [discriminate|]. intros H.
    specialize (H eq_refl). discriminate.
  - split; [|reflexivity]. split; [|reflexivity]. intros _. discriminate.
  - split; [|reflexivity]. split; [|reflexivity]. intros _ _. reflexivity.
Qed.

Definition username_matches (acc : acc_stanza) (sp : spa_data) : Prop :=
  forall required,
    require_username acc = Some required -> strcmp (username sp) required = 0.

Lemma check_username_spec acc sp n :
  hoare is_log (check_username acc sp n)
    (fun ok => ok = true <-> username_matches acc sp).
Proof.
  unfold check_username, username_matches.
  hoare_auto fail; try exact I.
  - split; [discriminate|]. intros H. specialize (H _ eq_refl).
    rewrite H in *. discriminate.
  - split; [|reflexivity]. intros _ r [= <-].
    apply negb_false_iff, Z.eqb_eq in Heqb. exact Heqb.
  - split; [|reflexivity]. intros _ r. discriminate.
Qed.

(** The forwarding that a NAT request needs is enabled for the firewall
    the server is built for. *)
Definition nat_enabled (opts : fko_srv_options) (sp : spa_data) : Prop :=
  let mt := message_type sp in
  (mt = FKO_NAT_ACCESS_MSG \/ mt = FKO_CLIENT_TIMEOUT_NAT_ACCESS_MSG ->
   match FIREWALL E with
   | FIREWALL_FIREWALLD =>
       conf_is opts CONF_ENABLE_FIREWD_FORWARDING "Y" = true
   | FIREWALL_IPTABLES => conf_is opts CONF_ENABLE_IPT_FORWARDING "Y" = true
   | FIREWALL_NONE => False
   end) /\
  (mt = FKO_LOCAL_NAT_ACCESS_MSG \/
   mt = FKO_CLIENT_TIMEOUT_LOCAL_NAT_ACCESS_MSG ->
   match FIREWALL E with
   | FIREWALL_FIREWALLD =>
       conf_is opts CONF_ENABLE_FIREWD_LOCAL_NAT "Y" = true
   | FIREWALL_IPTABLES => conf_is opts CONF_ENABLE_IPT_LOCAL_NAT "Y" = true
   | FIREWALL_NONE => False
   end).

Lemma check_nat_access_types_spec opts acc sp n :
  hoare is_log (check_nat_access_types E opts acc sp n)
    (fun ok => ok = true <-> nat_enabled opts sp).
Proof.
  unfold check_nat_access_types, nat_enabled. cbv zeta.
  destruct (message_type sp); simpl; destruct (FIREWALL E); simpl;
    try destruct (conf_is opts _ "Y"); simpl.
  all: hoare_auto fail; try exact I.
  all: split; [try discriminate|try reflexivity]; intros H.
  all: try (split; intros [G|G]; discriminate G).
  all: try (match type of H with _ /\ _ => destruct H as [H1 H2] end;
            first [ specialize (H1 (or_introl eq_refl))
                  | specialize (H1 (or_intror eq_refl))
                  | specialize (H2 (or_introl eq_refl))
                  | specialize (H2 (or_intror eq_refl)) ];
            first [contradiction|discriminate]).
  all: split; intros [G|G]; first [discriminate G|reflexivity].
Qed.

Lemma check_service_access_spec acc sp :
  hoare is_log (check_service_access E acc sp)
    (fun ok => ok = acc_check_service_access E acc (spa_message_remain sp)).
Proof.
  unfold check_service_access. hoare_auto fail; try exact I.
  all: destruct (acc_check_service_access _ _ _); simpl in *; congruence.
Qed.

Lemma check_port_proto_spec acc sp n :
  hoare is_log (check_port_proto E acc sp n)
    (fun ok => ok = acc_check_port_access E acc (spa_message_remain sp)).
Proof.
  unfold check_port_proto. hoare_auto fail; try exact I.
  all: destruct (acc_check_port_access _ _ _); simpl in *; congruence.
Qed.

Lemma gather_service_information_spec opts sp :
  hoare is_log (gather_service_information E opts sp)
    (fun r =>
       let got := get_service_data_list E (spa_message_remain sp) in
       r.1 = is_success got.1 /\
       r.2 = if r.1 then set_service_data_list (Some got.2) sp else sp).
Proof.
  unfold gather_service_information. hoare_auto fail; try exact I; simpl.
  all: destruct (is_success _); simpl in *;
    first [discriminate|split; reflexivity].
Qed.

(** The getter has answered [r]: done if it failed. *)
Ltac try_next r :=
  destruct (is_success r) eqn:?; cbn [negb];
  [|solve [simpl; repeat split; intros; try congruence]].

(** What [get_spa_data_fields] leaves in [spadat] when every getter
    succeeds, and what it never writes. *)
Lemma get_spa_data_fields_read c sp :
  let r := get_spa_data_fields E c sp in
  (is_success r.1 = true ->
   username r.2 = (fko_get_username E c).2 /\
   timestamp r.2 = (fko_get_timestamp E c).2 /\
   message_type r.2 = (fko_get_spa_message_type E c).2 /\
   spa_message r.2 = (fko_get_spa_message E c).2) /\
  pkt_source_ip r.2 = pkt_source_ip sp /\
  pkt_destination_ip r.2 = pkt_destination_ip sp.
Proof.
  unfold get_spa_data_fields.
  destruct (fko_get_disable_sdp_mode E c) as [r0 v0]; try_next r0.
  destruct (fko_get_sdp_id E c) as [r1 v1]; try_next r1.
  destruct (fko_get_username E c) as [r2 v2]; try_next r2.
  destruct (fko_get_version E c) as [r3 v3]; try_next r3.
  destruct (fko_get_timestamp E c) as [r4 v4]; try_next r4.
  destruct (fko_get_spa_message_type E c) as [r5 v5]; try_next r5.
  destruct (fko_get_spa_message E c) as [r6 v6]; try_next r6.
  destruct (fko_get_spa_nat_access E c) as [r7 v7]; try_next r7.
  destruct (fko_get_spa_server_auth E c) as [r8 v8]; try_next r8.
  destruct (fko_get_spa_client_timeout E c) as [r9 v9]; try_next r9.
  simpl. repeat split; reflexivity.
Qed.

Definition is_service (mt : fko_message_type) : bool :=
  bool_decide (mt = FKO_SERVICE_ACCESS_MSG)
  || bool_decide (mt = FKO_CLIENT_TIMEOUT_SERVICE_ACCESS_MSG).

(** The access list of the stanza allows what the message asks for. *)
Definition acl_allows (acc : acc_stanza) (sp : spa_data) : Prop :=
  let remain := spa_message_remain sp in
  if is_service (message_type sp) then
    acc_check_service_access E acc remain = true /\
    is_success (get_service_data_list E remain).1 = true /\
    service_data_list sp = Some (get_service_data_list E remain).2
  else acc_check_port_access E acc remain = true.

(** A server that denies legacy requests only acts on service access
    messages and on commands. *)
Definition legacy_denied (opts : fko_srv_options) (sp : spa_data) : Prop :=
  conf_is opts CONF_ALLOW_LEGACY_ACCESS_REQUESTS "N" = true ->
  is_service (message_type sp) = true \/ message_type sp = FKO_COMMAND_MSG.

(** The message is "address,request", cut at its first comma. *)
Definition message_parsed (sp : spa_data) : Prop :=
  exists k,
    strchr (spa_message sp) "," = Some k /\
    MIN_IPV4_STR_LEN E - 1 <= Z.of_nat k <= MAX_IPV4_STR_LEN E /\
    spa_message_src_ip sp = strlcpy (spa_message sp) (k + 1) /\
    spa_message_remain sp =
      strlcpy (str_drop (k + 1) (spa_message sp)) (MAX_DECRYPTED_SPA_LEN E) /\
    is_valid_ipv4_addr E (spa_message_src_ip sp) = true.

(** What [process_spa_data] has checked of a message before it acts on
    it, whatever the action; [src] and [dst] are the addresses of the
    packet as text, which [incoming_spa] puts in [spadat]. *)
Record checked (opts : fko_srv_options) (age : Z) (acc : acc_stanza)
    (src dst : string) (sp : spa_data) : Prop := {
  c_src : pkt_source_ip sp = src;
  c_dst : pkt_destination_ip sp = dst;
  c_parsed : message_parsed sp;
  c_source : source_allowed acc sp;
  c_use_src : use_src_ip sp = source_of sp;
  c_user : conf_is opts CONF_DISABLE_SDP_MODE "Y" = true ->
           username_matches acc sp;
  c_fresh : fresh opts age sp;
  c_nat : nat_enabled opts sp;
  c_legacy : legacy_denied opts sp
}.

(** What it has checked before it calls the firewall. *)
Definition request_ok (opts : fko_srv_options) (age : Z) (acc : acc_stanza)
    (src dst : string) (sp : spa_data) : Prop :=
  test opts = false /\ cmd_cycle_open acc = None /\
  message_type sp <> FKO_COMMAND_MSG /\ acl_allows acc sp /\
  checked opts age acc src dst sp.

(** What it has checked before it runs the command [e]. *)
Definition command_checked (opts : fko_srv_options) (age : Z)
    (acc : acc_stanza) (src dst : string) (e : event) : Prop :=
  cmd_cycle_open acc = None /\
  exists sp,
    command_call E opts acc sp e /\ message_type sp = FKO_COMMAND_MSG /\
    checked opts age acc src dst sp.

(** What [process_spa_data_validate] calls for the stanza [acc]. *)
Definition validated_call (opts : fko_srv_options) (age : Z)
    (acc : acc_stanza) (src dst : string) (e : event) : Prop :=
  match e with
  | EvProcessSpaRequest a sp => a = acc /\ request_ok opts age a src dst sp
  | EvCmdCycleOpen a sp _ =>
      a = acc /\ is_Some (cmd_cycle_open a) /\ checked opts age a src dst sp
  | EvRunExtcmd _ _ | EvRunExtcmdAs _ _ _ =>
      command_checked opts age acc src dst e
  | _ => True
  end.

Lemma checked_service_list opts age acc src dst sp l :
  checked opts age acc src dst sp ->
  checked opts age acc src dst (set_service_data_list l sp).
Proof. intros [H1 H2 H3 H4 H5 H6 H7 H8 H9]. constructor; assumption. Qed.

(** The addresses of the packet, which [spadat] keeps as text. *)
Definition same_addresses (sp sp' : spa_data) : Prop :=
  pkt_source_ip sp' = pkt_source_ip sp /\
  pkt_destination_ip sp' = pkt_destination_ip sp.

Lemma check_username_if_spec (b : bool) acc sp n :
  hoare is_log (if b then check_username acc sp n else ret true)
    (fun ok => ok = true -> b = true -> username_matches acc sp).
Proof.
  destruct b.
  - eapply hoare_weaken; [apply check_username_spec|auto|].
    intros ok H Hok _. now apply H.
  - apply hoare_ret. discriminate.
Qed.

(** The check of the access list, as [process_spa_data] has it inline. *)
Lemma access_list_spec opts acc sp n mt :
  hoare is_log
    (if bool_decide (mt = FKO_SERVICE_ACCESS_MSG)
        || bool_decide (mt = FKO_CLIENT_TIMEOUT_SERVICE_ACCESS_MSG)
     then
       log_msg LOG_DEBUG
         "[%s] --SPA message is a service access request, checking if SDP ID has necessary permissions" >>
       let* ok := check_service_access E acc sp in
       if negb ok then ret (Some STOP_SEARCHING, sp)
       else
         let* (ok, spadat) := gather_service_information E opts sp in
         if negb ok then ret (Some STOP_SEARCHING, spadat)
         else ret (None, spadat)
     else
       let* ok := check_port_proto E acc sp n in
       if negb ok then ret (Some KEEP_SEARCHING, sp)
       else ret (None, sp))
    (fun r =>
       r.1 = None ->
       let remain := spa_message_remain sp in
       if is_service mt then
         acc_check_service_access E acc remain = true /\
         is_success (get_service_data_list E remain).1 = true /\
         r.2 = set_service_data_list
                 (Some (get_service_data_list E remain).2) sp
       else acc_check_port_access E acc remain = true /\ r.2 = sp).
Proof.
  unfold is_service.
  destruct (bool_decide (mt = FKO_SERVICE_ACCESS_MSG)
            || bool_decide (mt = FKO_CLIENT_TIMEOUT_SERVICE_ACCESS_MSG)).
  all: hoare_auto
         ltac:(first [ apply check_service_access_spec
                     | apply check_port_proto_spec
                     | apply gather_service_information_spec ]);
    try exact I; simpl; try discriminate; intros _.
  - subst. cbv zeta in *. simpl in *. destruct H0 as [H0 H1].
    rewrite <- H0. apply negb_false_iff in Heqb, Heqb0. subst.
    split; [congruence|]. split; [congruence|]. now rewrite Heqb0.
  - apply negb_false_iff in Heqb. subst. split; [congruence|reflexivity].
Qed.

(** [set_timeout] only writes [fw_access_timeout]. *)
Lemma set_timeout_frame acc sp :
  let sp' := set_timeout E acc sp in
  message_type sp' = message_type sp /\ username sp' = username sp /\
  timestamp sp' = timestamp sp /\ spa_message sp' = spa_message sp /\
  pkt_source_ip sp' = pkt_source_ip sp /\
  pkt_destination_ip sp' = pkt_destination_ip sp /\
  client_timeout sp' = client_timeout sp.
Proof.
  unfold set_timeout.
  destruct (client_timeout sp >? 0); [|destruct (fw_access_timeout acc >? 0)];
    simpl; repeat split; reflexivity.
Qed.

Ltac dispatch_step :=
  first
    [ lazymatch goal with
      | |- hoare _ (bind (process_cmd_msg _ _ _ _ _ _) _) _ =>
          eapply hoare_bind;
          [ eapply hoare_weaken;
            [apply process_cmd_msg_calls| |intros; exact I]
          | intros ? _ ]
      | |- hoare _ (bind (if _ || _ then _ else _) _) _ =>
          eapply hoare_bind;
          [ eapply hoare_logs; [intros []; simpl; tauto|];
            apply access_list_spec
          | intros ? ? ]
      end
    | hoare_step fail ].

Lemma dispatch_validated opts c acc sp n mt res age src dst :
  checked opts age acc src dst sp -> message_type sp = mt ->
  hoare (validated_call opts age acc src dst)
    (process_spa_data_dispatch E opts c acc sp n mt res) (fun _ => True).
Proof.
  intros Hchk Hmt. unfold process_spa_data_dispatch.
  repeat dispatch_step; try exact I.
  - split; [reflexivity|]. split; [rewrite Heqo; eauto|exact Hchk].
  - apply bool_decide_eq_true in Heqb.
    intros []; simpl; try tauto.
    all: intros He; split; [assumption|].
    all: exists sp; split; [exact He|]; split; assumption.
  - split; [reflexivity|]. apply bool_decide_eq_false in Heqb.
    specialize (H eq_refl). cbv zeta in H. cbn [fst snd] in H.
    assert (Hs : checked opts age acc src dst s /\
                 message_type s = message_type sp).
    { destruct (is_service mt).
      - destruct H as (_ & _ & ->).
        split; [now apply checked_service_list|reflexivity].
      - destruct H as (_ & ->). split; [exact Hchk|reflexivity]. }
    destruct Hs as [Hs Hms].
    split; [assumption|]. split; [assumption|].
    split; [now rewrite Hms|]. split; [|exact Hs].
    unfold acl_allows. rewrite Hms, Hmt.
    destruct (is_service mt).
    + destruct H as (Ha & Hg & ->). simpl. auto.
    + destruct H as (Ha & ->). exact Ha.
Qed.

Ltac validate_specs :=
  eapply hoare_logs;
  [ intros []; simpl; tauto
  | first [ apply check_pkt_age_spec | apply check_src_access_spec
          | apply check_username_if_spec
          | apply check_nat_access_types_spec ] ].

Lemma validate_validated opts c acc pkt spadat n enc age res :
  hoare
    (validated_call opts age acc (pkt_source_ip spadat)
       (pkt_destination_ip spadat))
    (process_spa_data_validate E opts c acc pkt spadat n enc age res)
    (fun _ => True).
Proof.
  unfold process_spa_data_validate.
  pose proof (get_spa_data_fields_read c spadat) as Hread. cbv zeta in Hread.
  repeat first
    [ lazymatch goal with
      | |- hoare _ (process_spa_data_dispatch _ _ _ _ _ _ _ _) _ =>
          apply dispatch_validated
      end
    | hoare_step validate_specs ]; try exact I.
  all: repeat match goal with
              | H : negb _ = false |- _ => apply negb_false_iff in H
              end.
  all: cbn [fst snd] in *; cbv beta in *; subst.
  all: destruct Hread as (Hread & Fsrc & Fdst).
  all: match goal with
       | H : is_success ?r = true |- _ =>
           match type of Hread with is_success r = true -> _ =>
             specialize (Hread H) end
       end.
  all: destruct Hread as (Hu & Hts & Hmt & Hmsg).
  all: match goal with
       | H : _ /\ ?s = set_use_src_ip _ _ |- _ =>
           destruct H as [Hsrc Hs5];
           assert (Hf : message_type s = message_type (set_timeout E acc s4))
             by (subst s; reflexivity)
       end.
  all: pose proof (set_timeout_frame acc s4) as HT; cbv zeta in HT.
  all: destruct HT as (Tmt & Tu & Tts & Tmsg & Tsrc & Tdst & Tct).
  all: rewrite Tmt, Hmt in Hf.
  all: set (T := set_timeout E acc s4) in *.
  2: exact Hf.
  constructor.
  - subst s5. simpl. congruence.
  - subst s5. simpl. congruence.
  - exists n0.
    apply orb_false_elim in Heqb4 as [Hlo Hhi].
    apply Z.ltb_ge in Hlo. rewrite Z.gtb_ltb in Hhi. apply Z.ltb_ge in Hhi.
    subst s5; simpl; simpl in Heqb5; auto.
  - apply proj1 in Hsrc. specialize (Hsrc eq_refl). subst s5; exact Hsrc.
  - subst s5; reflexivity.
  - intros Hmode. exact (H1 eq_refl Hmode).
  - apply proj1 in H. specialize (H eq_refl). subst s5; exact H.
  - apply proj1 in H2. now apply H2.
  - intros HN. unfold legacy_denied, is_service. rewrite Hf.
    rewrite HN in Heqb0.
    destruct (bool_decide (f = FKO_SERVICE_ACCESS_MSG)); [now left|].
    destruct (bool_decide (f = FKO_CLIENT_TIMEOUT_SERVICE_ACCESS_MSG));
      [now left|].
    right. simpl in Heqb0. rewrite andb_true_r in Heqb0.
    apply negb_false_iff in Heqb0. now apply bool_decide_eq_true in Heqb0.
Qed.

(** ** The stanza *)

(** The stanza lists the source of the packet, and its destination if it
    lists destinations. *)
Definition addresses_match (acc : acc_stanza) (pkt : spa_pkt_info) : Prop :=
  compare_addr_list E (source_list acc) (ntohl E (packet_src_ip pkt)) = true /\
  forall dl, destination_list acc = Some dl ->
             compare_addr_list E dl (ntohl E (packet_dst_ip pkt)) = true.

Lemma src_dst_check_spec acc pkt sp n :
  hoare is_log (src_dst_check E acc pkt sp n)
    (fun ok => ok = true <-> addresses_match acc pkt).
Proof.
  unfold src_dst_check, addresses_match.
  hoare_auto fail; try exact I.
  - split; [discriminate|]. intros [Hs Hd].
    rewrite Hs in Heqb. destruct (destination_list acc) as [dl|];
      [rewrite (Hd dl eq_refl) in Heqb|]; discriminate.
  - split; [|reflexivity]. intros _.
    apply orb_false_elim in Heqb as [Hs Hd].
    apply negb_false_iff in Hs. split; [exact Hs|].
    intros dl Hdl. rewrite Hdl in Hd. now apply negb_false_iff in Hd.
Qed.

(** The stanza has no expiry date, or one that is not reached and was not
    found reached before. *)
Definition in_force (acc : acc_stanza) : Prop :=
  access_expire_time acc > 0 ->
  expired acc = false /\ time_now E <= access_expire_time acc.

Lemma check_stanza_expiration_spec acc sp n :
  hoare is_log (check_stanza_expiration E acc sp n)
    (fun r =>
       (r.1 = true <-> in_force acc) /\
       r.2 = if r.1 then acc
             else if expired acc then acc else set_expired true acc).
Proof.
  unfold check_stanza_expiration, in_force.
  hoare_auto fail; try exact I; simpl.
  all: try apply Z.gtb_lt in Heqb. 
  all: try apply Z.gtb_lt in Heqb1.
  all: repeat match goal with
              | H : (_ >? _) = false |- _ =>
                  rewrite Z.gtb_ltb in H; apply Z.ltb_ge in H
              end.
  all: rewrite ?Heqb0.
  all: split; [|reflexivity]; split; try reflexivity; try discriminate.
  all: intros H; try (specialize (H ltac:(lia)) as [H1 H2]).
  all: first [discriminate|lia|auto].
Qed.

(** ** The addresses in [spadat] *)

(** None of the helpers that write to [spadat] touches the two addresses
    of the packet. *)
Ltac frame_specs :=
  eapply (hoare_weaken is_log);
  [ first [ apply check_src_access_spec
          | apply gather_service_information_spec ]
  | exact (fun _ _ => I)
  | exact (fun _ H => H) ].

Ltac frame_leaf :=
  unfold same_addresses in *; cbn [fst snd] in *; cbv zeta in *;
  repeat match goal with
         | H : _ /\ _ |- _ => destruct H
         | H : ?b = true, G : context [if ?b then _ else _] |- _ =>
             rewrite H in G
         | H : ?b = false, G : context [if ?b then _ else _] |- _ =>
             rewrite H in G
         | b : bool, G : context [if ?b then _ else _] |- _ => destruct b
         end;
  subst; simpl in *;
  first [assumption|split; first [reflexivity|congruence]].

Lemma access_list_frame opts acc sp n mt :
  hoare (fun _ => True)
    (if bool_decide (mt = FKO_SERVICE_ACCESS_MSG)
        || bool_decide (mt = FKO_CLIENT_TIMEOUT_SERVICE_ACCESS_MSG)
     then
       log_msg LOG_DEBUG
         "[%s] --SPA message is a service access request, checking if SDP ID has necessary permissions" >>
       let* ok := check_service_access E acc sp in
       if negb ok then ret (Some STOP_SEARCHING, sp)
       else
         let* (ok, spadat) := gather_service_information E opts sp in
         if negb ok then ret (Some STOP_SEARCHING, spadat)
         else ret (None, spadat)
     else
       let* ok := check_port_proto E acc sp n in
       if negb ok then ret (Some KEEP_SEARCHING, sp)
       else ret (None, sp))
    (fun r => same_addresses sp r.2).
Proof.
  hoare_auto frame_specs; try exact I.
  all: frame_leaf.
Qed.

Lemma dispatch_frame opts c acc sp n mt res :
  hoare (fun _ => True) (process_spa_data_dispatch E opts c acc sp n mt res)
    (fun r => same_addresses sp r.2).
Proof.
  unfold process_spa_data_dispatch.
  repeat first
    [ lazymatch goal with
      | |- hoare _ (bind (if _ || _ then _ else _) _) _ =>
          eapply hoare_bind; [apply access_list_frame|intros ? ?]
      end
    | hoare_step fail ]; try exact I.
  all: frame_leaf.
Qed.

Lemma validate_frame opts c acc pkt spadat n enc age res :
  hoare (fun _ => True)
    (process_spa_data_validate E opts c acc pkt spadat n enc age res)
    (fun r => same_addresses spadat r.2).
Proof.
  unfold process_spa_data_validate.
  pose proof (get_spa_data_fields_read c spadat) as Hread. cbv zeta in Hread.
  repeat first
    [ lazymatch goal with
      | |- hoare _ (process_spa_data_dispatch _ _ _ _ _ _ _ _) _ =>
          eapply hoare_weaken;
          [apply dispatch_frame|exact (fun _ H => H)|intros ? ?]
      end
    | hoare_step frame_specs ]; try exact I.
  all: destruct Hread as (_ & Fsrc & Fdst).
  all: try match goal with
           | H : get_spa_data_fields _ _ _ = (_, ?s) |- _ =>
               match goal with
               | |- context [set_timeout _ ?a s] =>
                   pose proof (set_timeout_frame a s) as HT; cbv zeta in HT;
                   destruct HT as (_ & _ & _ & _ & Tsrc & Tdst & _);
                   set (T := set_timeout _ a s) in *
               | H : context [set_timeout _ ?a s] |- _ =>
                   pose proof (set_timeout_frame a s) as HT; cbv zeta in HT;
                   destruct HT as (_ & _ & _ & _ & Tsrc & Tdst & _);
                   set (T := set_timeout _ a s) in *
               end
           end.
  all: frame_leaf.
Qed.

Lemma process_spa_data_frame opts c acc pkt spadat n rd age :
  hoare (fun _ => True) (process_spa_data E opts c acc pkt spadat n rd age)
    (fun r => same_addresses spadat r.2).
Proof.
  unfold process_spa_data.
  repeat first
    [ lazymatch goal with
      | |- hoare _ (process_spa_data_validate _ _ _ _ _ _ _ _ _ _) _ =>
          apply validate_frame
      end
    | hoare_step fail ]; try exact I.
  all: frame_leaf.
Qed.

(** The calls that act for the client. *)
Definition is_action (e : event) : bool :=
  match e with
  | EvProcessSpaRequest _ _ | EvCmdCycleOpen _ _ _ | EvRunExtcmd _ _
  | EvRunExtcmdAs _ _ _ => true
  | _ => false
  end.

Definition no_action (e : event) : Prop := is_action e = false.

Lemma log_no_action e : is_log e -> no_action e.
Proof. destruct e; simpl; intros []; reflexivity. Qed.

Lemma logs_no_action evs : Forall is_log evs -> Forall no_action evs.
Proof. intros H. eapply Forall_impl; [exact H|]. apply log_no_action. Qed.

(** ** Decryption *)

(** A decryption of the packet [pkt] with the keys of the stanza [acc]
    that has succeeded: the [fko_new_with_data] of [handle_rijndael_enc],
    or the [fko_decrypt_spa_data] of [handle_gpg_enc]. *)
Definition decrypted_by (acc : acc_stanza) (pkt : spa_pkt_info) (e : event)
  : Prop :=
  match e with
  | EvFkoNewWithData IN_handle_rijndael_enc data k mode hmac id res =>
      use_rijndael acc = true /\ data = cstr (packet_data pkt) /\
      k = key acc /\ mode = encryption_mode acc /\ hmac = hmac_key acc /\
      id = sdp_id pkt /\ is_success res = true
  | EvFkoDecryptSpaData pw res =>
      use_gpg acc = true /\
      fko_encryption_type E (cstr (packet_data pkt)) = FKO_ENCRYPTION_GPG /\
      pw = gpg_decrypt_pw acc /\ is_success res = true
  | _ => False
  end.

(** What [attempted_decrypt] and [res] say of the calls [evs] made with
    the stanza so far. *)
Definition decrypt_state (acc : acc_stanza) (pkt : spa_pkt_info)
    (attempted_decrypt : bool) (res : status) (evs : list event) : Prop :=
  attempted_decrypt = true -> is_success res = true ->
  Exists (decrypted_by acc pkt) evs.

Lemma call_fko_new_with_data_spec site old data k kl mode hmac hl ht id :
  traced (call_fko_new_with_data E site old data k kl mode hmac hl ht id)
    (fun r evs =>
       exists res c,
         r = Some (res, c) /\
         evs = [EvFkoNewWithData site data k mode hmac id res]).
Proof.
  unfold call_fko_new_with_data.
  destruct (fko_new_with_data E data k kl mode hmac hl ht id) as [res new].
  eapply traced_bind with (R1 := fun r evs => r = Some tt /\ evs = [_]);
    [apply traced_emit; split; reflexivity| |intros ? [? _]; discriminate].
  intros [] evs1 [_ ->]. apply traced_ret. eauto.
Qed.

Lemma call_fko_decrypt_spa_data_spec c pw len :
  traced (call_fko_decrypt_spa_data E c pw len)
    (fun r evs =>
       exists res c',
         r = Some (res, c') /\ evs = [EvFkoDecryptSpaData pw res]).
Proof.
  unfold call_fko_decrypt_spa_data.
  destruct (fko_decrypt_spa_data E c pw len) as [res c'].
  eapply traced_bind with (R1 := fun r evs => r = Some tt /\ evs = [_]);
    [apply traced_emit; split; reflexivity| |intros ? [? _]; discriminate].
  intros [] evs1 [_ ->]. apply traced_ret. eauto.
Qed.

(** No call of the list acts for the client. *)
Ltac no_actions :=
  simpl;
  repeat first
    [ assumption
    | exact I
    | apply Forall_nil
    | apply Forall_app; split
    | apply Forall_cons; split; [reflexivity|]
    | apply logs_no_action; assumption ].

(** One of the calls made satisfies the predicate; [tac] shows that of
    the call once it is found. *)
Ltac find_call tac :=
  first
    [ assumption
    | apply Exists_cons_hd; solve [tac]
    | apply Exists_cons_tl; find_call tac
    | apply Exists_app; first [left; find_call tac|right; find_call tac] ].

Ltac call_specs :=
  first [ apply call_fko_new_with_data_spec
        | apply call_fko_decrypt_spa_data_spec ].

Lemma handle_rijndael_enc_spec acc pkt sp c ces n res :
  traced
    (if use_rijndael acc then
       handle_rijndael_enc E acc pkt sp c false ces
         (fko_encryption_type E (cstr (packet_data pkt))) n res
     else ret (c, false, ces, res))
    (fun r evs =>
       Forall no_action evs /\
       forall c' att ces' res',
         r = Some (c', att, ces', res') -> decrypt_state acc pkt att res' evs).
Proof.
  destruct (use_rijndael acc) eqn:Huse.
  - unfold handle_rijndael_enc.
    repeat traced_step no_action call_specs.
    all: traced_facts.
    all: split; [no_actions|]; intros ? ? ? ? [= <- <- <- <-].
    all: try (intros Hf; discriminate Hf).
    intros _ Hs. simpl.
    match goal with H : Some _ = Some _ |- _ => injection H as <- <- end.
    find_call ltac:(simpl; auto 10).
  - apply traced_ret. split; [constructor|].
    intros ? ? ? ? [= <- <- <- <-] Hf. discriminate.
Qed.

Lemma handle_gpg_enc_spec acc pkt sp c att ces n res :
  traced
    (handle_gpg_enc E acc pkt sp c att ces
       (fko_encryption_type E (cstr (packet_data pkt))) n res)
    (fun r evs =>
       Forall no_action evs /\
       forall ok c' att' res',
         r = Some (ok, c', att', res') -> ok = true ->
         (att' = att /\ res' = res) \/ decrypt_state acc pkt att' res' evs).
Proof.
  unfold handle_gpg_enc.
  repeat traced_step no_action call_specs.
  all: traced_facts.
  all: split; [no_actions|].
  all: intros ? ? ? ? [= <- <- <- <-]; try discriminate.
  all: try (intros _; left; split; reflexivity).
  all: intros _; right; intros _ Hs; simpl.
  all: apply andb_true_iff in Heqb as [Heqb _].
  all: apply andb_true_iff in Heqb as [Hu Hg].
  all: apply bool_decide_eq_true in Hg.
  all: repeat match goal with
              | H : Some _ = Some _ |- _ => injection H as <- <-
              end.
  all: find_call ltac:(simpl; auto 10).
Qed.

Lemma check_mode_ctx_spec sp c att enc n res :
  hoare is_log (check_mode_ctx E sp c att enc n res)
    (fun ok => ok = true -> att = true /\ is_success res = true).
Proof.
  unfold check_mode_ctx. hoare_auto fail; try exact I; try discriminate.
  intros _. apply negb_false_iff in Heqb, Heqb0. auto.
Qed.

(** ** One stanza *)

(** What is known when [process_spa_data] acts for the packet [pkt] with
    the stanza [acc]. *)
Definition granted (opts : fko_srv_options) (pkt : spa_pkt_info) (age : Z)
    (acc : acc_stanza) (e : event) : Prop :=
  addresses_match acc pkt /\ in_force acc /\
  validated_call opts age acc (inet_ntop E (packet_src_ip pkt))
    (inet_ntop E (packet_dst_ip pkt)) e.

(** [spadat] holds the addresses of the packet [pkt] as text. *)
Definition addressed (pkt : spa_pkt_info) (sp : spa_data) : Prop :=
  pkt_source_ip sp = inet_ntop E (packet_src_ip pkt) /\
  pkt_destination_ip sp = inet_ntop E (packet_dst_ip pkt).

Lemma addressed_same pkt sp sp' :
  addressed pkt sp -> same_addresses sp sp' -> addressed pkt sp'.
Proof. intros [H1 H2] [H3 H4]. split; congruence. Qed.

(** The call [e], made after the calls [hist], is none that acts for the
    client, or one that has been granted to the stanza [acc] after its
    keys have decrypted the packet. *)
Definition acted (opts : fko_srv_options) (pkt : spa_pkt_info) (age : Z)
    (acc : acc_stanza) (hist : list event) (e : event) : Prop :=
  is_action e = true ->
  granted opts pkt age acc e /\ Exists (decrypted_by acc pkt) hist.

Lemma acted_no_action opts pkt age acc evs :
  Forall no_action evs -> each_after (acted opts pkt age acc) evs.
Proof.
  intros H. apply each_after_Forall. eapply Forall_impl; [exact H|].
  intros e He h Ha. unfold no_action in He. congruence.
Qed.

Lemma acted_tail opts pkt age acc evs hist :
  addresses_match acc pkt -> in_force acc ->
  Forall
    (validated_call opts age acc (inet_ntop E (packet_src_ip pkt))
       (inet_ntop E (packet_dst_ip pkt))) evs ->
  Forall no_action hist -> Exists (decrypted_by acc pkt) hist ->
  each_after (acted opts pkt age acc) (evs ++ hist).
Proof.
  intros Ha Hf Hv Hh Hd. induction Hv as [|e evs He _ IH]; simpl.
  - now apply acted_no_action.
  - split; [|exact IH]. intros _. split; [split; auto|].
    apply Exists_app. now right.
Qed.

Ltac stanza_specs :=
  first
    [ apply handle_rijndael_enc_spec
    | apply handle_gpg_enc_spec
    | apply (traced_hoare is_log);
      first [ apply src_dst_check_spec | apply check_stanza_expiration_spec
            | apply check_mode_ctx_spec ] ].

Lemma process_spa_data_acted opts c acc pkt spadat n rd age :
  addressed pkt spadat ->
  traced (process_spa_data E opts c acc pkt spadat n rd age)
    (fun r evs =>
       each_after (acted opts pkt age acc) evs /\
       forall x, r = Some x -> addressed pkt x.2).
Proof.
  intros Haddr. apply traced_both with (P := fun _ => True).
  2: { eapply hoare_weaken; [apply process_spa_data_frame|auto|].
       intros x Hx. eapply addressed_same; eauto. }
  destruct Haddr as [Hsrc Hdst].
  unfold process_spa_data.
  repeat first
    [ lazymatch goal with
      | |- traced (process_spa_data_validate _ ?o _ ?a _ ?sp _ _ ?g _) _ =>
          eapply traced_weaken;
          [ apply (traced_emits
                     (validated_call o g a (pkt_source_ip sp)
                        (pkt_destination_ip sp)));
            eapply emits_hoare; apply validate_validated
          | intros ? ? ? ]
      end
    | traced_step no_action stanza_specs ].
  all: traced_facts.
  all: try (apply acted_no_action; solve [no_actions]).
  apply negb_false_iff in Heqb, Heqb0, Heqb4, Heqb1. subst.
  destruct (H11 _ eq_refl) as [Hforce Hacc]. simpl in Hforce, Hacc.
  subst a3. rewrite Hsrc, Hdst in H7.
  rewrite <- !app_assoc. apply acted_tail.
  - now apply (H12 _ eq_refl).
  - now apply Hforce.
  - assumption.
  - no_actions.
  - destruct (H8 _ eq_refl eq_refl) as [Hatt Hres].
    destruct (H9 _ _ _ _ eq_refl eq_refl) as [[-> ->]|Hd].
    + specialize (H10 _ _ _ _ eq_refl Hatt Hres). find_call fail.
    + specialize (Hd Hatt Hres). find_call fail.
Qed.

(** ** The policy *)

(** The call [e], made after the calls [hist], is none that acts for the
    client, or one that has been granted to a stanza among [stanzas] after
    its keys have decrypted the packet. *)
Definition acted_in (stanzas : acc_stanza -> Prop) (opts : fko_srv_options)
    (pkt : spa_pkt_info) (age : Z) (hist : list event) (e : event) : Prop :=
  is_action e = true ->
  exists acc,
    stanzas acc /\ granted opts pkt age acc e /\
    Exists (decrypted_by acc pkt) hist.

Lemma acted_in_later stanzas opts pkt age h h' e :
  acted_in stanzas opts pkt age h e ->
  acted_in stanzas opts pkt age (h ++ h') e.
Proof.
  intros H Ha. destruct (H Ha) as (acc & Hs & Hg & Hd).
  exists acc. split; [exact Hs|]. split; [exact Hg|].
  apply Exists_app. now left.
Qed.

Lemma acted_in_no_action stanzas opts pkt age evs :
  Forall no_action evs -> each_after (acted_in stanzas opts pkt age) evs.
Proof.
  intros H. apply each_after_Forall. eapply Forall_impl; [exact H|].
  intros e He h Ha. unfold no_action in He. congruence.
Qed.

Lemma acted_in_app stanzas opts pkt age evs2 evs1 :
  each_after (acted_in stanzas opts pkt age) evs2 ->
  each_after (acted_in stanzas opts pkt age) evs1 ->
  each_after (acted_in stanzas opts pkt age) (evs2 ++ evs1).
Proof. apply each_after_app. intros h h' e. apply acted_in_later. Qed.

Lemma acted_in_one (stanzas : acc_stanza -> Prop) opts pkt age acc evs :
  stanzas acc ->
  each_after (acted opts pkt age acc) evs ->
  each_after (acted_in stanzas opts pkt age) evs.
Proof.
  intros Hs. apply each_after_impl. intros h e He Ha.
  destruct (He Ha) as [Hg Hd]. exists acc. auto.
Qed.

Lemma acted_in_more (S S' : acc_stanza -> Prop) opts pkt age evs :
  (forall acc, S acc -> S' acc) ->
  each_after (acted_in S opts pkt age) evs ->
  each_after (acted_in S' opts pkt age) evs.
Proof.
  intros HS. apply each_after_impl. intros h e He Ha.
  destruct (He Ha) as (acc & Hs & Hg & Hd). exists acc. auto.
Qed.

Ltac acted_lists :=
  rewrite <- ?app_assoc; simpl;
  repeat first
    [ assumption
    | exact I
    | apply acted_in_no_action; solve [no_actions]
    | apply acted_in_app ].

Lemma stanza_loop_acted opts pkt rd age accs :
  forall c spadat n,
    addressed pkt spadat ->
    traced (stanza_loop E opts c accs pkt spadat n rd age)
      (fun _ evs =>
         each_after (acted_in (fun acc => In acc accs) opts pkt age) evs).
Proof.
  induction accs as [|a accs IH]; intros c spadat n Haddr; simpl.
  - apply traced_ret. exact I.
  - eapply traced_bind;
      [ apply process_spa_data_acted; exact Haddr
      | intros [[[v c'] a'] sp'] evs1 [H1 Hfr]
      | intros evs1 [H1 _] ].
    2: { apply (acted_in_one (fun acc => In acc (a :: accs))) in H1;
           [exact H1|now left]. }
    specialize (Hfr _ eq_refl). simpl in Hfr.
    apply (acted_in_one (fun acc => In acc (a :: accs))) in H1; [|now left].
    repeat first
      [ lazymatch goal with
        | |- traced (bind (stanza_loop _ _ _ _ _ _ _ _ _) _) _ =>
            eapply traced_bind;
            [ eapply traced_weaken; [apply IH; exact Hfr|];
              intros r evs He;
              apply (acted_in_more _ (fun acc => In acc (a :: accs))) in He;
              [exact He|intros acc Hin; now right]
            | intros ? ? ?
            | intros ? ? ]
        end
      | traced_step no_action fail ].
    all: cbv beta in *; acted_lists.
Qed.

(** The packet as [preprocess_spa_data] leaves it, and the greatest age
    that the configuration allows. *)
Definition packet_of (opts : fko_srv_options) : spa_pkt_info :=
  (preprocess_spa_data E opts (spa_pkt opts)).2.

Definition max_age (opts : fko_srv_options) : Z :=
  (strtol_wrapper E (config opts CONF_MAX_SPA_PACKET_AGE) 0
     (RCHK_MAX_SPA_PACKET_AGE E)).1.

(** The checks look at the configuration and the test flag only, and at
    the age only when packets age. *)
Lemma checked_transfer opts opts' age age' acc src dst sp :
  config opts' = config opts ->
  (conf_is opts CONF_ENABLE_SPA_PACKET_AGING "Y" = true -> age = age') ->
  checked opts' age acc src dst sp -> checked opts age' acc src dst sp.
Proof.
  intros Hc Hage [H1 H2 H3 H4 H5 H6 H7 H8 H9].
  unfold fresh, nat_enabled, legacy_denied, conf_is in *.
  rewrite Hc in *. constructor; auto.
  intros Hon. rewrite <- (Hage Hon). auto.
Qed.

Lemma granted_transfer opts opts' pkt age age' acc e :
  config opts' = config opts -> test opts' = test opts ->
  (conf_is opts CONF_ENABLE_SPA_PACKET_AGING "Y" = true -> age = age') ->
  granted opts' pkt age acc e -> granted opts pkt age' acc e.
Proof.
  intros Hc Ht Hage (Ha & Hf & Hv).
  split; [exact Ha|]. split; [exact Hf|].
  pose proof (checked_transfer opts opts' age age' acc
                (inet_ntop E (packet_src_ip pkt))
                (inet_ntop E (packet_dst_ip pkt))) as Hchk.
  unfold validated_call, request_ok, command_checked, command_call,
    command_ok, built in *.
  destruct e; auto; rewrite <- ?Ht.
  - destruct Hv as (-> & Htest & Hcyc & Hm & Hacl & Hv). auto 10.
  - destruct Hv as (-> & Hcyc & Hv). auto.
  - destruct Hv as (Hcyc & sp & Hcmd & Hm & Hv).
    split; [exact Hcyc|]. exists sp. rewrite Hc in Hcmd. auto.
  - destruct Hv as (Hcyc & sp & Hcmd & Hm & Hv).
    split; [exact Hcyc|]. exists sp. rewrite Hc in Hcmd. auto.
Qed.

(** [preprocess_spa_data] leaves the addresses of the packet alone. *)
Lemma preprocess_addresses opts sp :
  addressed (preprocess_spa_data E opts (spa_pkt opts)).2
    (set_pkt_destination_ip (inet_ntop E (packet_dst_ip (spa_pkt opts)))
       (set_pkt_source_ip (inet_ntop E (packet_src_ip (spa_pkt opts)))
          (set_service_data_list None sp))).
Proof.
  unfold addressed, preprocess_spa_data. cbv zeta.
  repeat match goal with
         | |- context [if ?b then _ else _] => destruct b
         | |- context [let '(_, _) := ?x in _] => destruct x
         end; simpl; split; reflexivity.
Qed.

(** [precheck_pkt] writes to the log and, in the foreground, dumps the
    packet. *)
Definition is_output (e : event) : Prop :=
  match e with EvLog _ _ | EvHexDump _ _ => True | _ => False end.

Lemma precheck_pkt_spec opts pkt sp :
  hoare is_output (precheck_pkt E opts pkt sp)
    (fun r => r = (is_success (preprocess_spa_data E opts pkt).1,
                   (preprocess_spa_data E opts pkt).2)).
Proof.
  unfold precheck_pkt.
  destruct (preprocess_spa_data E opts pkt) as [res pkt'].
  hoare_auto fail; try exact I.
  all: simpl; destruct (is_success res); first [reflexivity|discriminate].
Qed.

Ltac precheck_spec :=
  eapply hoare_weaken;
  [ apply precheck_pkt_spec
  | intros []; simpl; intros; first [contradiction|reflexivity|exact I]
  | exact (fun _ H => H) ].

Lemma sdp_id_check_spec opts pkt acc :
  hoare is_log (sdp_id_check E opts pkt acc)
    (fun r => r.1 = true ->
              r.2 = acc_stanza_hash_tbl opts !! sdp_id_str pkt /\
              is_Some r.2 /\ sdp_id pkt <> 0).
Proof.
  unfold sdp_id_check. hoare_auto fail; try exact I; simpl;
    try discriminate.
  intros _. apply Z.eqb_neq in Heqb. eauto.
Qed.

(** The policy that the server answers the packet [pkt] from: every stanza
    in the order of the file, or, with identities, the one stanza that the
    hash table has for the identity in the packet, which is not 0. *)
Definition policy (opts : fko_srv_options) (pkt : spa_pkt_info)
    (acc : acc_stanza) : Prop :=
  if conf_is opts CONF_DISABLE_SDP_MODE "Y" then In acc (acc_stanzas opts)
  else sdp_id pkt <> 0 /\
       acc_stanza_hash_tbl opts !! sdp_id_str pkt = Some acc.

(** What is known whenever [incoming_spa] acts for the packet it is handed
    in [opts]: the call [e] is made for a stanza of the policy, after the
    keys of that stanza have decrypted the packet and every check has
    passed. *)
Definition served (opts : fko_srv_options) (hist : list event) (e : event)
  : Prop :=
  acted_in (policy opts (packet_of opts)) opts (packet_of opts)
    (max_age opts) hist e.

Lemma served_transfer opts opts' (S : acc_stanza -> Prop) age evs :
  config opts' = config opts -> test opts' = test opts ->
  (conf_is opts CONF_ENABLE_SPA_PACKET_AGING "Y" = true ->
   age = max_age opts) ->
  (forall acc, S acc -> policy opts (packet_of opts) acc) ->
  each_after (acted_in S opts' (packet_of opts) age) evs ->
  each_after (served opts) evs.
Proof.
  intros Hc Ht Hage HS. apply each_after_impl. intros h e He Ha.
  destruct (He Ha) as (acc & Hs & Hg & Hd). exists acc.
  split; [auto|]. split; [|exact Hd].
  eapply granted_transfer; [| | |exact Hg]; auto.
Qed.

Lemma incoming_spa_served opts spadat :
  traced (incoming_spa E opts spadat)
    (fun _ evs => each_after (served opts) evs).
Proof.
  unfold incoming_spa.
  eapply traced_bind with
    (R1 := fun _ evs => each_after (served opts) evs).
  2: { intros [c o] evs1 H1. repeat traced_step no_action fail.
       all: cbv beta in *; unfold served in *; acted_lists. }
  2: { auto. }
  unfold incoming_spa_body.
  repeat first
    [ lazymatch goal with
      | |- traced (bind (precheck_pkt _ _ _ _) _) _ =>
          eapply traced_bind;
          [ apply (traced_hoare no_action); precheck_spec
          | intros ? ? ? | intros ? ? ]
      | |- traced (bind (if ?b then _ else sdp_id_check _ _ _ _) _) _ =>
          destruct b eqn:Hmode; cbv beta iota
      | |- traced (bind (sdp_id_check _ _ _ _) _) _ =>
          eapply traced_bind;
          [ apply (traced_hoare is_log), sdp_id_check_spec
          | intros ? ? ? | intros ? ? ]
      | |- traced (bind (stanza_loop _ _ _ _ _ _ _ _ _) _) _ =>
          eapply traced_bind;
          [ apply stanza_loop_acted | intros ? ? ? | intros ? ? ]
      | |- traced (bind (process_spa_data _ _ _ _ _ _ _ _ _) _) _ =>
          eapply traced_bind;
          [ apply process_spa_data_acted | intros ? ? ? | intros ? ? ]
      end
    | traced_step no_action fail ].
  all: try match goal with
           | |- addressed _ _ => shelve
           end.
  all: traced_facts.
  all: try match goal with
           | H : forall a, Some (_, ?s) = Some a -> a = _ |- _ =>
               specialize (H _ eq_refl); injection H as -> ->
           end.
  all: fold (packet_of opts) in *.
  all: unfold served; acted_lists.
  all: try match goal with
           | H : each_after (acted _ _ _ ?a) ?l |- each_after _ ?l =>
               apply (acted_in_one (eq a)) in H; [|reflexivity]
           end.
  all: match goal with
       | H : each_after _ ?l |- each_after _ ?l =>
           eapply (served_transfer opts); [| | | |exact H]
       end.
  all: try reflexivity.
  all: change (conf_is (set_spa_pkt (packet_of opts) opts))
         with (conf_is opts) in *.
  all: change (config (set_spa_pkt (packet_of opts) opts))
         with (config opts) in *.
  all: try (intros Hon;
            first [ congruence
                  | unfold max_age;
                    match goal with
                    | H : strtol_wrapper _ _ _ _ = _ |- _ => now rewrite H
                    end ]).
  all: intros acc Hin; unfold policy; rewrite Hmode; try exact Hin.
  all: subst acc; apply negb_false_iff in Heqb2; subst.
  all: match goal with
       | H : forall a, Some (true, _) = Some a -> _ |- _ =>
           destruct (H _ eq_refl eq_refl) as (Htbl & _ & Hid)
       end.
  all: split; [exact Hid|symmetry; exact Htbl].
  Unshelve.
  all: traced_facts.
  all: match goal with
       | H : forall a, Some (_, ?s) = Some a -> a = _ |- _ =>
           specialize (H _ eq_refl); injection H as -> ->
       end.
  all: apply preprocess_addresses.
Qed.

(** Every call that acts for the client in a run of [incoming_spa] from a
    world without calls, with the calls [pre] made before it. *)
Lemma actions_served opts spadat cache pre e post :
  trace (incoming_spa E opts spadat (mk_world cache [])).2 =
    pre ++ e :: post ->
  served opts (rev pre) e.
Proof.
  intros Ht.
  destruct (traced_run _ _ cache (incoming_spa_served opts spadat))
    as (evs & Hev & H).
  rewrite Hev in Ht. exact (each_after_split _ _ _ _ _ H Ht).
Qed.

(** The same on the calls as the world lists them, the newest first. *)
Lemma calls_served opts spadat cache :
  each_after (served opts)
    (events (incoming_spa E opts spadat (mk_world cache [])).2).
Proof. exact (traced_events _ _ cache (incoming_spa_served opts spadat)). Qed.

(** [preprocess_spa_data] writes the data, its length and the identity of
    the packet, nothing else. *)
Lemma preprocess_frame opts pkt :
  let pkt' := (preprocess_spa_data E opts pkt).2 in
  packet_proto pkt' = packet_proto pkt /\
  packet_src_ip pkt' = packet_src_ip pkt /\
  packet_dst_ip pkt' = packet_dst_ip pkt /\
  packet_src_port pkt' = packet_src_port pkt /\
  packet_dst_port pkt' = packet_dst_port pkt.
Proof.
  unfold preprocess_spa_data. cbv zeta.
  repeat match goal with
         | |- context [if ?b then _ else _] => destruct b
         | |- context [let '(_, _) := ?x in _] => destruct x
         end; simpl; repeat split; reflexivity.
Qed.

End Granted.
(** * What a run of [incoming_spa] guarantees *)

Section Guarantees.
Context {ctx : Type}.
Variable E : Externs ctx.

(** A property of the calls that act for the client follows from what is
    known whenever [incoming_spa] acts. *)
Lemma served_calls opts spadat cache (Q : event -> Prop) :
  (forall e hist, is_action e = true -> served E opts hist e -> Q e) ->
  (forall e, is_action e = false -> Q e) ->
  Forall Q (trace (incoming_spa E opts spadat (mk_world cache [])).2).
Proof.
  intros Hact Hrest. apply Forall_forall. intros e Hin.
  apply list_elem_of_split in Hin as (pre & post & Ht).
  destruct (is_action e) eqn:Ha; [|auto].
  apply (Hact e (rev pre) Ha). eapply actions_served. exact Ht.
Qed.

(** The facts about the stanza and the message of a call that acts. *)
Ltac served_facts :=
  apply served_calls;
  [ intros e hist Ha Hs;
    destruct (Hs Ha) as (acc0 & Hpol & (Haddr & Hforce & Hv) & Hdec);
    destruct e; try discriminate Ha; simpl in Hv |-*
  | intros []; simpl; intros; first [exact I|discriminate] ].

(** The stanza and the message that a call for the firewall is made
    with: [process_spa_request] and [cmd_cycle_open] are handed both. *)
Definition for_request (Q : acc_stanza -> spa_data -> Prop) (e : event)
  : Prop :=
  match e with
  | EvProcessSpaRequest acc sp | EvCmdCycleOpen acc sp _ => Q acc sp
  | _ => True
  end.

Lemma requests_checked opts spadat cache (Q : acc_stanza -> spa_data -> Prop) :
  (forall acc sp,
      policy opts (packet_of E opts) acc ->
      addresses_match E acc (packet_of E opts) -> in_force E acc ->
      checked E opts (max_age E opts) acc
        (inet_ntop E (packet_src_ip (packet_of E opts)))
        (inet_ntop E (packet_dst_ip (packet_of E opts))) sp ->
      Q acc sp) ->
  Forall (for_request Q)
    (trace (incoming_spa E opts spadat (mk_world cache [])).2).
Proof.
  intros HQ. served_facts; try exact I.
  - destruct Hv as (-> & _ & _ & _ & _ & Hc). auto.
  - destruct Hv as (-> & _ & Hc). auto.
Qed.

(** X1. A firewall request is only made for a stanza that lists the source
    address of the packet and, if it lists destinations, its destination
    address. *)
Theorem request_stanza_lists_addresses opts spadat cache :
  let pkt := packet_of E opts in
  Forall
    (for_request
       (fun acc _ =>
          compare_addr_list E (source_list acc)
            (ntohl E (packet_src_ip pkt)) = true /\
          forall dl,
            destination_list acc = Some dl ->
            compare_addr_list E dl (ntohl E (packet_dst_ip pkt)) = true))
    (trace (incoming_spa E opts spadat (mk_world cache [])).2).
Proof. intros pkt. apply requests_checked. auto. Qed.

(** X2. A firewall request is only made for a stanza that is in force: one
    without expiry date, or one that was not marked expired and whose
    expiry date is not behind the clock. *)
Theorem request_stanza_in_force opts spadat cache :
  Forall
    (for_request
       (fun acc _ =>
          access_expire_time acc > 0 ->
          expired acc = false /\ time_now E <= access_expire_time acc))
    (trace (incoming_spa E opts spadat (mk_world cache [])).2).
Proof. apply requests_checked. auto. Qed.

(** X3. The stanza of a firewall request comes from the policy: in classic
    mode (DISABLE_SDP_MODE says Y) it is one of the stanzas of the access
    file; with identities it is the entry that the hash table has for the
    identity of the packet, and that identity is not 0. *)
Theorem request_stanza_from_policy opts spadat cache :
  let pkt := packet_of E opts in
  Forall
    (for_request
       (fun acc _ =>
          if conf_is opts CONF_DISABLE_SDP_MODE "Y"
          then In acc (acc_stanzas opts)
          else sdp_id pkt <> 0 /\
               acc_stanza_hash_tbl opts !! sdp_id_str pkt = Some acc))
    (trace (incoming_spa E opts spadat (mk_world cache [])).2).
Proof. intros pkt. apply requests_checked. auto. Qed.

(** X4. A firewall request carries the source address of the packet as
    text in [pkt_source_ip]; the address that it grants access to is the
    one in the message, or that source address if the message says
    0.0.0.0; and a stanza that requires a source address gets no request
    for a message that says 0.0.0.0. *)
Theorem request_source_address opts spadat cache :
  Forall
    (for_request
       (fun acc sp =>
          let any := strcmp (spa_message_src_ip sp) "0.0.0.0" =? 0 in
          pkt_source_ip sp = inet_ntop E (packet_src_ip (spa_pkt opts)) /\
          use_src_ip sp =
            (if any then pkt_source_ip sp else spa_message_src_ip sp) /\
          (require_source_address acc = true -> any = false)))
    (trace (incoming_spa E opts spadat (mk_world cache [])).2).
Proof.
  apply requests_checked. intros acc sp _ _ _ Hc.
  destruct (preprocess_frame E opts (spa_pkt opts)) as (_ & Hsrc & _).
  fold (packet_of E opts) in Hsrc. cbv zeta. rewrite <- Hsrc.
  split; [apply (c_src _ _ _ _ _ _ _ Hc)|].
  split; [apply (c_use_src _ _ _ _ _ _ _ Hc)|apply (c_source _ _ _ _ _ _ _ Hc)].
Qed.

(** X5. The message of a firewall request has the form "address,request":
    it holds a comma, the text before the first comma is as long as an
    IPv4 address can be and is a valid one, and [spa_message_src_ip] and
    [spa_message_remain] are the text before and after that comma, cut to
    their buffers. *)
Theorem request_message_parsed opts spadat cache :
  Forall
    (for_request
       (fun _ sp =>
          exists k,
            strchr (spa_message sp) "," = Some k /\
            MIN_IPV4_STR_LEN E - 1 <= Z.of_nat k <= MAX_IPV4_STR_LEN E /\
            spa_message_src_ip sp = strlcpy (spa_message sp) (k + 1) /\
            spa_message_remain sp =
              strlcpy (str_drop (k + 1) (spa_message sp))
                (MAX_DECRYPTED_SPA_LEN E) /\
            is_valid_ipv4_addr E (spa_message_src_ip sp) = true))
    (trace (incoming_spa E opts spadat (mk_world cache [])).2).
Proof.
  apply requests_checked. intros acc sp _ _ _ Hc.
  exact (c_parsed _ _ _ _ _ _ _ Hc).
Qed.

(** X6. In classic mode, a stanza that requires a user name gets a
    firewall request only for a message with that user name. *)
Theorem request_username opts spadat cache :
  Forall
    (for_request
       (fun acc sp =>
          conf_is opts CONF_DISABLE_SDP_MODE "Y" = true ->
          forall required,
            require_username acc = Some required ->
            strcmp (username sp) required = 0))
    (trace (incoming_spa E opts spadat (mk_world cache [])).2).
Proof.
  apply requests_checked. intros acc sp _ _ _ Hc.
  exact (c_user _ _ _ _ _ _ _ Hc).
Qed.

(** X7. With packet aging enabled, the time stamp of the message of a
    firewall request is within MAX_SPA_PACKET_AGE seconds of the clock. *)
Theorem request_fresh opts spadat cache :
  Forall
    (for_request
       (fun _ sp =>
          conf_is opts CONF_ENABLE_SPA_PACKET_AGING "Y" = true ->
          int_of_long (Z.abs (time_now E - timestamp sp)) <=
          (strtol_wrapper E (config opts CONF_MAX_SPA_PACKET_AGE) 0
             (RCHK_MAX_SPA_PACKET_AGE E)).1))
    (trace (incoming_spa E opts spadat (mk_world cache [])).2).
Proof.
  apply requests_checked. intros acc sp _ _ _ Hc.
  exact (c_fresh _ _ _ _ _ _ _ Hc).
Qed.

(** X8. A firewall request for a NAT message is only made when the
    forwarding of the firewall is enabled in the configuration, and one for
    a local NAT message when local NAT is; a server built without firewall
    makes neither. *)
Theorem request_nat_enabled opts spadat cache :
  Forall
    (for_request
       (fun _ sp =>
          let mt := message_type sp in
          (mt = FKO_NAT_ACCESS_MSG \/
           mt = FKO_CLIENT_TIMEOUT_NAT_ACCESS_MSG ->
           match FIREWALL E with
           | FIREWALL_FIREWALLD =>
               conf_is opts CONF_ENABLE_FIREWD_FORWARDING "Y" = true
           | FIREWALL_IPTABLES =>
               conf_is opts CONF_ENABLE_IPT_FORWARDING "Y" = true
           | FIREWALL_NONE => False
           end) /\
          (mt = FKO_LOCAL_NAT_ACCESS_MSG \/
           mt = FKO_CLIENT_TIMEOUT_LOCAL_NAT_ACCESS_MSG ->
           match FIREWALL E with
           | FIREWALL_FIREWALLD =>
               conf_is opts CONF_ENABLE_FIREWD_LOCAL_NAT "Y" = true
           | FIREWALL_IPTABLES =>
               conf_is opts CONF_ENABLE_IPT_LOCAL_NAT "Y" = true
           | FIREWALL_NONE => False
           end)))
    (trace (incoming_spa E opts spadat (mk_world cache [])).2).
Proof.
  apply requests_checked. intros acc sp _ _ _ Hc.
  exact (c_nat _ _ _ _ _ _ _ Hc).
Qed.

(** X9. [process_spa_request] is only called for a request that the
    access list of the stanza allows: a service access message for
    services that [acc_check_service_access] accepts, with the list of
    services that [get_service_data_list] finds for them in
    [service_data_list]; any other message for ports that
    [acc_check_port_access] accepts. *)
Theorem request_access_list opts spadat cache :
  Forall
    (fun e =>
       match e with
       | EvProcessSpaRequest acc sp =>
           let remain := spa_message_remain sp in
           let mt := message_type sp in
           if bool_decide (mt = FKO_SERVICE_ACCESS_MSG)
              || bool_decide (mt = FKO_CLIENT_TIMEOUT_SERVICE_ACCESS_MSG)
           then
             acc_check_service_access E acc remain = true /\
             is_success (get_service_data_list E remain).1 = true /\
             service_data_list sp =
               Some (get_service_data_list E remain).2
           else acc_check_port_access E acc remain = true
       | _ => True
       end)
    (trace (incoming_spa E opts spadat (mk_world cache [])).2).
Proof.
  served_facts; try exact I.
  destruct Hv as (-> & _ & _ & _ & Hacl & _). exact Hacl.
Qed.

(** X10. Which call a stanza gets: [process_spa_request] is only called
    for a stanza without command cycle and for a message that is not a
    command, and, when ALLOW_LEGACY_ACCESS_REQUESTS says N, only for a
    service access message; [cmd_cycle_open] is only called for a stanza
    with a command cycle. *)
Theorem request_kind opts spadat cache :
  Forall
    (fun e =>
       match e with
       | EvProcessSpaRequest acc sp =>
           let mt := message_type sp in
           cmd_cycle_open acc = None /\ mt <> FKO_COMMAND_MSG /\
           (conf_is opts CONF_ALLOW_LEGACY_ACCESS_REQUESTS "N" = true ->
            mt = FKO_SERVICE_ACCESS_MSG \/
            mt = FKO_CLIENT_TIMEOUT_SERVICE_ACCESS_MSG)
       | EvCmdCycleOpen acc _ _ => cmd_cycle_open acc <> None
       | _ => True
       end)
    (trace (incoming_spa E opts spadat (mk_world cache [])).2).
Proof.
  served_facts; try exact I.
  - destruct Hv as (-> & _ & Hcyc & Hm & _ & Hc).
    split; [exact Hcyc|]. split; [exact Hm|]. intros HN.
    destruct (c_legacy _ _ _ _ _ _ _ Hc HN) as [Hl|Hl]; [|contradiction].
    unfold is_service in Hl. apply orb_true_iff in Hl as [Hl|Hl];
      apply bool_decide_eq_true in Hl; auto.
  - destruct Hv as (-> & [x Hx] & _). congruence.
Qed.

(** X11. In test mode the firewall is not asked for access and no command
    is run. *)
Theorem test_mode_no_action opts spadat cache :
  Forall
    (fun e =>
       match e with
       | EvProcessSpaRequest _ _ | EvRunExtcmd _ _ | EvRunExtcmdAs _ _ _ =>
           test opts = false
       | _ => True
       end)
    (trace (incoming_spa E opts spadat (mk_world cache [])).2).
Proof.
  served_facts; try exact I.
  - destruct Hv as (_ & Ht & _). exact Ht.
  - destruct Hv as (_ & sp & (_ & _ & _ & Ht & _) & _). exact Ht.
  - destruct Hv as (_ & sp & (_ & _ & Ht & _) & _). exact Ht.
Qed.

(** X12. A command is only run for a command message that has passed the
    checks of a stanza of the policy that enables command execution and
    has no command cycle; it is run by [run_extcmd_as] with the uid and
    gid of the stanza if the stanza names a user other than root to run
    commands as, and by [run_extcmd] with a timeout of 5 otherwise. *)
Theorem command_run_for_stanza opts spadat cache :
  let pkt := packet_of E opts in
  let enabled acc :=
    policy opts pkt acc /\ enable_cmd_exec acc = true /\
    cmd_cycle_open acc = None in
  let as_user acc :=
    match cmd_exec_user acc with
    | Some user => negb (strncasecmp user "root" 4 =? 0)
    | None => false
    end in
  Forall
    (fun e =>
       match e with
       | EvRunExtcmd cmd timeout =>
           timeout = 5 /\ exists acc, enabled acc /\ as_user acc = false
       | EvRunExtcmdAs uid gid cmd =>
           exists acc,
             enabled acc /\ as_user acc = true /\
             uid = cmd_exec_uid acc /\ gid = cmd_exec_gid acc
       | _ => True
       end)
    (trace (incoming_spa E opts spadat (mk_world cache [])).2).
Proof.
  intros pkt enabled as_user. served_facts; try exact I.
  - destruct Hv as (Hcyc & sp & (Ht & Hr & Hen & _) & _).
    split; [exact Ht|]. exists acc0. split; [repeat split; assumption|].
    unfold runs_as in Hr. unfold as_user.
    destruct (cmd_exec_user acc0); [|reflexivity].
    destruct (negb _); [discriminate|reflexivity].
  - destruct Hv as (Hcyc & sp & (Hr & Hen & _) & _).
    exists acc0. split; [repeat split; assumption|].
    unfold runs_as in Hr. unfold as_user.
    destruct (cmd_exec_user acc0); [|discriminate].
    destruct (negb _); [|discriminate].
    injection Hr as <- <-. auto.
Qed.

(** X14. Every call that acts for the client comes after a decryption of
    the packet that has succeeded with the keys of the stanza it acts
    for: [process_spa_request] and [cmd_cycle_open] with the keys of the
    stanza they are handed, a command with the keys of a stanza of the
    policy that enables command execution.  The calls are listed the
    newest first, [hist] being the calls made before [e]. *)
Theorem action_after_decryption opts spadat cache :
  let pkt := packet_of E opts in
  each_after
    (fun hist e =>
       match e with
       | EvProcessSpaRequest acc _ | EvCmdCycleOpen acc _ _ =>
           Exists (decrypted_by E acc pkt) hist
       | EvRunExtcmd _ _ | EvRunExtcmdAs _ _ _ =>
           exists acc,
             policy opts pkt acc /\ enable_cmd_exec acc = true /\
             Exists (decrypted_by E acc pkt) hist
       | _ => True
       end)
    (events (incoming_spa E opts spadat (mk_world cache [])).2).
Proof.
  intros pkt. eapply each_after_impl; [|apply calls_served].
  intros hist e Hs. destruct e; try exact I.
  all: destruct (Hs eq_refl) as (acc0 & Hpol & (_ & _ & Hv) & Hdec);
    simpl in Hv.
  - destruct Hv as (-> & _). exact Hdec.
  - destruct Hv as (-> & _). exact Hdec.
  - destruct Hv as (_ & sp & (_ & _ & Hen & _) & _). exists acc0. auto.
  - destruct Hv as (_ & sp & (_ & Hen & _) & _). exists acc0. auto.
Qed.

End Guarantees.
(** * The command line that is run *)

Section CommandLine.
Context {ctx : Type}.
Variable E : Externs ctx.

Definition is_command (e : event) : bool :=
  match e with
  | EvRunExtcmd _ _ | EvRunExtcmdAs _ _ _ => true
  | _ => false
  end.

Definition no_command (e : event) : Prop := is_command e = false.

(** What is known of a command that [process_spa_data] runs for the stanza
    [acc], given what the function answers in the end: the context and the
    message [sp] that it leaves to its caller are the ones that the
    command line [cmd] was built from. *)
Definition command_from (opts : fko_srv_options) (acc : acc_stanza)
    (r : option (@psd_result ctx)) (cmd : string) : Prop :=
  exists v c sp k,
    r = Some (v, c, acc, sp) /\
    spa_message sp = (fko_get_spa_message E c).2 /\
    message_type sp = FKO_COMMAND_MSG /\
    strchr (spa_message sp) "," = Some k /\
    spa_message_remain sp =
      strlcpy (str_drop (k + 1) (spa_message sp))
        (MAX_DECRYPTED_SPA_LEN E) /\
    built E opts acc sp cmd.

Definition ran (opts : fko_srv_options) (acc : acc_stanza)
    (r : option (@psd_result ctx)) (e : event) : Prop :=
  match e with
  | EvRunExtcmd cmd _ | EvRunExtcmdAs _ _ cmd => command_from opts acc r cmd
  | _ => True
  end.

(** The same for the last part of the function, which is handed the
    context [c] and the message [sp]. *)
Definition ran_for (opts : fko_srv_options) (acc : acc_stanza)
    (c : option ctx) (sp : spa_data) (r : option (@psd_result ctx))
    (e : event) : Prop :=
  match e with
  | EvRunExtcmd cmd _ | EvRunExtcmdAs _ _ cmd =>
      (exists v, r = Some (v, c, acc, sp)) /\
      message_type sp = FKO_COMMAND_MSG /\ built E opts acc sp cmd
  | _ => True
  end.

Lemma no_command_ran_for opts acc c sp r evs :
  Forall no_command evs -> Forall (ran_for opts acc c sp r) evs.
Proof.
  intros H. eapply Forall_impl; [exact H|].
  intros []; simpl; first [exact (fun _ => I)|discriminate].
Qed.

Lemma no_command_ran opts acc r evs :
  Forall no_command evs -> Forall (ran opts acc r) evs.
Proof.
  intros H. eapply Forall_impl; [exact H|].
  intros []; simpl; first [exact (fun _ => I)|discriminate].
Qed.

Lemma log_no_command evs : Forall is_log evs -> Forall no_command evs.
Proof.
  intros H. eapply Forall_impl; [exact H|].
  intros []; simpl; intros []; reflexivity.
Qed.

(** A run of [process_cmd_msg] that does not get to its end has run no
    command. *)
Lemma process_cmd_msg_defined opts acc sp n res :
  traced (process_cmd_msg E opts acc sp n res)
    (fun r evs => r = None -> Forall no_command evs).
Proof.
  unfold process_cmd_msg.
  repeat traced_exec_step.
  all: first [discriminate|intros _; repeat constructor].
Qed.

Lemma traced_and {A} (m : M A) (R R' : option A -> list event -> Prop) :
  traced m R -> traced m R' -> traced m (fun r evs => R r evs /\ R' r evs).
Proof.
  intros H H' w. destruct (H w) as (evs & He & Hc & Hr).
  destruct (H' w) as (evs' & He' & _ & Hr').
  rewrite He in He'. apply app_inv_tail in He'. subst evs'.
  exists evs. auto.
Qed.

Lemma process_cmd_msg_command opts acc sp n res :
  traced (process_cmd_msg E opts acc sp n res)
    (fun r evs =>
       Forall (command_call E opts acc sp) evs /\
       (r = None -> Forall no_command evs)).
Proof.
  apply traced_and; [|apply process_cmd_msg_defined].
  eapply traced_weaken;
    [apply (traced_hoare _ _ _ (process_cmd_msg_calls E opts acc sp n res))|].
  intros r evs [H _]. exact H.
Qed.

Lemma command_call_ran_for opts c acc sp v evs :
  message_type sp = FKO_COMMAND_MSG ->
  Forall (command_call E opts acc sp) evs ->
  Forall (ran_for opts acc c sp (Some (v, c, acc, sp))) evs.
Proof.
  intros Hm H. eapply Forall_impl; [exact H|].
  intros []; simpl; try exact (fun _ => I).
  - intros (_ & _ & _ & _ & Hb). eauto.
  - intros (_ & _ & _ & Hb). eauto.
Qed.

Ltac ran_for_list :=
  cbn [app]; rewrite ?app_nil_r;
  repeat first
    [ apply List.Forall_nil
    | apply Forall_app; split
    | apply no_command_ran_for; assumption
    | apply no_command_ran_for, log_no_command; assumption ].

Lemma dispatch_command opts c acc sp n mt res :
  traced (process_spa_data_dispatch E opts c acc sp n mt res)
    (fun r evs => Forall (ran_for opts acc c sp r) evs).
Proof.
  unfold process_spa_data_dispatch.
  repeat first
    [ lazymatch goal with
      | |- traced (bind (process_cmd_msg _ _ _ _ _ _) _) _ =>
          eapply traced_bind;
          [ apply process_cmd_msg_command
          | intros ? ? [? ?] | intros ? [? ?] ]
      end
    | traced_step no_command fail ].
  all: cbv beta in *.
  all: try solve [ran_for_list].
  all: try (apply bool_decide_eq_true in Heqb).
  all: try solve [cbn [app]; apply command_call_ran_for; assumption].
  apply no_command_ran_for. auto.
Qed.

(** [check_src_access] and the helpers before it leave the message and the
    command as they were read. *)
Ltac command_specs :=
  eapply (hoare_weaken is_log);
  [ apply check_src_access_spec
  | intros []; simpl; intros; first [contradiction|reflexivity]
  | exact (fun _ H => H) ].

Lemma ran_for_ran opts acc c sp r k evs :
  spa_message sp = (fko_get_spa_message E c).2 ->
  strchr (spa_message sp) "," = Some k ->
  spa_message_remain sp =
    strlcpy (str_drop (k + 1) (spa_message sp)) (MAX_DECRYPTED_SPA_LEN E) ->
  Forall (ran_for opts acc c sp r) evs -> Forall (ran opts acc r) evs.
Proof.
  intros Hm Hk Hr H. eapply Forall_impl; [exact H|].
  intros []; simpl; try exact (fun _ => I).
  all: intros ([v ->] & Ht & Hb); exists v, c, sp, k; auto 10.
Qed.

Ltac ran_list :=
  cbn [app]; rewrite ?app_nil_r;
  repeat first
    [ apply List.Forall_nil
    | apply Forall_app; split
    | apply no_command_ran; assumption
    | apply no_command_ran, log_no_command; assumption ].

Lemma validate_command opts c acc pkt spadat n enc age res :
  traced (process_spa_data_validate E opts c acc pkt spadat n enc age res)
    (fun r evs => Forall (ran opts acc r) evs).
Proof.
  unfold process_spa_data_validate.
  pose proof (get_spa_data_fields_read E c spadat) as Hread.
  cbv zeta in Hread.
  repeat first
    [ lazymatch goal with
      | |- traced (process_spa_data_dispatch _ _ _ _ _ _ _ _) _ =>
          eapply traced_weaken; [apply dispatch_command|intros ? ? ?]
      | |- traced (bind (check_src_access _ _ _) _) _ =>
          eapply traced_bind;
          [ apply (traced_hoare no_command); command_specs
          | intros ? ? [? ?] | intros ? [? ?] ]
      end
    | traced_step no_command fail ].
  all: cbv beta in *.
  all: try solve [ran_list].
  apply negb_false_iff in Heqb2, Heqb6. subst b0.
  destruct (H4 _ eq_refl) as [_ Hs5]. simpl in Hs5, Hread.
  destruct Hread as [Hread _]. destruct (Hread Heqb2) as (_ & _ & _ & Hmsg).
  destruct (set_timeout_frame E acc s4) as (_ & _ & _ & Hto & _).
  repeat (apply Forall_app; split); try solve [ran_list].
  apply (ran_for_ran opts acc c s5 r n0); [| | |exact H7].
  all: subst s5; simpl in *; congruence.
Qed.

Lemma process_spa_data_command opts c acc pkt spadat n rd age :
  traced (process_spa_data E opts c acc pkt spadat n rd age)
    (fun r evs => Forall (ran opts acc r) evs).
Proof.
  unfold process_spa_data.
  repeat first
    [ lazymatch goal with
      | |- traced (process_spa_data_validate _ _ _ _ _ _ _ _ _ _) _ =>
          eapply traced_weaken; [apply validate_command|intros ? ? ?]
      | |- traced (bind (check_stanza_expiration _ _ _ _) _) _ =>
          eapply traced_bind;
          [ apply (traced_hoare no_command);
            eapply (hoare_weaken is_log);
            [ apply check_stanza_expiration_spec
            | intros []; simpl; intros; first [contradiction|reflexivity]
            | exact (fun _ H => H) ]
          | intros ? ? [? ?] | intros ? [? ?] ]
      end
    | traced_step no_command fail ].
  all: cbv beta in *.
  all: try solve [ran_list].
  apply negb_false_iff in Heqb0. subst b.
  destruct (H3 _ eq_refl) as [_ Ha3]. simpl in Ha3. subst a3.
  repeat (apply Forall_app; split); solve [assumption|ran_list].
Qed.

(** X13. A command line that [process_spa_data] runs for a stanza is built
    from the message that the function leaves to its caller in [spadat],
    next to the context it was read from: [spa_message] is the message of
    that context, it is a command message, and [spa_message_remain] is
    the text after its first comma cut to MAX_DECRYPTED_SPA_LEN.  The
    command line fits the buffer of MAX_SPA_CMD_LEN bytes.  For a stanza
    without sudo it is [spa_message_remain] cut to that buffer; for a
    stanza with sudo it is a head that starts with the sudo executable of
    the configuration, to which [strlcat] has appended a space and then
    [spa_message_remain]. *)
Theorem command_line_built opts c acc pkt spadat n rd age cache :
  let siz := MAX_SPA_CMD_LEN E in
  let run := process_spa_data E opts c acc pkt spadat n rd age
               (mk_world cache []) in
  Forall
    (fun e =>
       match e with
       | EvRunExtcmd cmd _ | EvRunExtcmdAs _ _ cmd =>
           exists v c' sp k,
             run.1 = Some (v, c', acc, sp) /\
             spa_message sp = (fko_get_spa_message E c').2 /\
             message_type sp = FKO_COMMAND_MSG /\
             strchr (spa_message sp) "," = Some k /\
             spa_message_remain sp =
               strlcpy (str_drop (k + 1) (spa_message sp))
                 (MAX_DECRYPTED_SPA_LEN E) /\
             (String.length cmd <= siz - 1)%nat /\
             if enable_cmd_sudo_exec acc then
               exists head rest,
                 head = strlcpy (config opts CONF_SUDO_EXE) siz +:+ rest /\
                 cmd = strlcat (strlcat head " " siz)
                         (spa_message_remain sp) siz
             else cmd = strlcpy (spa_message_remain sp) siz
       | _ => True
       end)
    (trace run.2).
Proof.
  intros siz run.
  destruct (traced_run _ _ cache
              (process_spa_data_command opts c acc pkt spadat n rd age))
    as (evs & Ht & Hr).
  fold run in Ht, Hr. rewrite Ht. apply Forall_rev.
  eapply Forall_impl; [exact Hr|].
  intros []; simpl; try exact (fun _ => I).
  all: intros (v & c' & sp & k & H1 & H2 & H3 & H4 & H5 & H6 & H7).
  all: exists v, c', sp, k; auto 10.
Qed.

End CommandLine.
(** * Which keys are tried *)

Section Attempts.
Context {ctx : Type}.
Variable E : Externs ctx.

(** A decryption that [process_spa_data] attempts with the stanza [acc] on
    the packet [pkt]: what it is given, and why it is made. *)
Definition tried_with (acc : acc_stanza) (pkt : spa_pkt_info) (e : event)
  : Prop :=
  let enc_type := fko_encryption_type E (cstr (packet_data pkt)) in
  match e with
  | EvFkoNewWithData IN_handle_rijndael_enc data k mode hmac id _ =>
      use_rijndael acc = true /\
      (enc_type = FKO_ENCRYPTION_RIJNDAEL \/ enable_cmd_exec acc = true) /\
      data = cstr (packet_data pkt) /\ k = key acc /\
      mode = encryption_mode acc /\ hmac = hmac_key acc /\ id = sdp_id pkt
  | EvFkoNewWithData IN_handle_gpg_enc data k mode hmac id _ =>
      use_gpg acc = true /\ enc_type = FKO_ENCRYPTION_GPG /\
      (gpg_decrypt_pw acc <> None \/ gpg_allow_no_pw acc = true) /\
      data = cstr (packet_data pkt) /\ k = None /\
      mode = FKO_ENC_MODE_ASYMMETRIC E /\ hmac = hmac_key acc /\
      id = sdp_id pkt
  | EvFkoDecryptSpaData pw _ =>
      use_gpg acc = true /\ enc_type = FKO_ENCRYPTION_GPG /\
      (gpg_decrypt_pw acc <> None \/ gpg_allow_no_pw acc = true) /\
      pw = gpg_decrypt_pw acc
  | EvFkoNewWithData IN_get_raw_digest _ _ _ _ _ _ => False
  | _ => True
  end.

Definition tried (acc : acc_stanza) (pkt : spa_pkt_info) (e : event) : Prop :=
  (match e with
   | EvFkoNewWithData _ _ _ _ _ _ _ | EvFkoDecryptSpaData _ _ =>
       addresses_match E acc pkt /\ in_force E acc
   | _ => True
   end) /\
  tried_with acc pkt e.

Ltac tried_specs :=
  eapply hoare_logs;
  [ intros []; simpl; intros; first [contradiction|split; exact I]
  | first [ apply src_dst_check_spec | apply check_stanza_expiration_spec ] ].

Lemma process_spa_data_tried opts c acc pkt spadat n rd age :
  emits (tried acc pkt) (process_spa_data E opts c acc pkt spadat n rd age).
Proof.
  eapply emits_hoare with (R := fun _ => True).
  unfold process_spa_data.
  hoare_auto tried_specs; try exact I.
  all: try (split; exact I).
  all: apply negb_false_iff in Heqb, Heqb0; subst; cbn [fst snd] in *.
  all: destruct H0 as [Hf ->].
  all: split; [split; [now apply H|now apply Hf]|].
  all: unfold tried_with; cbv zeta.
  all: repeat match goal with
              | H : _ && _ = true |- _ => apply andb_true_iff in H as [? ?]
              | H : bool_decide _ = true |- _ => apply bool_decide_eq_true in H
              end.
  all: repeat split; try assumption; try reflexivity.
  all: match goal with
       | G : _ || _ = true |- _ =>
           apply orb_true_iff in G as [G|G];
           first [ left; now apply bool_decide_eq_true in G
                 | right; exact G
                 | left; destruct (gpg_decrypt_pw acc); discriminate ]
       end.
Qed.

Lemma stanza_loop_tried opts pkt rd age accs :
  forall c spadat n,
    emits (fun e => exists acc, In acc accs /\ tried acc pkt e)
      (stanza_loop E opts c accs pkt spadat n rd age).
Proof.
  induction accs as [|a accs IH]; intros; simpl.
  - apply emits_ret.
  - repeat first
      [ lazymatch goal with
        | |- emits _ (bind (process_spa_data _ _ _ _ _ _ _ _ _) _) =>
            apply emits_bind;
            [ eapply emits_weaken; [apply process_spa_data_tried|];
              intros e He; exists a; split; [now left|exact He]
            | intros ]
        | |- emits _ (bind (stanza_loop _ _ _ _ _ _ _ _ _) _) =>
            apply emits_bind;
            [ eapply emits_weaken; [apply IH|];
              intros e (acc & Hin & He); exists acc;
              split; [now right|exact He]
            | intros ]
        end
      | emits_step ].
    all: exists a; split; [now left|split; exact I].
Qed.

(** What [incoming_spa] hands to libfko for the packet it finds in
    [opts]. *)
Definition attempt (opts : fko_srv_options) (e : event) : Prop :=
  let pkt := packet_of E opts in
  match e with
  | EvFkoNewWithData IN_get_raw_digest data k mode hmac id _ =>
      conf_is opts CONF_ENABLE_DIGEST_PERSISTENCE "Y" = true /\
      data = cstr (packet_data pkt) /\ k = None /\
      mode = FKO_DEFAULT_ENC_MODE E /\ hmac = None /\ id = 0
  | EvFkoNewWithData _ _ _ _ _ _ _ | EvFkoDecryptSpaData _ _ =>
      exists acc, policy opts pkt acc /\ tried acc pkt e
  | _ => True
  end.

Lemma tried_attempt opts acc e :
  policy opts (packet_of E opts) acc -> tried acc (packet_of E opts) e ->
  attempt opts e.
Proof.
  intros Hpol Ht. destruct e; try exact I.
  - destruct site; simpl; eauto. destruct Ht as [_ []].
  - simpl. eauto.
Qed.

Lemma incoming_spa_attempts opts spadat :
  emits (attempt opts) (incoming_spa E opts spadat).
Proof.
  eapply emits_hoare with (R := fun _ => True).
  unfold incoming_spa.
  eapply hoare_bind with (R1 := fun _ => True);
    [|intros [c o] _; hoare_auto fail; exact I].
  unfold incoming_spa_body.
  repeat first
    [ lazymatch goal with
      | |- hoare _ (bind (precheck_pkt _ _ _ _) _) _ =>
          eapply hoare_bind;
          [ eapply hoare_weaken;
            [ apply precheck_pkt_spec
            | intros []; simpl; intros; first [contradiction|exact I]
            | exact (fun _ H => H) ]
          | intros ? ? ]
      | |- hoare _ (bind (if ?b then _ else sdp_id_check _ _ _ _) _) _ =>
          destruct b eqn:Hmode; cbv beta iota
      | |- hoare _ (bind (sdp_id_check _ _ _ _) _) _ =>
          eapply hoare_bind;
          [ eapply hoare_logs; [|apply sdp_id_check_spec];
            intros []; simpl; intros; first [contradiction|exact I]
          | intros ? ? ]
      | |- hoare _ (bind (stanza_loop _ _ _ _ _ _ _ _ _) _) _ =>
          eapply hoare_bind;
          [ apply hoare_emits; eapply emits_weaken;
            [apply stanza_loop_tried|]
          | intros ? _ ]
      | |- hoare _ (bind (process_spa_data _ _ _ _ _ _ _ _ _) _) _ =>
          eapply hoare_bind;
          [ apply hoare_emits; eapply emits_weaken;
            [apply process_spa_data_tried|]
          | intros ? _ ]
      end
    | hoare_step fail ]; try exact I.
  all: injection H as -> ->; fold (packet_of E opts) in *.
  all: change (conf_is (set_spa_pkt (packet_of E opts) opts))
         with (conf_is opts) in *.
  - repeat split; assumption.
  - intros e (acc & Hin & He). apply (tried_attempt opts acc); [|exact He].
    unfold policy. rewrite Hmode. exact Hin.
  - intros e (acc & Hin & He). apply (tried_attempt opts acc); [|exact He].
    unfold policy. rewrite Hmode. exact Hin.
  - intros e He. apply (tried_attempt opts a3); [|exact He].
    unfold policy. rewrite Hmode. apply negb_false_iff in Heqb2. subst.
    destruct (H0 eq_refl) as (Htbl & _ & Hid). auto.
  - intros e He. apply (tried_attempt opts a3); [|exact He].
    unfold policy. rewrite Hmode. apply negb_false_iff in Heqb2. subst.
    destruct (H0 eq_refl) as (Htbl & _ & Hid). auto.
Qed.

(** X15. What [incoming_spa] hands to libfko: for the digest, the data of
    the packet and no key, and only with digest persistence; to decrypt,
    the data of the packet and the keys of a stanza of the policy that
    lists the addresses of the packet and is in force -- the Rijndael key
    only of a stanza with a Rijndael key and for a Rijndael packet or
    command execution; the GnuPG context and the GnuPG passphrase, in the
    call of [fko_decrypt_spa_data] too, only of a stanza with GnuPG that
    has a passphrase or allows none, and for a GnuPG packet. *)
Theorem keys_tried opts spadat cache :
  let pkt := packet_of E opts in
  let enc_type := fko_encryption_type E (cstr (packet_data pkt)) in
  let matching acc :=
    policy opts pkt acc /\ addresses_match E acc pkt /\ in_force E acc in
  Forall
    (fun e =>
       match e with
       | EvFkoNewWithData IN_get_raw_digest data k mode hmac id _ =>
           conf_is opts CONF_ENABLE_DIGEST_PERSISTENCE "Y" = true /\
           data = cstr (packet_data pkt) /\ k = None /\
           mode = FKO_DEFAULT_ENC_MODE E /\ hmac = None /\ id = 0
       | EvFkoNewWithData IN_handle_rijndael_enc data k mode hmac id _ =>
           exists acc,
             matching acc /\ use_rijndael acc = true /\
             (enc_type = FKO_ENCRYPTION_RIJNDAEL \/
              enable_cmd_exec acc = true) /\
             data = cstr (packet_data pkt) /\ k = key acc /\
             mode = encryption_mode acc /\ hmac = hmac_key acc /\
             id = sdp_id pkt
       | EvFkoNewWithData IN_handle_gpg_enc data k mode hmac id _ =>
           exists acc,
             matching acc /\ use_gpg acc = true /\
             enc_type = FKO_ENCRYPTION_GPG /\
             (gpg_decrypt_pw acc <> None \/ gpg_allow_no_pw acc = true) /\
             data = cstr (packet_data pkt) /\ k = None /\
             mode = FKO_ENC_MODE_ASYMMETRIC E /\
             hmac = hmac_key acc /\ id = sdp_id pkt
       | EvFkoDecryptSpaData pw _ =>
           exists acc,
             matching acc /\ use_gpg acc = true /\
             enc_type = FKO_ENCRYPTION_GPG /\
             (gpg_decrypt_pw acc <> None \/ gpg_allow_no_pw acc = true) /\
             pw = gpg_decrypt_pw acc
       | _ => True
       end)
    (trace (incoming_spa E opts spadat (mk_world cache [])).2).
Proof.
  intros pkt enc_type matching.
  eapply Forall_impl; [apply emits_trace, (incoming_spa_attempts opts spadat)|].
  intros [] He; try exact I; simpl in He.
  - destruct site.
    + exact He.
    + destruct He as (acc & Hpol & (Ha & Hf) & Ht). exists acc.
      unfold matching. simpl in Ht. intuition.
    + destruct He as (acc & Hpol & (Ha & Hf) & Ht). exists acc.
      unfold matching. simpl in Ht. intuition.
  - destruct He as (acc & Hpol & (Ha & Hf) & Ht). exists acc.
    unfold matching. simpl in Ht. intuition.
Qed.

End Attempts.
(** * The first stanza that settles the packet ends the search *)

Section FirstMatch.
Context {ctx : Type}.
Variable E : Externs ctx.

(** The calls that settle a packet: a firewall request, a command that is
    run, a command cycle that [cmd_cycle_open] reports opened. *)
Definition settles (e : event) : bool :=
  match e with
  | EvProcessSpaRequest _ _ | EvRunExtcmd _ _ | EvRunExtcmdAs _ _ _ => true
  | EvCmdCycleOpen acc sp n => (cmd_cycle_open_result E acc sp n).1
  | _ => false
  end.

Definition quiet (e : event) : Prop := settles e = false.

(** What [incoming_spa] does on its way out. *)
Definition cleanup (e : event) : Prop :=
  match e with EvLog _ _ | EvFkoDestroy => True | _ => False end.

(** The call [e], made after the calls [hist], is clean-up if one of
    [hist] has settled the packet. *)
Definition after_settled (hist : list event) (e : event) : Prop :=
  Exists (fun x => settles x = true) hist -> cleanup e.

Definition settled_once (evs : list event) : Prop :=
  each_after after_settled evs.

Lemma quiet_not_settled evs :
  Forall quiet evs -> ~ Exists (fun x => settles x = true) evs.
Proof.
  intros Hq Hex. apply Exists_exists in Hex as (x & Hx & Hs).
  rewrite Forall_forall in Hq. specialize (Hq x Hx). unfold quiet in Hq.
  congruence.
Qed.

Lemma settled_once_quiet evs : Forall quiet evs -> settled_once evs.
Proof.
  induction 1 as [|e evs He Hq IH]; simpl; [exact I|].
  split; [|exact IH]. intros Hex. destruct (quiet_not_settled evs Hq Hex).
Qed.

Lemma settled_once_first e evs : Forall quiet evs -> settled_once (e :: evs).
Proof.
  intros Hq. split; [|now apply settled_once_quiet].
  intros Hex. destruct (quiet_not_settled evs Hq Hex).
Qed.

Lemma settled_once_cleanup evs rest :
  Forall cleanup evs -> settled_once rest -> settled_once (evs ++ rest).
Proof.
  intros Hc Hr. induction Hc as [|e evs He _ IH]; simpl; [exact Hr|].
  split; [|exact IH]. intros _. exact He.
Qed.

Lemma settled_once_app evs rest :
  settled_once evs -> Forall quiet rest -> settled_once (evs ++ rest).
Proof.
  intros He Hq. induction evs as [|e evs IH]; simpl.
  - now apply settled_once_quiet.
  - destruct He as [He Hs]. split; [|exact (IH Hs)].
    intros Hex. apply He. apply Exists_app in Hex as [Hex|Hex]; [exact Hex|].
    destruct (quiet_not_settled rest Hq Hex).
Qed.

Lemma cleanup_quiet e : cleanup e -> quiet e.
Proof. destruct e; simpl; intros []; reflexivity. Qed.

Lemma log_quiet e : is_log e -> quiet e.
Proof. destruct e; simpl; intros []; reflexivity. Qed.

Lemma log_cleanup e : is_log e -> cleanup e.
Proof. destruct e; simpl; intros []; exact I. Qed.

(** A helper that does not settle anything. *)
Definition unsettled {A} (m : M A) : Prop := emits quiet m.

Lemma traced_emit_eq e :
  traced (emit e) (fun r evs => r = Some tt /\ evs = [e]).
Proof. apply traced_emit. auto. Qed.

(** The verdict STOP_SEARCHING. *)
Definition stops (r : option (@psd_result ctx)) : Prop :=
  exists c acc sp, r = Some (STOP_SEARCHING, c, acc, sp).

Lemma logs_quiet evs : Forall is_log evs -> Forall quiet evs.
Proof. intros H. eapply Forall_impl; [exact H|]. apply log_quiet. Qed.

Lemma cleanups_quiet evs : Forall cleanup evs -> Forall quiet evs.
Proof. intros H. eapply Forall_impl; [exact H|]. apply cleanup_quiet. Qed.

Lemma logs_cleanup evs : Forall is_log evs -> Forall cleanup evs.
Proof. intros H. eapply Forall_impl; [exact H|]. apply log_cleanup. Qed.

Ltac quiet_list :=
  repeat first
    [ assumption
    | apply List.Forall_nil
    | apply List.Forall_cons; [reflexivity|]
    | apply List.Forall_cons;
      [ unfold quiet, settles;
        match goal with H : _ = _ |- _ => rewrite H end; reflexivity
      | ]
    | apply Forall_app; split
    | apply logs_quiet; assumption
    | apply cleanups_quiet; assumption ].

Ltac cleanup_list :=
  repeat first
    [ assumption
    | apply List.Forall_nil
    | apply List.Forall_cons; [exact I|]
    | apply Forall_app; split
    | apply logs_cleanup; assumption ].

Ltac settled_list :=
  rewrite <- ?app_assoc; cbn [app];
  repeat first
    [ assumption
    | apply settled_once_quiet; solve [quiet_list]
    | apply settled_once_app; [assumption|solve [quiet_list]]
    | apply settled_once_first; solve [quiet_list]
    | apply settled_once_cleanup; [solve [cleanup_list]|]
    | split; [intros _; exact I|] ].

Ltac once_leaf :=
  cbv beta in *;
  repeat match goal with
         | H : ex _ |- _ => destruct H
         | H : _ /\ _ |- _ => destruct H
         | H : _ \/ _ |- _ => destruct H
         | H : Some _ = Some _ |- _ => injection H as H; try discriminate H
         end;
  try discriminate; subst;
  (split;
   [ solve [settled_list]
   | first [ left; rewrite <- ?app_assoc; cbn [app]; solve [quiet_list]
           | right; assumption
           | right; do 3 eexists; reflexivity
           | right; eexists; reflexivity ] ]).

Lemma process_cmd_msg_once opts acc sp n res :
  traced (process_cmd_msg E opts acc sp n res)
    (fun r evs =>
       settled_once evs /\
       (Forall quiet evs \/ exists res', r = Some (true, res'))).
Proof.
  unfold process_cmd_msg.
  repeat traced_exec_step.
  all: split; [solve [settled_list]|].
  all: first [left; solve [quiet_list]|right; eexists; reflexivity].
Qed.

Lemma dispatch_once opts c acc sp n mt res :
  traced (process_spa_data_dispatch E opts c acc sp n mt res)
    (fun r evs => settled_once evs /\ (Forall quiet evs \/ stops r)).
Proof.
  unfold process_spa_data_dispatch.
  repeat first
    [ lazymatch goal with
      | |- traced (bind (process_cmd_msg _ _ _ _ _ _) _) _ =>
          eapply traced_bind;
          [apply process_cmd_msg_once|intros ? ? ?|intros ? ?]
      | |- traced (bind (if _ || _ then _ else _) _) _ =>
          eapply traced_bind;
          [ apply (traced_hoare is_log), access_list_spec
          | intros ? ? ? | intros ? ? ]
      end
    | traced_exec_step ].
  all: once_leaf.
Qed.

Lemma validate_once opts c acc pkt spadat n enc age res :
  traced (process_spa_data_validate E opts c acc pkt spadat n enc age res)
    (fun r evs => settled_once evs /\ (Forall quiet evs \/ stops r)).
Proof.
  unfold process_spa_data_validate.
  repeat first
    [ lazymatch goal with
      | |- traced (process_spa_data_dispatch _ _ _ _ _ _ _ _) _ =>
          eapply traced_weaken; [apply dispatch_once|intros ? ? ?]
      end
    | traced_step quiet fail ].
  all: once_leaf.
Qed.

Lemma process_spa_data_once opts c acc pkt spadat n rd age :
  traced (process_spa_data E opts c acc pkt spadat n rd age)
    (fun r evs => settled_once evs /\ (Forall quiet evs \/ stops r)).
Proof.
  unfold process_spa_data.
  repeat first
    [ lazymatch goal with
      | |- traced (process_spa_data_validate _ _ _ _ _ _ _ _ _ _) _ =>
          eapply traced_weaken; [apply validate_once|intros ? ? ?]
      end
    | traced_step quiet fail ].
  all: once_leaf.
Qed.

Ltac loop_leaf :=
  cbv beta in *; unfold stops in *;
  repeat match goal with
         | H : ex _ |- _ => destruct H
         | H : _ /\ _ |- _ => destruct H
         | H : _ \/ _ |- _ => destruct H
         | H : Some _ = Some _ |- _ => injection H as H; try discriminate H
         end;
  try discriminate; subst;
  solve [settled_list].

Lemma stanza_loop_once opts pkt rd age accs :
  forall c spadat n,
    traced (stanza_loop E opts c accs pkt spadat n rd age)
      (fun _ evs => settled_once evs).
Proof.
  induction accs as [|a accs IH]; intros; simpl.
  - apply traced_ret. exact I.
  - repeat first
      [ lazymatch goal with
        | |- traced (bind (process_spa_data _ _ _ _ _ _ _ _ _) _) _ =>
            eapply traced_bind;
            [apply process_spa_data_once|intros ? ? ?|intros ? ?]
        | |- traced (bind (stanza_loop _ _ _ _ _ _ _ _ _) _) _ =>
            eapply traced_bind; [apply IH|intros ? ? ?|intros ? ?]
        end
      | traced_step quiet fail ].
    all: loop_leaf.
Qed.

Lemma incoming_spa_once opts spadat :
  traced (incoming_spa E opts spadat) (fun _ evs => settled_once evs).
Proof.
  unfold incoming_spa.
  eapply traced_bind with (R1 := fun _ evs => settled_once evs).
  2: { intros [c o] evs1 H1. repeat traced_step cleanup fail.
       all: cbv beta in *; solve [settled_list]. }
  2: { auto. }
  unfold incoming_spa_body.
  repeat first
    [ lazymatch goal with
      | |- traced (bind (process_spa_data _ _ _ _ _ _ _ _ _) _) _ =>
          eapply traced_bind;
          [apply process_spa_data_once|intros ? ? ?|intros ? ?]
      | |- traced (bind (stanza_loop _ _ _ _ _ _ _ _ _) _) _ =>
          eapply traced_bind;
          [apply stanza_loop_once|intros ? ? ?|intros ? ?]
      end
    | traced_step quiet fail ].
  all: loop_leaf.
Qed.

(** X16. Once a call has settled the packet -- a firewall request, a
    command that is run, or a command cycle that [cmd_cycle_open] reports
    opened -- [incoming_spa] only cleans up: every call it makes after
    that one is an [fko_destroy] or a record in the log.  So a packet
    gets at most one of these calls, from the first stanza that accepts
    it.  The calls are listed the newest first, [hist] being the calls
    made before [e]. *)
Theorem first_match_ends_search opts spadat cache :
  each_after
    (fun hist e =>
       Exists (fun x => settles x = true) hist ->
       match e with EvLog _ _ | EvFkoDestroy => True | _ => False end)
    (events (incoming_spa E opts spadat (mk_world cache [])).2).
Proof. exact (traced_events _ _ cache (incoming_spa_once opts spadat)). Qed.

End FirstMatch.
(** * The packet before decryption *)

Section Preprocess.
Context {ctx : Type}.
Variable E : Externs ctx.

(** What the loop of the HTTP branch does to one character. *)
Definition unescaped (c : ascii) : ascii :=
  if Ascii.eqb c "-" then "+"%char
  else if Ascii.eqb c "_" then "/"%char else c.

Lemma http_unescape_count buf n :
  0 <= (http_unescape buf n).2 <= Z.of_nat n /\
  (http_unescape buf n).2 <= Z.of_nat (length buf).
Proof.
  revert buf. induction n as [|n IH]; intros [|c r]; simpl; try lia.
  destruct (isspace c); simpl; [lia|].
  specialize (IH r). destruct (http_unescape r n) as [r' i]. simpl in *. lia.
Qed.

(** The buffer that the loop leaves, byte for byte. *)
Lemma http_unescape_out (buf : list ascii) (n : nat) :
  let i := Z.to_nat (http_unescape buf n).2 in
  (http_unescape buf n).1 =
    (unescaped <$> take i buf) ++
    (if bool_decide (i < n)%nat
     then match drop i buf with [] => [] | _ :: rest => NUL :: rest end
     else drop i buf).
Proof.
  revert buf. induction n as [|n IH]; intros buf; cbv zeta.
  - simpl. destruct buf; reflexivity.
  - destruct buf as [|c r]; [reflexivity|]. simpl.
    destruct (isspace c) eqn:Hsp; [reflexivity|].
    specialize (IH r). cbv zeta in IH.
    pose proof (http_unescape_count r n) as Hcnt.
    destruct (http_unescape r n) as [r' i]. simpl in *.
    replace (Z.to_nat (i + 1)) with (S (Z.to_nat i)) by lia.
    simpl. rewrite IH. unfold unescaped at 2. f_equal. f_equal.
    destruct (bool_decide (Z.to_nat i < n)%nat) eqn:Hb.
    + apply bool_decide_eq_true in Hb.
      rewrite bool_decide_eq_true_2 by lia. reflexivity.
    + apply bool_decide_eq_false in Hb.
      rewrite bool_decide_eq_false_2 by lia. reflexivity.
Qed.

Lemma http_unescape_before (buf : list ascii) (n : nat) :
  Forall (fun c => isspace c = false)
    (take (Z.to_nat (http_unescape buf n).2) buf).
Proof.
  revert buf. induction n as [|n IH]; intros buf.
  - simpl. destruct buf; constructor.
  - destruct buf as [|c r]; [constructor|]. simpl.
    destruct (isspace c) eqn:Hsp; [constructor|].
    specialize (IH r). pose proof (http_unescape_count r n) as Hcnt.
    destruct (http_unescape r n) as [r' i]. simpl in *.
    replace (Z.to_nat (i + 1)) with (S (Z.to_nat i)) by lia.
    simpl. constructor; assumption.
Qed.

(** X17. The loop of the HTTP branch of [preprocess_spa_data], run on the
    buffer [buf] for at most [n] characters, stops at [i], the first white
    space among them if there is one and else their number.  The buffer
    it leaves is the buffer it found but for this: before [i] every '-'
    has become '+' and every '_' has become '/', and the white space at
    [i], if the loop has stopped at one, has become a NUL.  Every other
    byte, the one at [n] when the loop runs out included, is as it
    was. *)
Theorem http_unescape_spec (buf : list ascii) (n : nat) :
  let out := (http_unescape buf n).1 in
  let i := Z.to_nat (http_unescape buf n).2 in
  (i <= n)%nat /\ (i <= length buf)%nat /\ length out = length buf /\
  Forall (fun c => isspace c = false) (take i buf) /\
  (forall j c, (j < i)%nat -> buf !! j = Some c ->
               isspace c = false /\ out !! j = Some (unescaped c)) /\
  (forall c, (i < n)%nat -> buf !! i = Some c ->
             isspace c = true /\ out !! i = Some NUL) /\
  (forall j, (i < j)%nat \/ (j = i /\ i = n) -> out !! j = buf !! j) /\
  out =
    (unescaped <$> take i buf) ++
    (if bool_decide (i < n)%nat
     then match drop i buf with [] => [] | _ :: rest => NUL :: rest end
     else drop i buf).
Proof.
  intros out i.
  pose proof (http_unescape_count buf n) as [Hn Hlen].
  pose proof (http_unescape_out buf n) as Hout. cbv zeta in Hout.
  pose proof (http_unescape_before buf n) as Hbefore.
  fold out i in Hout, Hbefore.
  assert (Hin : (i <= n)%nat) by (unfold i; lia).
  assert (Hil : (i <= length buf)%nat) by (unfold i; lia).
  assert (Hat : forall c, (i < n)%nat -> buf !! i = Some c ->
                          isspace c = true).
  { clear. subst i. revert buf. induction n as [|n IH]; intros buf c Hi;
      [lia|].
    destruct buf as [|c0 r]; [discriminate|]. simpl in *.
    destruct (isspace c0) eqn:Hsp; simpl in *.
    - intros [= <-]. exact Hsp.
    - pose proof (http_unescape_count r n) as Hcnt.
      specialize (IH r c). destruct (http_unescape r n) as [r' k].
      simpl in *. revert Hi.
      replace (Z.to_nat (k + 1)) with (S (Z.to_nat k)) by lia.
      simpl. intros Hi. apply IH. lia. }
  assert (Hlenout : length out = length buf).
  { rewrite Hout, length_app, length_fmap, length_take.
    destruct (bool_decide (i < n)%nat).
    - pose proof (length_drop buf i) as Hd.
      destruct (drop i buf); simpl in *; lia.
    - rewrite length_drop. lia. }
  split; [exact Hin|]. split; [exact Hil|]. split; [exact Hlenout|].
  split; [exact Hbefore|].
  assert (Hpre : length ((unescaped <$> take i buf)) = i).
  { rewrite length_fmap, length_take. lia. }
  split; [|split; [|split; [|exact Hout]]].
  - intros j c Hj Hc. split.
    + rewrite Forall_forall in Hbefore. apply Hbefore.
      apply list_elem_of_lookup. exists j. rewrite lookup_take_lt by lia.
      exact Hc.
    + rewrite Hout, lookup_app_l by lia.
      rewrite list_lookup_fmap, lookup_take_lt by lia. rewrite Hc.
      reflexivity.
  - intros c Hi Hc. split; [now apply Hat|].
    rewrite Hout, lookup_app_r by lia. rewrite Hpre, Nat.sub_diag.
    rewrite bool_decide_eq_true_2 by exact Hi.
    rewrite <- (Nat.add_0_r i) in Hc. rewrite <- lookup_drop in Hc.
    destruct (drop i buf); [discriminate|reflexivity].
  - intros j Hj. rewrite Hout, lookup_app_r by lia. rewrite Hpre.
    destruct Hj as [Hj|[-> Hin']].
    + replace (buf !! j) with (drop i buf !! (j - i)%nat)
        by (rewrite lookup_drop; f_equal; lia).
      destruct (bool_decide (i < n)%nat); [|reflexivity].
      destruct (drop i buf) as [|x rest]; [reflexivity|].
      destruct (j - i)%nat eqn:Hji; [lia|reflexivity].
    + rewrite Nat.sub_diag, bool_decide_eq_false_2 by lia.
      rewrite lookup_drop. f_equal. lia.
Qed.

(** The packet looks like a request over HTTP to a server that takes
    such requests. *)
Definition is_http_request (opts : fko_srv_options) (pkt : spa_pkt_info)
  : bool :=
  conf_is opts CONF_ENABLE_SPA_OVER_HTTP "Y"
  && (strncasecmp (cstr (packet_data pkt)) "GET /" 5 =? 0)
  && strstr_found (cstr (packet_data pkt)) "User-Agent: Fwknop".

(** What the HTTP branch makes of the data: the request path moved to the
    start of the buffer and unescaped, and its length. *)
Definition request_path (pkt : spa_pkt_info) : list ascii * Z :=
  http_unescape
    (strlcpy_buf (packet_data pkt) (str_drop 5 (cstr (packet_data pkt)))
       (Z.to_nat (packet_data_len pkt)))
    (Z.to_nat (packet_data_len pkt - 5)).

(** The identity that [preprocess_spa_data] decodes from the start of the
    data [buf]. *)
Definition decoded_sdp_id (buf : list ascii) : Z :=
  host_uint32 E
    (take (FKO_SDP_ID_SIZE E)
       (overwrite (replicate (FKO_SDP_ID_SIZE E * 2) NUL)
          (fko_base64_decode E
             (strndup (cstr buf) (B64_SDP_ID_STR_LEN E))).2)).

(** What [preprocess_spa_data] has found of a packet that it lets
    through: the length and the two prefixes are those of the packet as
    it arrives; the base64 test is made on the data it leaves in the
    slot, over the whole length of the packet, or of the request path of
    a request over HTTP; the identity is decoded from that data. *)
Definition let_through (opts : fko_srv_options) (pkt : spa_pkt_info) : Prop :=
  let pkt' := (preprocess_spa_data E opts pkt).2 in
  let len := packet_data_len pkt in
  (MIN_SPA_DATA_SIZE E <= len <= MAX_SPA_PACKET_LEN E) /\
  constant_runtime_cmp (packet_data pkt) (bytes_of (B64_RIJNDAEL_SALT E))
    (B64_RIJNDAEL_SALT_STR_LEN E) <> 0 /\
  (len > MIN_GNUPG_MSG_SIZE E ->
   constant_runtime_cmp (packet_data pkt) (bytes_of (B64_GPG_PREFIX E))
     (B64_GPG_PREFIX_STR_LEN E) <> 0) /\
  (if is_http_request opts pkt
   then packet_data pkt' = (request_path pkt).1 /\
        packet_data_len pkt' = (request_path pkt).2 /\
        MIN_SPA_DATA_SIZE E <= packet_data_len pkt' /\
        is_base64 E (packet_data pkt') (packet_data_len pkt') = true
   else packet_data pkt' = packet_data pkt /\
        packet_data_len pkt' = 0 /\
        is_base64 E (packet_data pkt') len = true) /\
  (if conf_is opts CONF_DISABLE_SDP_MODE "N"
   then sdp_id pkt' = decoded_sdp_id (packet_data pkt') /\
        sdp_id pkt' <> 0 /\
        sdp_id_str pkt' = snprintf_u32 (MAX_SDP_ID_STR_LEN E) (sdp_id pkt')
   else sdp_id pkt' = sdp_id pkt /\ sdp_id_str pkt' = sdp_id_str pkt).

Lemma preprocess_screened opts pkt :
  is_success (preprocess_spa_data E opts pkt).1 = true -> let_through opts pkt.
Proof.
  unfold let_through, preprocess_spa_data, is_http_request, request_path,
    decoded_sdp_id.
  cbv zeta.
  destruct (packet_data_len pkt <? MIN_SPA_DATA_SIZE E) eqn:Hmin;
    [discriminate|].
  destruct (packet_data_len pkt >? MAX_SPA_PACKET_LEN E) eqn:Hmax;
    [discriminate|].
  destruct (constant_runtime_cmp (packet_data pkt) _ _ =? 0) eqn:Hsalt;
    [discriminate|].
  destruct ((packet_data_len pkt >? MIN_GNUPG_MSG_SIZE E) && _) eqn:Hgpg;
    [discriminate|].
  apply Z.ltb_ge in Hmin. rewrite Z.gtb_ltb in Hmax. apply Z.ltb_ge in Hmax.
  apply Z.eqb_neq in Hsalt.
  assert (Hg : packet_data_len pkt > MIN_GNUPG_MSG_SIZE E ->
               constant_runtime_cmp (packet_data pkt)
                 (bytes_of (B64_GPG_PREFIX E)) (B64_GPG_PREFIX_STR_LEN E)
               <> 0).
  { intros Hlen. apply andb_false_iff in Hgpg as [Hgpg|Hgpg].
    - rewrite Z.gtb_ltb in Hgpg. apply Z.ltb_ge in Hgpg. lia.
    - now apply Z.eqb_neq in Hgpg. }
  clear Hgpg.
  intros H. split; [lia|]. split; [exact Hsalt|]. split; [exact Hg|].
  destruct (conf_is opts CONF_ENABLE_SPA_OVER_HTTP "Y" && _ && _).
  - destruct (http_unescape _ _) as [buf i]. simpl in *.
    destruct (i <? MIN_SPA_DATA_SIZE E) eqn:Hi; [discriminate H|].
    apply Z.ltb_ge in Hi. simpl in *.
    destruct (is_base64 E buf i) eqn:Hb64; simpl in *; [|discriminate H].
    destruct (conf_is opts CONF_DISABLE_SDP_MODE "N"); [|simpl; auto 10].
    destruct (calloc_fails E); [discriminate H|].
    destruct (fko_base64_decode E _) as [k decoded] eqn:Hdec.
    simpl in *. rewrite ?Hdec. simpl.
    destruct (1 >? k); [discriminate H|].
    destruct (host_uint32 E _ =? 0) eqn:Hz; [discriminate H|].
    apply Z.eqb_neq in Hz. simpl. rewrite ?Hdec. simpl. auto 10.
  - simpl in *.
    destruct (is_base64 E (packet_data pkt) (packet_data_len pkt)) eqn:Hb64;
      simpl in *; [|discriminate H].
    destruct (conf_is opts CONF_DISABLE_SDP_MODE "N"); [|simpl; auto 10].
    destruct (calloc_fails E); [discriminate H|].
    destruct (fko_base64_decode E _) as [k decoded] eqn:Hdec.
    simpl in *. rewrite ?Hdec. simpl.
    destruct (1 >? k); [discriminate H|].
    destruct (host_uint32 E _ =? 0) eqn:Hz; [discriminate H|].
    apply Z.eqb_neq in Hz. simpl. rewrite ?Hdec. simpl. auto 10.
Qed.

(** A packet that [preprocess_spa_data] rejects only leaves records in
    the log. *)
Lemma rejected_logs opts spadat :
  is_success (preprocess_spa_data E opts (spa_pkt opts)).1 = false ->
  emits is_log (incoming_spa E opts spadat).
Proof.
  intros Hrej. eapply emits_hoare with (R := fun _ => True).
  unfold incoming_spa.
  eapply hoare_bind with (R1 := fun r => r.1 = None).
  2: { intros [c o] Hc. simpl in Hc. subst c. hoare_auto fail; exact I. }
  unfold incoming_spa_body. cbv zeta.
  eapply hoare_bind with (R1 := fun _ => True);
    [apply hoare_emit; exact I|intros _ _].
  unfold precheck_pkt.
  destruct (preprocess_spa_data E opts (spa_pkt opts)) as [res pkt'].
  simpl in Hrej. rewrite Hrej. simpl.
  eapply hoare_bind with (R1 := fun r => r = (false, pkt'));
    [ eapply hoare_bind with (R1 := fun _ => True);
      [apply hoare_emit; exact I|intros _ _; now apply hoare_ret]
    | intros r ->; simpl; now apply hoare_ret ].
Qed.

(** X18. Whatever [incoming_spa] does with a packet beyond writing to the
    log, it does after [preprocess_spa_data] has let the packet through:
    the data is at least MIN_SPA_DATA_SIZE and at most MAX_SPA_PACKET_LEN
    bytes long, and it does not start with the base64 Rijndael salt nor,
    if it is longer than MIN_GNUPG_MSG_SIZE, with the base64 GnuPG prefix.
    The data left in the slot is the data of the packet, and base64 over
    the whole length of the packet, with the length field of the slot at
    0; or, for a request over HTTP, it is the unescaped request path, of
    at least MIN_SPA_DATA_SIZE bytes, with the length field at that
    length, and base64 over that length.  With identities
    (DISABLE_SDP_MODE says N), [sdp_id] is the identity decoded from the
    start of that data and not 0, and [sdp_id_str] is its decimal text;
    without, both are as they were. *)
Theorem only_screened_packets opts spadat cache :
  let pkt := spa_pkt opts in
  let pkt' := (preprocess_spa_data E opts pkt).2 in
  let len := packet_data_len pkt in
  Forall
    (fun e =>
       match e with
       | EvLog _ _ => True
       | _ =>
           (MIN_SPA_DATA_SIZE E <= len <= MAX_SPA_PACKET_LEN E) /\
           constant_runtime_cmp (packet_data pkt)
             (bytes_of (B64_RIJNDAEL_SALT E)) (B64_RIJNDAEL_SALT_STR_LEN E)
           <> 0 /\
           (len > MIN_GNUPG_MSG_SIZE E ->
            constant_runtime_cmp (packet_data pkt)
              (bytes_of (B64_GPG_PREFIX E)) (B64_GPG_PREFIX_STR_LEN E)
            <> 0) /\
           (if is_http_request opts pkt
            then packet_data pkt' = (request_path pkt).1 /\
                 packet_data_len pkt' = (request_path pkt).2 /\
                 MIN_SPA_DATA_SIZE E <= packet_data_len pkt' /\
                 is_base64 E (packet_data pkt') (packet_data_len pkt') = true
            else packet_data pkt' = packet_data pkt /\
                 packet_data_len pkt' = 0 /\
                 is_base64 E (packet_data pkt') len = true) /\
           (if conf_is opts CONF_DISABLE_SDP_MODE "N"
            then sdp_id pkt' = decoded_sdp_id (packet_data pkt') /\
                 sdp_id pkt' <> 0 /\
                 sdp_id_str pkt' =
                   snprintf_u32 (MAX_SDP_ID_STR_LEN E) (sdp_id pkt')
            else sdp_id pkt' = sdp_id pkt /\
                 sdp_id_str pkt' = sdp_id_str pkt)
       end)
    (trace (incoming_spa E opts spadat (mk_world cache [])).2).
Proof.
  intros pkt pkt' len.
  destruct (is_success (preprocess_spa_data E opts pkt).1) eqn:Hok.
  - apply preprocess_screened in Hok. apply Forall_forall.
    intros [] _; first [exact I|exact Hok].
  - eapply Forall_impl; [apply emits_trace, rejected_logs, Hok|].
    intros [] He; first [exact I|destruct He].
Qed.

End Preprocess.
(** * The digest of a packet *)

Section Digest.
Context {ctx : Type}.
Variable E : Externs ctx.

(** The calls of [get_raw_digest], the newest first, and what it
    answers. *)
Definition digest_run (digest : option string) (data : string)
    (r : option (status * option string)) (evs : list event) : Prop :=
  let created :=
    (fko_new_with_data E data None 0 (FKO_DEFAULT_ENC_MODE E) None 0 0 0).1 in
  (exists logs,
      evs = EvFkoDestroy :: logs ++
              [EvFkoNewWithData IN_get_raw_digest data None
                 (FKO_DEFAULT_ENC_MODE E) None 0 created] /\
      Forall is_log logs /\ (length logs <= 1)%nat) /\
  exists st d,
    r = Some (st, d) /\
    if is_success st then d <> None else d = digest \/ d = None.

Lemma get_raw_digest_run digest data :
  traced (get_raw_digest E digest data) (digest_run digest data).
Proof.
  unfold get_raw_digest, call_fko_new_with_data, call_fko_destroy,
    digest_run.
  repeat traced_exec_step.
  all: simpl; split;
    [ first [ exists []; split; [reflexivity|]; split;
              [constructor|simpl; lia]
            | eexists [_]; split; [reflexivity|]; split;
              [repeat constructor|simpl; lia] ]
    | do 2 eexists; split; [reflexivity|] ].
  all: simpl; try (left; reflexivity); try discriminate.
  all: try (right; reflexivity).
  apply negb_false_iff in Heqb4. destruct (strdup_fails E); simpl.
  - now right.
  - rewrite Heqb4. discriminate.
Qed.

(** X19. [get_raw_digest] makes one [fko_new_with_data], without keys,
    then at most one record in the log, then one [fko_destroy], whatever
    fails on the way; and it answers success only together with a digest,
    while on a failure [*digest] is what it was, or NULL if it is the copy
    of the digest that failed. *)
Theorem get_raw_digest_calls digest data cache :
  let run := get_raw_digest E digest data (mk_world cache []) in
  let created :=
    (fko_new_with_data E data None 0 (FKO_DEFAULT_ENC_MODE E) None 0 0 0).1 in
  (exists logs,
      trace run.2 =
        EvFkoNewWithData IN_get_raw_digest data None (FKO_DEFAULT_ENC_MODE E)
          None 0 created :: logs ++ [EvFkoDestroy] /\
      Forall is_log logs /\ (length logs <= 1)%nat) /\
  exists st d,
    run.1 = Some (st, d) /\
    if is_success st then d <> None else d = digest \/ d = None.
Proof.
  intros run created.
  destruct (traced_run _ _ cache (get_raw_digest_run digest data))
    as (evs & Ht & (logs & -> & Hlogs & Hlen) & Hr).
  split; [|exact Hr]. exists (rev logs). fold run in Ht. rewrite Ht.
  simpl. rewrite rev_app_distr. simpl.
  split; [reflexivity|]. split; [now apply Forall_rev|].
  now rewrite length_rev.
Qed.

End Digest.
(** * GnuPG signatures *)

Section Signatures.
Context {ctx : Type}.
Variable E : Externs ctx.

(** The loop over an allow-list ends on a match only at an entry of the
    list that the comparison accepts, every entry before it having been
    compared without error and refused; it ends without match only if
    every entry has been compared without error and refused. *)
Lemma gpg_match_loop_spec (cmp : string -> status * bool) l res :
  match gpg_match_loop cmp l res with
  | (r, Some true) =>
      exists before s after,
        l = before ++ s :: after /\ cmp s = (r, true) /\
        is_success r = true /\
        Forall (fun x => is_success (cmp x).1 = true /\ (cmp x).2 = false)
          before
  | (r, Some false) =>
      Forall (fun x => is_success (cmp x).1 = true /\ (cmp x).2 = false) l
  | (r, None) =>
      exists s, In s l /\ (cmp s).1 = r /\ is_success r = false
  end.
Proof.
  revert res. induction l as [|x l IH]; intros res; simpl.
  - constructor.
  - destruct (cmp x) as [r m] eqn:Hx.
    destruct (is_success r) eqn:Hr; simpl.
    + destruct m.
      * exists [], x, l. rewrite Hx. repeat split; auto.
      * specialize (IH r). destruct (gpg_match_loop cmp l r) as [r' [[|]|]].
        -- destruct IH as (before & s & after & -> & Hs & Hok & Hb).
           exists (x :: before), s, after. repeat split; auto.
           constructor; [rewrite Hx; auto|exact Hb].
        -- constructor; [rewrite Hx; auto|exact IH].
        -- destruct IH as (s & Hin & Hs & Hf). exists s. auto.
    + exists x. rewrite Hx. auto.
Qed.

(** What [handle_gpg_sigs] requires of the signature of a GnuPG message
    for a stanza that requires signatures. *)
Definition signature_accepted (acc : acc_stanza) (c : option ctx) : Prop :=
  is_success (fko_get_gpg_signature_id E c).1 = true /\
  is_success (fko_get_gpg_signature_fpr E c).1 = true /\
  (gpg_remote_fpr acc <> None ->
   exists fpr r,
     In fpr (gpg_remote_fpr_list acc) /\
     fko_gpg_signature_fpr_match E c fpr = (r, true) /\
     is_success r = true) /\
  (gpg_remote_id acc <> None ->
   exists id r,
     In id (gpg_remote_id_list acc) /\
     fko_gpg_signature_id_match E c id = (r, true) /\ is_success r = true).

Lemma handle_gpg_sigs_run acc sp c enc n res :
  traced (handle_gpg_sigs E acc sp c enc n res)
    (fun r evs =>
       Forall is_log evs /\
       exists ok res',
         r = Some (ok, res') /\
         if bool_decide (enc = FKO_ENCRYPTION_GPG) && gpg_require_sig acc
         then ok = true -> signature_accepted acc c
         else ok = true /\ res' = res).
Proof.
  unfold handle_gpg_sigs, signature_accepted.
  destruct (bool_decide (enc = FKO_ENCRYPTION_GPG) && gpg_require_sig acc);
    [|apply traced_ret; split; [constructor|eauto]].
  pose proof (gpg_match_loop_spec (fko_gpg_signature_fpr_match E c)
                (gpg_remote_fpr_list acc)) as Hfpr.
  pose proof (gpg_match_loop_spec (fko_gpg_signature_id_match E c)
                (gpg_remote_id_list acc)) as Hid.
  repeat traced_exec_step.
  all: split; [repeat constructor|].
  all: eexists _, _; split; [reflexivity|]; try discriminate.
  all: intros _; apply negb_false_iff in Heqb, Heqb0.
  all: split; [exact Heqb|]; split; [exact Heqb0|].
  all: split; intros Hne; try congruence.
  all: repeat match goal with
              | H : gpg_match_loop ?cmp ?l ?r = (_, Some true),
                G : forall res, let (_, _) := gpg_match_loop ?cmp ?l res in _
                |- _ =>
                  specialize (G r); rewrite H in G;
                  destruct G as (? & ? & ? & ? & ? & ? & _)
              end.
  all: eexists _, _; (split; [|split; eassumption]).
  all: match goal with
       | H : ?l = _ ++ ?x :: _ |- In ?x ?l =>
           rewrite H; apply in_or_app; right; now left
       end.
Qed.

(** X20. [handle_gpg_sigs] only writes to the log.  For a GnuPG message
    and a stanza that requires signatures it answers 1 only if the
    signature id and fingerprint could be read, the fingerprint of the
    signature matches an entry of GPG_FINGERPRINT_ID when the stanza has
    that list, and its id matches an entry of GPG_REMOTE_ID when the
    stanza has that one; for any other message or stanza it checks nothing
    and answers 1. *)
Theorem gpg_signature_checked acc sp c enc n res cache :
  let run := handle_gpg_sigs E acc sp c enc n res (mk_world cache []) in
  Forall is_log (trace run.2) /\
  exists ok res',
    run.1 = Some (ok, res') /\
    if bool_decide (enc = FKO_ENCRYPTION_GPG) && gpg_require_sig acc
    then
      ok = true ->
      is_success (fko_get_gpg_signature_id E c).1 = true /\
      is_success (fko_get_gpg_signature_fpr E c).1 = true /\
      (gpg_remote_fpr acc <> None ->
       exists fpr r,
         In fpr (gpg_remote_fpr_list acc) /\
         fko_gpg_signature_fpr_match E c fpr = (r, true) /\
         is_success r = true) /\
      (gpg_remote_id acc <> None ->
       exists id r,
         In id (gpg_remote_id_list acc) /\
         fko_gpg_signature_id_match E c id = (r, true) /\
         is_success r = true)
    else ok = true /\ res' = res.
Proof.
  intros run.
  destruct (traced_run _ _ cache (handle_gpg_sigs_run acc sp c enc n res))
    as (evs & Ht & Hlog & Hr).
  fold run in Ht, Hr. rewrite Ht. split; [now apply Forall_rev|exact Hr].
Qed.

End Signatures.

(** * What processing a packet leaves of the options *)

Section Policy.

Context {ctx : Type} (E : Externs ctx).

(** The stanza [a'] is the stanza [a], or it is [a] found past its expiry
    date for the first time and marked so. *)
Definition kept (a a' : acc_stanza) : Prop :=
  a' = a \/
  (a' = set_expired true a /\
   access_expire_time a > 0 /\ expired a = false /\
   time_now E > access_expire_time a).

Definition any_call (e : event) : Prop := True.

Lemma check_stanza_expiration_kept acc sp n :
  hoare any_call (check_stanza_expiration E acc sp n)
    (fun r => kept acc r.2).
Proof.
  unfold check_stanza_expiration, kept.
  hoare_auto fail; try exact I; simpl; auto.
  right. apply Z.gtb_lt in Heqb, Heqb1. repeat split; auto; lia.
Qed.

Ltac kept_leaf :=
  cbn [fst snd] in *; subst; simpl in *;
  first [exact I|reflexivity|assumption|congruence].

Lemma dispatch_kept opts c acc sp n mt res :
  hoare any_call (process_spa_data_dispatch E opts c acc sp n mt res)
    (fun r => r.1.2 = acc).
Proof.
  unfold process_spa_data_dispatch.
  hoare_auto fail. all: kept_leaf.
Qed.

Lemma validate_kept opts c acc pkt spadat n enc age res :
  hoare any_call
    (process_spa_data_validate E opts c acc pkt spadat n enc age res)
    (fun r => r.1.2 = acc).
Proof.
  unfold process_spa_data_validate.
  repeat first
    [ lazymatch goal with
      | |- hoare _ (process_spa_data_dispatch _ _ _ _ _ _ _ _) _ =>
          apply dispatch_kept
      end
    | hoare_step fail ].
  all: kept_leaf.
Qed.

Lemma process_spa_data_kept opts c acc pkt spadat n rd age :
  hoare any_call (process_spa_data E opts c acc pkt spadat n rd age)
    (fun r => kept acc r.1.2).
Proof.
  unfold process_spa_data.
  repeat first
    [ lazymatch goal with
      | |- hoare _ (process_spa_data_validate _ _ _ _ _ _ _ _ _ _) _ =>
          eapply hoare_weaken;
          [apply validate_kept|exact (fun _ H => H)|intros ? ?]
      end
    | hoare_step ltac:(apply check_stanza_expiration_kept) ].
  all: cbn [fst snd] in *; subst; first [exact I|assumption|now left].
Qed.

Lemma stanza_loop_kept opts pkt rd age accs :
  forall c spadat n,
    hoare any_call (stanza_loop E opts c accs pkt spadat n rd age)
      (fun r => Forall2 kept accs r.1.1.2).
Proof.
  induction accs as [|acc rest IH]; intros c spadat n; simpl.
  - apply hoare_ret. constructor.
  - eapply hoare_bind; [apply process_spa_data_kept|].
    intros [[[v c1] acc1] sp1] Hk. simpl in Hk. destruct v.
    + eapply hoare_bind; [apply hoare_emits; emits_auto|intros c2 _].
      eapply hoare_bind; [apply IH|].
      intros [[[c3 rest3] sp3] n3] Hrest. simpl in Hrest.
      apply hoare_ret. simpl. now constructor.
    + apply hoare_ret. simpl. constructor; [exact Hk|].
      clear. induction rest; constructor; [now left|assumption].
Qed.

Lemma kept_refl accs : Forall2 kept accs accs.
Proof. induction accs; constructor; [now left|assumption]. Qed.

Lemma kept_lookup_refl (tbl : gmap string acc_stanza) id :
  option_Forall2 kept (tbl !! id) (tbl !! id).
Proof. destruct (tbl !! id); constructor. now left. Qed.

Lemma kept_insert (tbl : gmap string acc_stanza) k a a' id :
  tbl !! k = Some a -> kept a a' ->
  option_Forall2 kept (tbl !! id) (<[k := a']> tbl !! id).
Proof.
  intros Hk Ha. destruct (decide (k = id)) as [<-|Hne].
  - rewrite lookup_insert_eq, Hk. now constructor.
  - rewrite lookup_insert_ne by exact Hne. apply kept_lookup_refl.
Qed.

(** The options that [incoming_spa] answers for [opts]. *)
Definition processed (opts o : fko_srv_options) : Prop :=
  config o = config opts /\ test o = test opts /\
  foreground o = foreground opts /\ verbose o = verbose opts /\
  packet_ctr o = packet_ctr opts /\
  spa_pkt o = (preprocess_spa_data E opts (spa_pkt opts)).2 /\
  Forall2 kept (acc_stanzas opts) (acc_stanzas o) /\
  forall id,
    option_Forall2 kept (acc_stanza_hash_tbl opts !! id)
      (acc_stanza_hash_tbl o !! id).

Ltac kept_specs :=
  first
    [ apply stanza_loop_kept
    | apply process_spa_data_kept
    | eapply hoare_weaken;
      [ first [apply precheck_pkt_spec|apply sdp_id_check_spec]
      | exact (fun _ _ => I)
      | exact (fun _ H => H) ] ].

Lemma incoming_spa_body_processed opts spadat :
  hoare any_call (incoming_spa_body E opts spadat)
    (fun r => processed opts r.2).
Proof.
  unfold incoming_spa_body. cbv zeta.
  repeat first
    [ lazymatch goal with
      | |- hoare _ (bind (if ?b then _ else sdp_id_check _ _ _ _) _) _ =>
          destruct b eqn:Hmode; cbv beta iota
      end
    | hoare_step kept_specs ].
  all: cbn [fst snd] in *; subst.
  all: repeat match goal with
              | H : (_, _) = (_, _) |- _ => injection H as ? ?; subst
              end.
  all: unfold processed; simpl.
  all: repeat (split; [reflexivity|]).
  all: try (split; [apply kept_refl|intros id; apply kept_lookup_refl]).
  all: try (split; [assumption|intros id; apply kept_lookup_refl]).
  all: split; [apply kept_refl|intros id].
  all: match goal with
       | H : ?b = true -> _, G : negb ?b = false |- _ =>
           apply negb_false_iff in G; destruct (H G) as (Hl & _ & _)
       end.
  all: simpl in Hl; eapply kept_insert; [symmetry; exact Hl|assumption].
Qed.

Lemma incoming_spa_processed opts spadat :
  hoare any_call (incoming_spa E opts spadat) (processed opts).
Proof.
  unfold incoming_spa.
  eapply hoare_bind; [apply incoming_spa_body_processed|].
  intros [c o] Ho. simpl in Ho.
  eapply hoare_bind; [apply hoare_emits; emits_auto|intros ? _].
  now apply hoare_ret.
Qed.

(** X21. What [incoming_spa] leaves of the options it is handed, whenever
    it gets to its end: the configuration, the test, foreground and verbose
    settings and the packet counter are the ones it found; the packet slot
    is the one [preprocess_spa_data] made of the packet; and the stanzas of
    the list and of the hash table are the ones it found, in the same
    order and under the same identities, but for those that it found past
    their expiry date and not yet marked so, which are now marked
    expired. *)
Theorem policy_only_expires opts spadat cache :
  match (incoming_spa E opts spadat (mk_world cache [])).1 with
  | Some o =>
      config o = config opts /\ test o = test opts /\
      foreground o = foreground opts /\ verbose o = verbose opts /\
      packet_ctr o = packet_ctr opts /\
      spa_pkt o = (preprocess_spa_data E opts (spa_pkt opts)).2 /\
      Forall2
        (fun a a' =>
           a' = a \/
           (a' = set_expired true a /\
            access_expire_time a > 0 /\ expired a = false /\
            time_now E > access_expire_time a))
        (acc_stanzas opts) (acc_stanzas o) /\
      forall id,
        option_Forall2
          (fun a a' =>
             a' = a \/
             (a' = set_expired true a /\
              access_expire_time a > 0 /\ expired a = false /\
              time_now E > access_expire_time a))
          (acc_stanza_hash_tbl opts !! id) (acc_stanza_hash_tbl o !! id)
  | None => True
  end.
Proof.
  destruct (hoare_run _ _ _ cache (incoming_spa_processed opts spadat))
    as [_ Hr].
  destruct (incoming_spa E opts spadat (mk_world cache [])).1 as [o|];
    [|exact I].
  exact (Hr o eq_refl).
Qed.

End Policy.
